(** * portapack::persistent_memory

    A shallow embedding of [firmware/common/portapack_persistent_memory.cpp]:
    the backup-RAM image ([backup_ram_t]: 63 register words and a check
    value), the [data_t] view that the accessors lay over the cached image,
    the [cache] operations and the field accessors.

    Machine integers are [Z] with the wrap-around written out; the register
    file is a [list Z] indexed by word; the accessors pass the cached image
    explicitly. *)

From Stdlib Require Import ZArith Lia Bool.
From stdpp Require Import base list.

Local Open Scope Z_scope.

(** ** Fixed-width integers *)

Definition u8 (x : Z) : Z := x mod 2 ^ 8.
Definition u16 (x : Z) : Z := x mod 2 ^ 16.
Definition u32 (x : Z) : Z := x mod 2 ^ 32.
Definition i32 (x : Z) : Z := (x + 2 ^ 31) mod 2 ^ 32 - 2 ^ 31.
Definition i64 (x : Z) : Z := (x + 2 ^ 63) mod 2 ^ 64 - 2 ^ 63.

Definition in_i32 (x : Z) : Prop := - 2 ^ 31 <= x < 2 ^ 31.
Definition in_i64 (x : Z) : Prop := - 2 ^ 63 <= x < 2 ^ 63.
Definition in_u32 (x : Z) : Prop := 0 <= x < 2 ^ 32.

(** ** range_t<T> (utility.hpp) *)

Record range_t := { minimum : Z; maximum : Z }.

(** Modelled from the spec: [range_t<T>::clip] lives in utility.hpp, which is
    not among the sources.  "clamp v into [lo, hi] (saturate to nearest
    bound, not reject)". *)
Definition clip (r : range_t) (value : Z) : Z :=
  if value <? minimum r then minimum r
  else if maximum r <? value then maximum r
  else value.

(** Modelled from the spec: the test of [range_t<T>::reset_if_outside]
    (utility.hpp), "current stored value is outside [lo, hi]". *)
Definition outside (r : range_t) (value : Z) : bool :=
  (value <? minimum r) || (maximum r <? value).

(** ** CRC<32> (crc.hpp) *)

Module CRC.

Record t := {
    truncated_polynomial : Z;
    initial_remainder : Z;
    final_xor_value : Z;
    remainder : Z
  }.

  (** Modelled from the spec: class [CRC<32>] lives in crc.hpp, which is not
      among the sources.  "a 32-bit CRC with polynomial, initial register and
      final XOR, processed one byte at a time"; the register is shifted left
      and each byte enters most significant bit first (the class is used with
      its default, unreflected, template arguments). *)
Definition make (poly init fxor : Z) : t :=
    {| truncated_polynomial := poly; initial_remainder := init;
       final_xor_value := fxor; remainder := init |}.

(** Modelled from the spec: [CRC<32>::top_bit], the most significant bit of
    the 32-bit register. *)
Definition top_bit : Z := Z.shiftl 1 31.

(** Modelled from the spec: [CRC<32>::process_bit], one step of the
    polynomial division on the 32-bit register. *)
Definition process_bit (bit : bool) (crc : t) : t :=
    let r := Z.lxor (remainder crc) (if bit then top_bit else 0) in
    let do_poly_div := Z.testbit r 31 in
    let r := u32 (Z.shiftl r 1) in
    let r := if do_poly_div then Z.lxor r (truncated_polynomial crc) else r in
    {| truncated_polynomial := truncated_polynomial crc;
       initial_remainder := initial_remainder crc;
       final_xor_value := final_xor_value crc;
       remainder := r |}.

(** Modelled from the spec: [CRC<32>::process_byte], "processed one byte at
    a time". *)
Definition process_byte (byte : Z) (crc : t) : t :=
    foldl (fun crc i => process_bit (Z.testbit byte (Z.of_nat i)) crc) crc
          [7; 6; 5; 4; 3; 2; 1; 0]%nat.

(** Modelled from the spec: [CRC<32>::checksum], the register after the
    "final XOR". *)
Definition checksum (crc : t) : Z :=
    Z.lxor (remainder crc) (final_xor_value crc).

End CRC.

(** ** backup_ram_t *)

Record backup_ram_t := {
  regfile : list Z;       (* uint32_t regfile[63] *)
  check_value : Z         (* uint32_t check_value *)
}.

Definition regfile_size : nat := 63.

Definition with_regfile (f : list Z -> list Z) (r : backup_ram_t) : backup_ram_t :=
  {| regfile := f (regfile r); check_value := check_value r |}.

Definition with_check_value (v : Z) (r : backup_ram_t) : backup_ram_t :=
  {| regfile := regfile r; check_value := v |}.

(** An image has the shape of the C++ object when it holds exactly 63
    register words. *)
Definition wf_ram (r : backup_ram_t) : Prop := length (regfile r) = regfile_size.

(** [backup_ram_t::copy]: the 63 words one by one, then the check value. *)
Definition copy (src dst : backup_ram_t) : backup_ram_t :=
  let dst :=
    foldl (fun dst i => with_regfile (fun rf => <[i := regfile src !!! i]> rf) dst)
          dst (seq 0 regfile_size) in
  with_check_value (check_value src) dst.

(** [backup_ram_t::copy_from_data_t]; [src_words] is the object
    representation of the [data_t], [word_count] its size in words. *)
Definition copy_from_data_t (src_words : list Z) (word_count : nat)
    (dst : backup_ram_t) : backup_ram_t :=
  foldl (fun dst i =>
           if (i <? word_count)%nat
           then with_regfile (fun rf => <[i := src_words !!! i]> rf) dst
           else with_regfile (fun rf => <[i := 0]> rf) dst)
        dst (seq 0 regfile_size).

(** The four [process_byte] calls of one loop iteration. *)
Definition process_word (word : Z) (crc : CRC.t) : CRC.t :=
  let crc := CRC.process_byte (Z.land (Z.shiftr word 0) 0xff) crc in
  let crc := CRC.process_byte (Z.land (Z.shiftr word 8) 0xff) crc in
  let crc := CRC.process_byte (Z.land (Z.shiftr word 16) 0xff) crc in
  CRC.process_byte (Z.land (Z.shiftr word 24) 0xff) crc.

(** [backup_ram_t::compute_check_value] *)
Definition compute_check_value (this : backup_ram_t) : Z :=
  let crc := CRC.make 0x04c11db7 0xffffffff 0xffffffff in
  let crc :=
    foldl (fun crc i => process_word (regfile this !!! i) crc)
          crc (seq 0 regfile_size) in
  CRC.checksum crc.

(** [backup_ram_t::is_valid] *)
Definition is_valid (this : backup_ram_t) : bool :=
  compute_check_value this =? check_value this.

(** [backup_ram_t::persist_to]: returns the updated [this] and the new
    [dst]. *)
Definition persist_to (this dst : backup_ram_t) : backup_ram_t * backup_ram_t :=
  let this := with_check_value (compute_check_value this) this in
  (this, copy this dst).

(** ** Constants of the module *)

Definition tuned_frequency_reset_value : Z := 100000000.

Definition ppb_range : range_t := {| minimum := -99000; maximum := 99000 |}.
Definition ppb_reset_value : Z := 0.

Definition tone_mix_range : range_t := {| minimum := 10; maximum := 99 |}.
Definition tone_mix_reset_value : Z := 20.

Definition afsk_freq_range : range_t := {| minimum := 1; maximum := 4000 |}.
Definition afsk_mark_reset_value : Z := 1200.
Definition afsk_space_reset_value : Z := 2200.

Definition modem_baudrate_range : range_t := {| minimum := 50; maximum := 9600 |}.
Definition modem_baudrate_reset_value : Z := 1200.

Definition modem_repeat_range : range_t := {| minimum := 1; maximum := 99 |}.
Definition modem_repeat_reset_value : Z := 5.

Definition clkout_freq_range : range_t := {| minimum := 10; maximum := 60000 |}.
Definition clkout_freq_reset_value : Z := 10000.

Definition TOUCH_CALIBRATION_MAGIC : Z := 0x074af82f.

(** ** What the other headers supply

    [touch::Calibration] (touch.hpp), [serial_format_t] (serial_format.hpp)
    and [rf::tuning_range] (rf_path.hpp) are declared outside this file.
    They are kept as parameters: the number of 32-bit words each member
    occupies in [data_t], the words of the default-constructed values, and
    the bounds of the tuning range. *)

Record externals := {
  Calibration_words : nat;
  Calibration_default : list Z;
  serial_format_words : nat;
  serial_format_default : list Z;
  tuning_range : range_t
}.

(** ** data_t *)

Module data_t.

Record t := {
    tuned_frequency : Z;              (* int64_t *)
    correction_ppb : Z;               (* int32_t *)
    touch_calibration_magic : Z;      (* uint32_t *)
    touch_calibration : list Z;       (* touch::Calibration *)
    modem_def_index : Z;              (* uint32_t *)
    serial_format : list Z;           (* serial_format_t *)
    modem_bw : Z;                     (* int32_t *)
    afsk_mark_freq : Z;               (* int32_t *)
    afsk_space_freq : Z;              (* int32_t *)
    modem_baudrate : Z;               (* int32_t *)
    modem_repeat : Z;                 (* int32_t *)
    playdead_magic : Z;               (* uint32_t *)
    playing_dead : Z;                 (* uint32_t *)
    playdead_sequence : Z;            (* uint32_t *)
    ui_config : Z;                    (* uint32_t *)
    pocsag_last_address : Z;          (* uint32_t *)
    pocsag_ignore_address : Z;        (* uint32_t *)
    tone_mix : Z;                     (* int32_t *)
    hardware_config : Z               (* uint32_t *)
  }.

  (** The [constexpr data_t()] constructor. *)
Definition make (E : externals) : t := {|
    tuned_frequency := tuned_frequency_reset_value;
    correction_ppb := ppb_reset_value;
    touch_calibration_magic := TOUCH_CALIBRATION_MAGIC;
    touch_calibration := Calibration_default E;
    modem_def_index := 0;
    serial_format := serial_format_default E;
    modem_bw := 15000;
    afsk_mark_freq := afsk_mark_reset_value;
    afsk_space_freq := afsk_space_reset_value;
    modem_baudrate := modem_baudrate_reset_value;
    modem_repeat := modem_repeat_reset_value;
    playdead_magic := 0;
    playing_dead := 0;
    playdead_sequence := 0;
    ui_config :=
      u32 (Z.lor (Z.lor (Z.lor (Z.shiftl 1 31) (Z.shiftl 1 28))
                        (Z.shiftl clkout_freq_reset_value 4))
                 (Z.shiftl 7 0));
    pocsag_last_address := 0;
    pocsag_ignore_address := 0;
    tone_mix := tone_mix_reset_value;
    hardware_config := 0
  |}.

  (** Number of words taken by the members, in declaration order. *)
Definition member_words (E : externals) : nat :=
    (18 + Calibration_words E + serial_format_words E)%nat.

  (** The [int64_t] first member aligns the struct on 8 bytes: an odd number
      of member words is followed by one padding word. *)
Definition padding_words (E : externals) : nat := (member_words E mod 2)%nat.

  (** [(sizeof(data_t) + 3) / 4] *)
Definition word_count (E : externals) : nat :=
    (member_words E + padding_words E)%nat.

  (** The object seen as [uint32_t*]: little-endian words, members in
      declaration order, padding read as zero. *)
Definition words (E : externals) (d : t) : list Z :=
    [u32 (tuned_frequency d); u32 (Z.shiftr (tuned_frequency d) 32);
     u32 (correction_ppb d); touch_calibration_magic d]
    ++ touch_calibration d
    ++ [modem_def_index d]
    ++ serial_format d
    ++ [u32 (modem_bw d); u32 (afsk_mark_freq d); u32 (afsk_space_freq d);
        u32 (modem_baudrate d); u32 (modem_repeat d);
        playdead_magic d; playing_dead d; playdead_sequence d;
        ui_config d; pocsag_last_address d; pocsag_ignore_address d;
        u32 (tone_mix d); hardware_config d]
    ++ replicate (padding_words E) 0.

End data_t.

(** [static_assert(sizeof(data_t) <= sizeof(backup_ram_t) - sizeof(uint32_t))],
    the default values have the size of their types, and the tuning range is
    a non-empty range of [rf::Frequency] (int64_t) values. *)
Definition wf_externals (E : externals) : bool :=
  Nat.leb (data_t.word_count E) regfile_size
  && Nat.eqb (length (Calibration_default E)) (Calibration_words E)
  && Nat.eqb (length (serial_format_default E)) (serial_format_words E)
  && (- 2 ^ 63 <=? minimum (tuning_range E))
  && (minimum (tuning_range E) <=? maximum (tuning_range E))
  && (maximum (tuning_range E) <? 2 ^ 63).

(** The [backup_ram_t()] constructor: [check_value(0)], then the defaults
    are copied over the register file. *)
Definition backup_ram_t_default (E : externals) : backup_ram_t :=
  let this := {| regfile := replicate regfile_size 0; check_value := 0 |} in
  let defaults := data_t.make E in
  copy_from_data_t (data_t.words E defaults) (data_t.word_count E) this.

(** ** References into the cached image

    [data] is the cached image reinterpreted as a [data_t]: a member is a
    window of the register file. *)

Record ref := {
  load : backup_ram_t -> Z;
  store : Z -> backup_ram_t -> backup_ram_t
}.

Definition uint32_at (off : nat) : ref := {|
  load c := regfile c !!! off;
  store v c := with_regfile (fun rf => <[off := u32 v]> rf) c
|}.

Definition int32_at (off : nat) : ref := {|
  load c := i32 (regfile c !!! off);
  store v c := with_regfile (fun rf => <[off := u32 v]> rf) c
|}.

Definition int64_at (off : nat) : ref := {|
  load c := i64 (regfile c !!! off + 2 ^ 32 * regfile c !!! S off);
  store v c :=
    with_regfile (fun rf => <[S off := u32 (Z.shiftr v 32)]> (<[off := u32 v]> rf)) c
|}.

Record blob_ref := {
  load_blob : backup_ram_t -> list Z;
  store_blob : list Z -> backup_ram_t -> backup_ram_t
}.

Definition words_at (off n : nat) : blob_ref := {|
  load_blob c := take n (drop off (regfile c));
  store_blob v c := with_regfile (fun rf => list_inserts off v rf) c
|}.

Module data.
Section members.
Variable E : externals.

Let cal := Calibration_words E.
Let sf := serial_format_words E.

Definition tuned_frequency : ref := int64_at 0.
Definition correction_ppb : ref := int32_at 2.
Definition touch_calibration_magic : ref := uint32_at 3.
Definition touch_calibration : blob_ref := words_at 4 cal.
Definition modem_def_index : ref := uint32_at (4 + cal).
Definition serial_format : blob_ref := words_at (5 + cal) sf.
Definition modem_bw : ref := int32_at (5 + cal + sf).
Definition afsk_mark_freq : ref := int32_at (6 + cal + sf).
Definition afsk_space_freq : ref := int32_at (7 + cal + sf).
Definition modem_baudrate : ref := int32_at (8 + cal + sf).
Definition modem_repeat : ref := int32_at (9 + cal + sf).
Definition playdead_magic : ref := uint32_at (10 + cal + sf).
Definition playing_dead : ref := uint32_at (11 + cal + sf).
Definition playdead_sequence : ref := uint32_at (12 + cal + sf).
Definition ui_config_word : nat := 13 + cal + sf.
Definition ui_config : ref := uint32_at ui_config_word.
Definition pocsag_last_address : ref := uint32_at (14 + cal + sf).
Definition pocsag_ignore_address : ref := uint32_at (15 + cal + sf).
Definition tone_mix : ref := int32_at (16 + cal + sf).
Definition hardware_config : ref := uint32_at (17 + cal + sf).
End members.
End data.

(** Modelled from the spec: [range_t<T>::reset_if_outside(T& value, reset)]
    (utility.hpp, not among the sources): "if current stored value is outside
    [lo, hi], overwrite it with r"; nothing is written otherwise. *)
Definition reset_if_outside (r : range_t) (value : ref) (reset_value : Z)
    (c : backup_ram_t) : backup_ram_t :=
  if outside r (load value c) then store value reset_value c else c.

(** ** The two images and the cache operations *)

Record machine := {
  backup_ram : backup_ram_t;          (* the physical backup RAM *)
  cached_backup_ram : backup_ram_t    (* the in-memory copy *)
}.

Definition wf_machine (m : machine) : Prop :=
  wf_ram (backup_ram m) /\ wf_ram (cached_backup_ram m).

Module cache.
Section ops.
Variable E : externals.

  (** [cached_backup_ram = backup_ram_t();] *)
Definition defaults (m : machine) : machine :=
    {| backup_ram := backup_ram m;
       cached_backup_ram := copy (backup_ram_t_default E) (cached_backup_ram m) |}.

Definition init (m : machine) : machine :=
    if is_valid (backup_ram m) then
      {| backup_ram := backup_ram m;
         cached_backup_ram := copy (backup_ram m) (cached_backup_ram m) |}
    else defaults m.

Definition persist (m : machine) : machine :=
    let '(this, dst) := persist_to (cached_backup_ram m) (backup_ram m) in
    {| backup_ram := dst; cached_backup_ram := this |}.
End ops.
End cache.

(** ** Field accessors

    Every accessor works on [data], the cached image.  A getter returns its
    result together with the image it leaves behind. *)

Section accessors.
Variable E : externals.

Definition tuned_frequency (c : backup_ram_t) : Z * backup_ram_t :=
  let c := reset_if_outside (tuning_range E) data.tuned_frequency
             tuned_frequency_reset_value c in
  (load data.tuned_frequency c, c).

Definition set_tuned_frequency (new_value : Z) (c : backup_ram_t) : backup_ram_t :=
  store data.tuned_frequency (clip (tuning_range E) new_value) c.

Definition correction_ppb (c : backup_ram_t) : Z * backup_ram_t :=
  let c := reset_if_outside ppb_range data.correction_ppb ppb_reset_value c in
  (load data.correction_ppb c, c).

(** The second component is the value handed to
    [portapack::clock_manager.set_reference_ppb]. *)
Definition set_correction_ppb (new_value : Z) (c : backup_ram_t)
    : backup_ram_t * Z :=
  let clipped_value := clip ppb_range new_value in
  (store data.correction_ppb clipped_value c, clipped_value).

Definition set_touch_calibration (new_value : list Z) (c : backup_ram_t)
    : backup_ram_t :=
  let c := store_blob (data.touch_calibration E) new_value c in
  store data.touch_calibration_magic TOUCH_CALIBRATION_MAGIC c.

Definition touch_calibration (c : backup_ram_t) : list Z * backup_ram_t :=
  let c :=
    if negb (load data.touch_calibration_magic c =? TOUCH_CALIBRATION_MAGIC)
    then set_touch_calibration (Calibration_default E) c
    else c in
  (load_blob (data.touch_calibration E) c, c).

Definition tone_mix (c : backup_ram_t) : Z * backup_ram_t :=
  let c := reset_if_outside tone_mix_range (data.tone_mix E) tone_mix_reset_value c in
  (load (data.tone_mix E) c, c).

Definition set_tone_mix (new_value : Z) (c : backup_ram_t) : backup_ram_t :=
  store (data.tone_mix E) (clip tone_mix_range new_value) c.

Definition afsk_mark_freq (c : backup_ram_t) : Z * backup_ram_t :=
  let c := reset_if_outside afsk_freq_range (data.afsk_mark_freq E)
             afsk_mark_reset_value c in
  (load (data.afsk_mark_freq E) c, c).

Definition set_afsk_mark (new_value : Z) (c : backup_ram_t) : backup_ram_t :=
  store (data.afsk_mark_freq E) (clip afsk_freq_range new_value) c.

Definition afsk_space_freq (c : backup_ram_t) : Z * backup_ram_t :=
  let c := reset_if_outside afsk_freq_range (data.afsk_space_freq E)
             afsk_space_reset_value c in
  (load (data.afsk_space_freq E) c, c).

Definition set_afsk_space (new_value : Z) (c : backup_ram_t) : backup_ram_t :=
  store (data.afsk_space_freq E) (clip afsk_freq_range new_value) c.

Definition modem_baudrate (c : backup_ram_t) : Z * backup_ram_t :=
  let c := reset_if_outside modem_baudrate_range (data.modem_baudrate E)
             modem_baudrate_reset_value c in
  (load (data.modem_baudrate E) c, c).

Definition set_modem_baudrate (new_value : Z) (c : backup_ram_t) : backup_ram_t :=
  store (data.modem_baudrate E) (clip modem_baudrate_range new_value) c.

(** Returns [uint8_t]. *)
Definition modem_repeat (c : backup_ram_t) : Z * backup_ram_t :=
  let c := reset_if_outside modem_repeat_range (data.modem_repeat E)
             modem_repeat_reset_value c in
  (u8 (load (data.modem_repeat E) c), c).

(** The argument is a [uint32_t]; the range is a [range_t<int32_t>], so the
    argument is converted to [int32_t] on the way into [clip]. *)
Definition set_modem_repeat (new_value : Z) (c : backup_ram_t) : backup_ram_t :=
  store (data.modem_repeat E) (clip modem_repeat_range (i32 new_value)) c.

Definition serial_format (c : backup_ram_t) : list Z :=
  load_blob (data.serial_format E) c.

Definition set_serial_format (new_value : list Z) (c : backup_ram_t) : backup_ram_t :=
  store_blob (data.serial_format E) new_value c.

(** *** The ui_config register *)

(** [data->ui_config & (1 << bit)] converted to [bool]. *)
Definition test_ui_config (bit : Z) (c : backup_ram_t) : bool :=
  negb (Z.land (load (data.ui_config E) c) (Z.shiftl 1 bit) =? 0).

Definition show_gui_return_icon := test_ui_config 20.
Definition load_app_settings := test_ui_config 21.
Definition save_app_settings := test_ui_config 22.
Definition show_bigger_qr_code := test_ui_config 23.
Definition disable_touchscreen := test_ui_config 24.
Definition hide_clock := test_ui_config 25.
Definition clock_with_date := test_ui_config 26.
Definition clkout_enabled := test_ui_config 27.
Definition config_speaker := test_ui_config 28.
Definition stealth_mode := test_ui_config 29.
Definition config_login := test_ui_config 30.
Definition config_splash := test_ui_config 31.

Definition config_cpld (c : backup_ram_t) : Z :=
  u8 (load (data.hardware_config E) c).

Definition config_backlight_timer (c : backup_ram_t) : option Z :=
  let table_index := Z.land (load (data.ui_config E) c) 7 in
  if table_index =? 0 then None
  else Some ([0; 5; 15; 30; 60; 180; 300; 600] !!! Z.to_nat table_index).

Definition set_gui_return_icon (v : bool) (c : backup_ram_t) : backup_ram_t :=
  store (data.ui_config E)
    (Z.lor (Z.land (load (data.ui_config E) c) (Z.lnot (Z.shiftl 1 20)))
           (Z.shiftl (Z.b2z v) 20)) c.

Definition set_load_app_settings (v : bool) (c : backup_ram_t) : backup_ram_t :=
  store (data.ui_config E)
    (Z.lor (Z.land (load (data.ui_config E) c) (Z.lnot (Z.shiftl 1 21)))
           (Z.shiftl (Z.b2z v) 21)) c.

Definition set_save_app_settings (v : bool) (c : backup_ram_t) : backup_ram_t :=
  store (data.ui_config E)
    (Z.lor (Z.land (load (data.ui_config E) c) (Z.lnot (Z.shiftl 1 22)))
           (Z.shiftl (Z.b2z v) 22)) c.

Definition set_show_bigger_qr_code (v : bool) (c : backup_ram_t) : backup_ram_t :=
  store (data.ui_config E)
    (Z.lor (Z.land (load (data.ui_config E) c) (Z.lnot (Z.shiftl 1 23)))
           (Z.shiftl (Z.b2z v) 23)) c.

Definition set_disable_touchscreen (v : bool) (c : backup_ram_t) : backup_ram_t :=
  store (data.ui_config E)
    (Z.lor (Z.land (load (data.ui_config E) c) (Z.lnot (Z.shiftl 1 24)))
           (Z.shiftl (Z.b2z v) 24)) c.

Definition set_clock_hidden (v : bool) (c : backup_ram_t) : backup_ram_t :=
  store (data.ui_config E)
    (Z.lor (Z.land (load (data.ui_config E) c) (Z.lnot (Z.shiftl 1 25)))
           (Z.shiftl (Z.b2z v) 25)) c.

Definition set_clock_with_date (v : bool) (c : backup_ram_t) : backup_ram_t :=
  store (data.ui_config E)
    (Z.lor (Z.land (load (data.ui_config E) c) (Z.lnot (Z.shiftl 1 26)))
           (Z.shiftl (Z.b2z v) 26)) c.

Definition set_clkout_enabled (v : bool) (c : backup_ram_t) : backup_ram_t :=
  store (data.ui_config E)
    (Z.lor (Z.land (load (data.ui_config E) c) (Z.lnot (Z.shiftl 1 27)))
           (Z.shiftl (Z.b2z v) 27)) c.

Definition set_config_speaker (v : bool) (c : backup_ram_t) : backup_ram_t :=
  store (data.ui_config E)
    (Z.lor (Z.land (load (data.ui_config E) c) (Z.lnot (Z.shiftl 1 28)))
           (Z.shiftl (Z.b2z v) 28)) c.

Definition set_stealth_mode (v : bool) (c : backup_ram_t) : backup_ram_t :=
  store (data.ui_config E)
    (Z.lor (Z.land (load (data.ui_config E) c) (Z.lnot (Z.shiftl 1 29)))
           (Z.shiftl (Z.b2z v) 29)) c.

Definition set_config_login (v : bool) (c : backup_ram_t) : backup_ram_t :=
  store (data.ui_config E)
    (Z.lor (Z.land (load (data.ui_config E) c) (Z.lnot (Z.shiftl 1 30)))
           (Z.shiftl (Z.b2z v) 30)) c.

Definition set_config_splash (v : bool) (c : backup_ram_t) : backup_ram_t :=
  store (data.ui_config E)
    (Z.lor (Z.land (load (data.ui_config E) c) (Z.lnot (Z.shiftl 1 31)))
           (Z.shiftl (Z.b2z v) 31)) c.

Definition set_config_cpld (i : Z) (c : backup_ram_t) : backup_ram_t :=
  store (data.hardware_config E) i c.

Definition set_config_backlight_timer (i : Z) (c : backup_ram_t) : backup_ram_t :=
  store (data.ui_config E)
    (Z.lor (Z.land (load (data.ui_config E) c) (Z.lnot 7)) (Z.land i 7)) c.

Definition pocsag_last_address (c : backup_ram_t) : Z :=
  load (data.pocsag_last_address E) c.

Definition set_pocsag_last_address (address : Z) (c : backup_ram_t) : backup_ram_t :=
  store (data.pocsag_last_address E) address c.

Definition pocsag_ignore_address (c : backup_ram_t) : Z :=
  load (data.pocsag_ignore_address E) c.

Definition set_pocsag_ignore_address (address : Z) (c : backup_ram_t) : backup_ram_t :=
  store (data.pocsag_ignore_address E) address c.

Definition clkout_freq (c : backup_ram_t) : Z * backup_ram_t :=
  let freq := u16 (Z.shiftr (Z.land (load (data.ui_config E) c) 0x000FFFF0) 4) in
  if (freq <? minimum clkout_freq_range) || (maximum clkout_freq_range <? freq)
  then
    (clkout_freq_reset_value,
     store (data.ui_config E)
       (Z.lor (Z.land (load (data.ui_config E) c) (Z.lnot 0x000FFFF0))
              (Z.shiftl clkout_freq_reset_value 4)) c)
  else (freq, c).

Definition set_clkout_freq (freq : Z) (c : backup_ram_t) : backup_ram_t :=
  store (data.ui_config E)
    (Z.lor (Z.land (load (data.ui_config E) c) (Z.lnot 0x000FFFF0))
           (Z.shiftl (clip clkout_freq_range freq) 4)) c.

End accessors.

(** ** Contracts of a ranged field

    [field] is the member the accessors work on, [lo] and [hi] its bounds,
    [reset] its reset value. *)

Section contracts.
Variable get : backup_ram_t -> Z * backup_ram_t.
Variable set : Z -> backup_ram_t -> backup_ram_t.
Variable field : ref.
Variables lo hi reset : Z.

(** Reset-if-outside on read: an out-of-range stored value is overwritten
    with the reset value, which is returned; an in-range one is returned and
    the image is left as it is. *)
Definition getter_resets_if_outside : Prop :=
  forall c, wf_ram c ->
    (load field c < lo \/ hi < load field c ->
       get c = (reset, store field reset c)
       /\ load field (store field reset c) = reset)
    /\ (lo <= load field c <= hi -> get c = (load field c, c)).

(** An in-range value written by the setter is read back as it is, and the
    read leaves the image alone. *)
Definition set_then_get_exact : Prop :=
  forall c v, wf_ram c -> lo <= v <= hi -> get (set v c) = (v, set v c).

(** Clamp on write: the setter stores [min(hi, max(lo, v))], for every
    argument [v] that satisfies [arg]. *)
Definition setter_clamps (arg : Z -> Prop) : Prop :=
  forall c v, wf_ram c -> arg v ->
    set v c = store field (Z.min hi (Z.max lo v)) c
    /\ load field (set v c) = Z.min hi (Z.max lo v).

(** Writing [lo - 1] and reading twice yields [x] both times. *)
Definition below_minimum_reads (x : Z) : Prop :=
  forall c, wf_ram c ->
    let c1 := set (lo - 1) c in
    let '(v1, c2) := get c1 in
    let '(v2, c3) := get c2 in
    v1 = x /\ v2 = x.
End contracts.

(** The CLKOUT frequency, bits 4-19 of [ui_config], seen as a member: the
    read and the masked write that [clkout_freq] and [set_clkout_freq]
    perform in line. *)
Definition clkout_field (E : externals) : ref := {|
  load c := u16 (Z.shiftr (Z.land (load (data.ui_config E) c) 0x000FFFF0) 4);
  store v c :=
    store (data.ui_config E)
      (Z.lor (Z.land (load (data.ui_config E) c) (Z.lnot 0x000FFFF0))
             (Z.shiftl v 4)) c
|}.

(** [c'] differs from [c] at most in bits [lo] to [hi] of the [ui_config]
    word: same size, same check value, every other register word equal,
    every other bit of [ui_config] equal. *)
Definition changes_only_ui_bits (E : externals) (lo hi : Z)
    (c c' : backup_ram_t) : Prop :=
  length (regfile c') = length (regfile c)
  /\ check_value c' = check_value c
  /\ (forall i : nat, i <> data.ui_config_word E ->
        regfile c' !! i = regfile c !! i)
  /\ (forall j : Z, 0 <= j < 32 -> j < lo \/ hi < j ->
        Z.testbit (load (data.ui_config E) c') j
        = Z.testbit (load (data.ui_config E) c) j).

(** The spec's formulation of the checksum: the payload as a byte string,
    each word giving its four bytes from the low one to the high one, and a
    CRC over that string. *)
Definition word_bytes (word : Z) : list Z :=
  [Z.land (Z.shiftr word 0) 0xff; Z.land (Z.shiftr word 8) 0xff;
   Z.land (Z.shiftr word 16) 0xff; Z.land (Z.shiftr word 24) 0xff].

Definition payload_bytes (words : list Z) : list Z :=
  flat_map word_bytes words.

Definition crc32_of_bytes (poly init fxor : Z) (bytes : list Z) : Z :=
  CRC.checksum
    (foldl (fun crc byte => CRC.process_byte byte crc) (CRC.make poly init fxor)
           bytes).

(** A CRC object as [compute_check_value] builds it, from its second step
    on: 32-bit register, the polynomial and the final XOR of the call. *)
Definition crc_state_ok (crc : CRC.t) : Prop :=
  in_u32 (CRC.remainder crc)
  /\ CRC.truncated_polynomial crc = 0x04c11db7
  /\ CRC.final_xor_value crc = 0xffffffff.

(** ** A sample platform

    An instance of the external parameters on which the definitions can be
    evaluated: a calibration of seven words, a serial format of one word and
    a tuning range of 10 MHz to 7250 MHz.  The theorems below hold for every
    instance that satisfies [wf_externals]. *)

Definition sample_externals : externals := {|
  Calibration_words := 7;
  Calibration_default := [1; 2; 3; 4; 5; 6; 7];
  serial_format_words := 1;
  serial_format_default := [0];
  tuning_range := {| minimum := 10000000; maximum := 7250000000 |}
|}.

(** The cached image right after [backup_ram_t()] on the sample platform. *)
Definition sample_cache : backup_ram_t := backup_ram_t_default sample_externals.

(** A machine whose two images are all zero, as after a cold start. *)
Definition cold_machine : machine := {|
  backup_ram := {| regfile := replicate regfile_size 0; check_value := 0 |};
  cached_backup_ram := {| regfile := replicate regfile_size 0; check_value := 0 |}
|}.

(** ** More sample inputs *)

(** A machine whose physical record is valid: the default payload of the
    sample platform with its checksum, as [persist()] writes it. *)
Definition persisted_defaults : machine :=
  cache.persist (cache.defaults sample_externals cold_machine).

(** A machine whose physical record is valid and holds a modem baud rate of
    9600: the default cache of the sample platform after
    [set_modem_baudrate(9600)] and [persist()]. *)
Definition persisted_9600 : machine :=
  cache.persist
    {| backup_ram := backup_ram cold_machine;
       cached_backup_ram := set_modem_baudrate sample_externals 9600 sample_cache |}.

(** A cache whose modem baud rate word is out of range: the default cache
    of the sample platform with 20000 written straight into the member. *)
Definition sample_cache_bad_baudrate : backup_ram_t :=
  store (data.modem_baudrate sample_externals) 20000 sample_cache.

(** A cache whose calibration was never set: all words zero. *)
Definition blank_cache : backup_ram_t := cached_backup_ram cold_machine.

(** ** The CRC on its register

    The division step of [CRC.process_bit] as a function of the 32-bit
    register alone, for the polynomial of [compute_check_value], and the
    input bits of a word in the order in which [process_word] feeds them. *)

Definition crc_shift (x : Z) : Z :=
  let y := u32 (Z.shiftl x 1) in
  if Z.testbit x 31 then Z.lxor y 0x04c11db7 else y.

Definition crc_bits (bits : list bool) (r : Z) : Z :=
  foldl (fun (r : Z) (bit : bool) =>
           crc_shift (Z.lxor r (if bit then CRC.top_bit else 0)))
        r bits.

Definition byte_bits (byte : Z) : list bool :=
  map (fun i => Z.testbit byte (Z.of_nat i)) [7; 6; 5; 4; 3; 2; 1; 0]%nat.

Definition word_bits (word : Z) : list bool :=
  byte_bits (Z.land (Z.shiftr word 0) 0xff)
  ++ byte_bits (Z.land (Z.shiftr word 8) 0xff)
  ++ byte_bits (Z.land (Z.shiftr word 16) 0xff)
  ++ byte_bits (Z.land (Z.shiftr word 24) 0xff).

(** At most 32 input bits laid out from the top of a 32-bit register: the
    first bit at bit 31, the next at bit 30, and so on. *)
Fixpoint bits_value (bits : list bool) : Z :=
  match bits with
  | [] => 0
  | bit :: bits =>
      Z.lxor (if bit then CRC.top_bit else 0) (Z.shiftr (bits_value bits) 1)
  end.

Definition with_remainder (r : Z) (crc : CRC.t) : CRC.t :=
  {| CRC.truncated_polynomial := CRC.truncated_polynomial crc;
     CRC.initial_remainder := CRC.initial_remainder crc;
     CRC.final_xor_value := CRC.final_xor_value crc;
     CRC.remainder := r |}.

(** ** Footprints of the accessors

    The words of the register file an operation may write, and the words
    the result of an observation may depend on. *)

(** [c'] is [c] except, at most, in the register words [off] to
    [off + n - 1]: same number of words, same check value. *)
Definition agree_outside (off n : nat) (c c' : backup_ram_t) : Prop :=
  length (regfile c') = length (regfile c)
  /\ check_value c' = check_value c
  /\ (forall i : nat, (i < off \/ off + n <= i)%nat ->
        regfile c' !! i = regfile c !! i).

Definition writes_only (off n : nat) (f : backup_ram_t -> backup_ram_t) : Prop :=
  forall c, agree_outside off n c (f c).

(** Two images with the same number of words that agree on the words [off]
    to [off + n - 1] give the same observation. *)
Definition reads_only {A : Type} (off n : nat) (obs : backup_ram_t -> A) : Prop :=
  forall c c',
    length (regfile c') = length (regfile c) ->
    (forall i : nat, (off <= i < off + n)%nat ->
       regfile c' !! i = regfile c !! i) ->
    obs c' = obs c.

(** [f] works inside the window [off .. off + n - 1]: it writes only those
    words, and what it leaves there depends only on what they held. *)
Definition local_write (off n : nat) (f : backup_ram_t -> backup_ram_t) : Prop :=
  writes_only off n f
  /\ (forall c c',
        length (regfile c') = length (regfile c) ->
        (forall i : nat, (off <= i < off + n)%nat ->
           regfile c' !! i = regfile c !! i) ->
        forall i : nat, (off <= i < off + n)%nat ->
          regfile (f c') !! i = regfile (f c) !! i).

(** The getter and the setter of each ranged member, in the order of the
    source file. *)
Definition ranged_accessors (E : externals)
    : list ((backup_ram_t -> Z * backup_ram_t) * (Z -> backup_ram_t -> backup_ram_t)) :=
  [ (tuned_frequency E, set_tuned_frequency E);
    (correction_ppb, fun v c => fst (set_correction_ppb v c));
    (tone_mix E, set_tone_mix E);
    (afsk_mark_freq E, set_afsk_mark E);
    (afsk_space_freq E, set_afsk_space E);
    (modem_baudrate E, set_modem_baudrate E);
    (modem_repeat E, set_modem_repeat E);
    (clkout_freq E, set_clkout_freq E) ].

(** The register words of each ranged member, first word and number of
    words, in the order of [ranged_accessors]. *)
Definition ranged_footprints (E : externals) : list (nat * nat) :=
  let cal := Calibration_words E in
  let sf := serial_format_words E in
  [ (0, 2); (2, 1); (16 + cal + sf, 1); (6 + cal + sf, 1); (7 + cal + sf, 1);
    (8 + cal + sf, 1); (9 + cal + sf, 1); (13 + cal + sf, 1) ]%nat.

(** The bounds of each ranged member, in the order of [ranged_accessors]. *)
Definition ranged_bounds (E : externals) : list (Z * Z) :=
  [ (minimum (tuning_range E), maximum (tuning_range E));
    (-99000, 99000); (10, 99); (1, 4000); (1, 4000); (50, 9600); (1, 99);
    (10, 60000) ].

(** The bit, the getter and the setter of each single-bit setting of
    [ui_config]. *)
Definition flag_accessors (E : externals)
    : list (Z * (backup_ram_t -> bool) * (bool -> backup_ram_t -> backup_ram_t)) :=
  [ (20, show_gui_return_icon E, set_gui_return_icon E);
    (21, load_app_settings E, set_load_app_settings E);
    (22, save_app_settings E, set_save_app_settings E);
    (23, show_bigger_qr_code E, set_show_bigger_qr_code E);
    (24, disable_touchscreen E, set_disable_touchscreen E);
    (25, hide_clock E, set_clock_hidden E);
    (26, clock_with_date E, set_clock_with_date E);
    (27, clkout_enabled E, set_clkout_enabled E);
    (28, config_speaker E, set_config_speaker E);
    (29, stealth_mode E, set_stealth_mode E);
    (30, config_login E, set_config_login E);
    (31, config_splash E, set_config_splash E) ].

(** The read-modify-write that every single-bit setter performs, for bit
    [bit]. *)
Definition write_ui_flag (E : externals) (bit : Z) (v : bool)
    (c : backup_ram_t) : backup_ram_t :=
  store (data.ui_config E)
    (Z.lor (Z.land (load (data.ui_config E) c) (Z.lnot (Z.shiftl 1 bit)))
           (Z.shiftl (Z.b2z v) bit)) c.

(** The masked read-modify-write of [ui_config]: keep the bits of [keep],
    then set those of [bits]. *)
Definition ui_rmw (E : externals) (keep bits : Z) (c : backup_ram_t)
    : backup_ram_t :=
  store (data.ui_config E)
    (Z.lor (Z.land (load (data.ui_config E) c) keep) bits) c.

(** [keep] clears exactly the bits [lo] to [hi] of a 32-bit register and
    [bits] has no bit outside them. *)
Definition ui_field (lo hi keep bits : Z) : Prop :=
  forall j : Z, 0 <= j < 32 ->
    Z.testbit keep j = negb ((lo <=? j) && (j <=? hi))
    /\ (Z.testbit bits j = true -> lo <= j <= hi).

(** The members of a default-constructed [data_t], word by word. *)
Definition default_words (E : externals) : list Z :=
  [100000000; 0; 0; 0x074af82f]
  ++ Calibration_default E
  ++ [0]
  ++ serial_format_default E
  ++ [15000; 1200; 2200; 1200; 5; 0; 0; 0; 0x90027107; 0; 0; 20; 0].

(** The table of [config_backlight_timer]. *)
Definition timer_seconds : list Z := [0; 5; 15; 30; 60; 180; 300; 600].

(** ** Proof automation *)

Ltac closed_arith :=
  solve [ unfold in_i32; vm_compute; intuition congruence ].

Ltac side_i32 :=
  first [ closed_arith | solve [intros; reflexivity] ].

(** ** Arithmetic of the fixed-width integers *)

Lemma i32_u32 (v : Z) : in_i32 v -> i32 (u32 v) = v.
Proof.
  unfold in_i32, i32, u32. intros Hv.
  change (2 ^ 32) with 4294967296 in *. change (2 ^ 31) with 2147483648 in *.
  Z.div_mod_to_equations. lia.
Qed.

Lemma i64_join (v : Z) :
  in_i64 v -> i64 (u32 v + 2 ^ 32 * u32 (Z.shiftr v 32)) = v.
Proof.
  unfold in_i64, i64, u32. intros Hv. rewrite Z.shiftr_div_pow2 by lia.
  change (2 ^ 32) with 4294967296 in *.
  change (2 ^ 63) with 9223372036854775808 in *.
  change (2 ^ 64) with 18446744073709551616 in *.
  Z.div_mod_to_equations. lia.
Qed.

Lemma u8_small (v : Z) : 0 <= v < 256 -> u8 v = v.
Proof. intros Hv. unfold u8. apply Z.mod_small. simpl. lia. Qed.

Lemma u16_small (v : Z) : 0 <= v < 65536 -> u16 v = v.
Proof. intros Hv. unfold u16. apply Z.mod_small. simpl. lia. Qed.

Lemma u32_testbit (x j : Z) : 0 <= j < 32 -> Z.testbit (u32 x) j = Z.testbit x j.
Proof. intros Hj. unfold u32. apply Z.mod_pow2_bits_low. lia. Qed.

Lemma clip_min_max (r : range_t) (v : Z) :
  minimum r <= maximum r -> clip r v = Z.min (maximum r) (Z.max (minimum r) v).
Proof.
  intros Hr. unfold clip.
  destruct (Z.ltb_spec v (minimum r)); [lia|].
  destruct (Z.ltb_spec (maximum r) v); lia.
Qed.

Lemma clip_inside (r : range_t) (v : Z) :
  minimum r <= v <= maximum r -> clip r v = v.
Proof.
  intros Hv. unfold clip.
  destruct (Z.ltb_spec v (minimum r)); [lia|].
  destruct (Z.ltb_spec (maximum r) v); lia.
Qed.

Lemma clip_bounds (r : range_t) (v : Z) :
  minimum r <= maximum r -> minimum r <= clip r v <= maximum r.
Proof.
  intros Hr. unfold clip.
  destruct (Z.ltb_spec v (minimum r)); [lia|].
  destruct (Z.ltb_spec (maximum r) v); lia.
Qed.

Lemma outside_false (r : range_t) (v : Z) :
  minimum r <= v <= maximum r -> outside r v = false.
Proof.
  intros Hv. unfold outside.
  destruct (Z.ltb_spec v (minimum r)); [lia|].
  destruct (Z.ltb_spec (maximum r) v); [lia|reflexivity].
Qed.

Lemma outside_true (r : range_t) (v : Z) :
  v < minimum r \/ maximum r < v -> outside r v = true.
Proof.
  intros Hv. unfold outside.
  destruct (Z.ltb_spec v (minimum r)); [reflexivity|].
  destruct (Z.ltb_spec (maximum r) v); [reflexivity|lia].
Qed.

(** ** Loops that fill the register file *)

Section fill.
Variable f : nat -> Z.

Lemma foldl_with_regfile (l : list nat) (dst : backup_ram_t) :
  foldl (fun dst i => with_regfile (fun rf => <[i := f i]> rf) dst) dst l
  = with_regfile (fun rf => foldl (fun rf i => <[i := f i]> rf) rf l) dst.
Proof.
  revert dst. induction l as [|i l IH]; intros dst; simpl.
  - destruct dst; reflexivity.
  - rewrite IH. destruct dst; reflexivity.
Qed.

Lemma fill_length (n : nat) (rf : list Z) :
  length (foldl (fun rf i => <[i := f i]> rf) rf (seq 0 n)) = length rf.
Proof.
  induction n as [|n IH]; [reflexivity|].
  rewrite seq_S, foldl_app. simpl. rewrite length_insert. exact IH.
Qed.

Lemma fill_lookup (n : nat) (rf : list Z) (j : nat) :
  (j < n)%nat -> (j < length rf)%nat ->
  foldl (fun rf i => <[i := f i]> rf) rf (seq 0 n) !! j = Some (f j).
Proof.
  induction n as [|n IH]; intros Hj Hlen; [lia|].
  rewrite seq_S, foldl_app. simpl.
  destruct (decide (j = n)) as [->|Hne].
  - apply list_lookup_insert_eq. rewrite fill_length. exact Hlen.
  - rewrite list_lookup_insert_ne by congruence. apply IH; lia.
Qed.

Lemma fill_all (n : nat) (rf : list Z) :
  length rf = n ->
  foldl (fun rf i => <[i := f i]> rf) rf (seq 0 n) = map f (seq 0 n).
Proof.
  intros Hlen. apply list_eq_same_length with n.
  - rewrite length_map, length_seq. reflexivity.
  - rewrite fill_length. exact Hlen.
  - intros i x y Hi Hx Hy.
    rewrite fill_lookup in Hx by lia.
    rewrite list_lookup_fmap, lookup_seq_lt in Hy by lia.
    simpl in Hy. congruence.
Qed.
End fill.

Lemma map_lookup_total_seq (l : list Z) :
  map (fun i => l !!! i) (seq 0 (length l)) = l.
Proof.
  apply list_eq_same_length with (length l).
  - reflexivity.
  - rewrite length_map, length_seq. reflexivity.
  - intros i x y Hi Hx Hy.
    rewrite list_lookup_fmap, lookup_seq_lt in Hx by lia. simpl in Hx.
    apply list_lookup_total_correct in Hy. congruence.
Qed.

(** [copy] overwrites every word and the check value of the destination. *)
Lemma copy_eq (src dst : backup_ram_t) :
  wf_ram src -> wf_ram dst -> copy src dst = src.
Proof.
  unfold wf_ram, copy. intros Hs Hd.
  rewrite (foldl_with_regfile (fun i => regfile src !!! i)).
  unfold with_regfile, with_check_value. cbn [regfile check_value].
  rewrite fill_all by exact Hd. rewrite <- Hs, map_lookup_total_seq.
  destruct src; reflexivity.
Qed.

(** ** Bits of a read-modify-write on a register *)

Lemma testbit_one (n : Z) : n <> 0 -> Z.testbit 1 n = false.
Proof.
  intros Hn. destruct (Z.lt_ge_cases n 0) as [Hneg|Hpos].
  - apply Z.testbit_neg_r. exact Hneg.
  - change 1 with (2 ^ 0). apply Z.pow2_bits_false. lia.
Qed.

Lemma testbit_b2z_shiftl (v : bool) (k j : Z) :
  0 <= k -> 0 <= j -> Z.testbit (Z.shiftl (Z.b2z v) k) j = v && (j =? k).
Proof.
  intros Hk Hj. rewrite Z.shiftl_spec by exact Hj.
  destruct (Z.eqb_spec j k) as [->|Hne].
  - rewrite Z.sub_diag, Z.b2z_bit0, andb_true_r. reflexivity.
  - rewrite andb_false_r. destruct v; simpl.
    + apply testbit_one. lia.
    + apply Z.testbit_0_l.
Qed.

(** [(x & ~(1 << k)) | (v << k)] seen bit by bit. *)
Lemma flag_write_testbit (x : Z) (v : bool) (k j : Z) :
  0 <= k -> 0 <= j ->
  Z.testbit (Z.lor (Z.land x (Z.lnot (Z.shiftl 1 k))) (Z.shiftl (Z.b2z v) k)) j
  = if j =? k then v else Z.testbit x j.
Proof.
  intros Hk Hj.
  rewrite Z.lor_spec, Z.land_spec, Z.lnot_spec by exact Hj.
  rewrite testbit_b2z_shiftl by assumption.
  change 1 with (Z.b2z true) at 1. rewrite testbit_b2z_shiftl by assumption.
  destruct (Z.eqb_spec j k) as [->|Hne]; simpl.
  - rewrite andb_false_r, andb_true_r. reflexivity.
  - rewrite andb_true_r, andb_false_r, orb_false_r. reflexivity.
Qed.

Lemma testbit_small (y n j : Z) :
  0 <= y < 2 ^ n -> 0 <= n <= j -> Z.testbit y j = false.
Proof.
  intros Hy Hj. rewrite <- (Z.mod_small y (2 ^ n)) by exact Hy.
  apply Z.mod_pow2_bits_high. exact Hj.
Qed.

(** Bits of the mask [0x000FFFF0]. *)
Lemma clkout_mask_testbit (j : Z) :
  0 <= j -> Z.testbit 0x000FFFF0 j = (4 <=? j) && (j <? 20).
Proof.
  intros Hj. change 0x000FFFF0 with (Z.shiftl (Z.ones 16) 4).
  rewrite Z.shiftl_spec by exact Hj.
  destruct (Z.leb_spec 4 j) as [H4|H4]; simpl.
  - destruct (Z.ltb_spec j 20) as [H20|H20].
    + apply Z.ones_spec_low. lia.
    + apply Z.ones_spec_high. lia.
  - apply Z.testbit_neg_r. lia.
Qed.

(** [(x & ~0x000FFFF0) | (y << 4)] for a 16-bit [y], bit by bit. *)
Lemma clkout_write_testbit (x y j : Z) :
  0 <= y < 2 ^ 16 -> 0 <= j ->
  Z.testbit (Z.lor (Z.land x (Z.lnot 0x000FFFF0)) (Z.shiftl y 4)) j
  = if (4 <=? j) && (j <? 20) then Z.testbit y (j - 4) else Z.testbit x j.
Proof.
  intros Hy Hj.
  rewrite Z.lor_spec, Z.land_spec, Z.lnot_spec by exact Hj.
  rewrite clkout_mask_testbit by exact Hj.
  rewrite Z.shiftl_spec by exact Hj.
  destruct (Z.leb_spec 4 j) as [H4|H4]; simpl.
  - destruct (Z.ltb_spec j 20) as [H20|H20]; simpl.
    + rewrite andb_false_r. reflexivity.
    + rewrite andb_true_r, (testbit_small y 16 (j - 4)) by lia.
      apply orb_false_r.
  - rewrite andb_true_r, (Z.testbit_neg_r y (j - 4)) by lia. apply orb_false_r.
Qed.

(** [(x & ~7) | (i & 7)], bit by bit. *)
Lemma backlight_write_testbit (x i j : Z) :
  0 <= j ->
  Z.testbit (Z.lor (Z.land x (Z.lnot 7)) (Z.land i 7)) j
  = if j <? 3 then Z.testbit i j else Z.testbit x j.
Proof.
  intros Hj.
  rewrite Z.lor_spec, !Z.land_spec, Z.lnot_spec by exact Hj.
  change 7 with (Z.ones 3).
  destruct (Z.ltb_spec j 3) as [H3|H3].
  - rewrite Z.ones_spec_low by lia. simpl.
    rewrite andb_false_r, andb_true_r. reflexivity.
  - rewrite Z.ones_spec_high by lia. simpl.
    rewrite andb_true_r, andb_false_r. apply orb_false_r.
Qed.

(** The CLKOUT sub-field read back from a register holding it. *)
Lemma clkout_read_write (x y : Z) :
  0 <= y < 2 ^ 16 ->
  u16 (Z.shiftr
         (Z.land (u32 (Z.lor (Z.land x (Z.lnot 0x000FFFF0)) (Z.shiftl y 4)))
                 0x000FFFF0) 4) = y.
Proof.
  intros Hy.
  assert (Hbits : Z.shiftr
         (Z.land (u32 (Z.lor (Z.land x (Z.lnot 0x000FFFF0)) (Z.shiftl y 4)))
                 0x000FFFF0) 4 = y).
  { apply Z.bits_inj'. intros j Hj.
    rewrite Z.shiftr_spec, Z.land_spec by exact Hj.
    rewrite clkout_mask_testbit by lia.
    destruct (Z.ltb_spec (j + 4) 20) as [H20|H20].
    - rewrite u32_testbit by lia. rewrite clkout_write_testbit by lia.
      destruct (Z.leb_spec 4 (j + 4)); [|lia].
      destruct (Z.ltb_spec (j + 4) 20); [|lia]. simpl.
      rewrite andb_true_r. f_equal. lia.
    - destruct (Z.leb_spec 4 (j + 4)); [|lia]. simpl.
      rewrite andb_false_r. symmetry. apply (testbit_small y 16); lia. }
  rewrite Hbits. apply u16_small. simpl in Hy. lia.
Qed.

(** ** Loads and stores through a reference *)

Lemma wf_externals_spec (E : externals) :
  wf_externals E = true ->
  (18 + Calibration_words E + serial_format_words E <= regfile_size)%nat
  /\ length (Calibration_default E) = Calibration_words E
  /\ length (serial_format_default E) = serial_format_words E
  /\ in_i64 (minimum (tuning_range E))
  /\ minimum (tuning_range E) <= maximum (tuning_range E)
  /\ in_i64 (maximum (tuning_range E)).
Proof.
  unfold wf_externals, in_i64. rewrite !andb_true_iff.
  rewrite Nat.leb_le, !Nat.eqb_eq, !Z.leb_le, Z.ltb_lt.
  unfold data_t.word_count, data_t.member_words. lia.
Qed.

Lemma wf_with_regfile_insert (off : nat) (v : Z) (c : backup_ram_t) :
  wf_ram c -> wf_ram (with_regfile (fun rf => <[off := v]> rf) c).
Proof. unfold wf_ram, with_regfile. simpl. rewrite length_insert. tauto. Qed.

Lemma wf_store_uint32 (off : nat) (v : Z) (c : backup_ram_t) :
  wf_ram c -> wf_ram (store (uint32_at off) v c).
Proof. apply wf_with_regfile_insert. Qed.

Lemma wf_store_int32 (off : nat) (v : Z) (c : backup_ram_t) :
  wf_ram c -> wf_ram (store (int32_at off) v c).
Proof. apply wf_with_regfile_insert. Qed.

Lemma wf_store_int64 (off : nat) (v : Z) (c : backup_ram_t) :
  wf_ram c -> wf_ram (store (int64_at off) v c).
Proof.
  intros Hc. unfold wf_ram. simpl. rewrite !length_insert. exact Hc.
Qed.

Lemma load_store_uint32 (off : nat) (v : Z) (c : backup_ram_t) :
  (off < regfile_size)%nat -> wf_ram c ->
  load (uint32_at off) (store (uint32_at off) v c) = u32 v.
Proof.
  unfold wf_ram. intros Hoff Hc. simpl.
  apply list_lookup_total_insert_eq. lia.
Qed.

Lemma load_store_int32 (off : nat) (v : Z) (c : backup_ram_t) :
  (off < regfile_size)%nat -> wf_ram c -> in_i32 v ->
  load (int32_at off) (store (int32_at off) v c) = v.
Proof.
  unfold wf_ram. intros Hoff Hc Hv. simpl.
  rewrite list_lookup_total_insert_eq by lia. apply i32_u32. exact Hv.
Qed.

Lemma load_store_int64 (off : nat) (v : Z) (c : backup_ram_t) :
  (S off < regfile_size)%nat -> wf_ram c -> in_i64 v ->
  load (int64_at off) (store (int64_at off) v c) = v.
Proof.
  unfold wf_ram. intros Hoff Hc Hv. simpl.
  rewrite list_lookup_total_insert_ne by lia.
  rewrite !list_lookup_total_insert_eq by (rewrite ?length_insert; lia).
  apply i64_join. exact Hv.
Qed.

Section ranged_field.
Variable r : range_t.
Variable f : ref.
Variable reset : Z.
Variable post : Z -> Z.     (* conversion of the getter's result *)
Variable conv : Z -> Z.     (* conversion of the setter's argument *)
Variable ty : Z -> Prop.    (* the values of the member's type *)

Hypothesis Hr : minimum r <= maximum r.
Hypothesis Hload_store : forall c v, wf_ram c -> ty v -> load f (store f v c) = v.
Hypothesis Hty_reset : ty reset.
Hypothesis Hty_range : forall v, minimum r <= v <= maximum r -> ty v.
Hypothesis Hpost_reset : post reset = reset.
Hypothesis Hpost_range : forall v, minimum r <= v <= maximum r -> post v = v.

Let get (c : backup_ram_t) : Z * backup_ram_t :=
  let c := reset_if_outside r f reset c in (post (load f c), c).

Let set (v : Z) (c : backup_ram_t) : backup_ram_t :=
  store f (clip r (conv v)) c.

Lemma ranged_getter : getter_resets_if_outside get f (minimum r) (maximum r) reset.
Proof.
  intros c Hc. subst get. simpl. unfold reset_if_outside. split.
  - intros Hout. rewrite outside_true by exact Hout.
    rewrite Hload_store by assumption. rewrite Hpost_reset. auto.
  - intros Hin. rewrite outside_false by exact Hin.
    rewrite Hpost_range by exact Hin. reflexivity.
Qed.

Lemma ranged_get_stored (c : backup_ram_t) (v : Z) :
  wf_ram c -> minimum r <= v <= maximum r ->
  get (store f v c) = (v, store f v c).
Proof.
  intros Hc Hv. subst get. simpl. unfold reset_if_outside.
  rewrite Hload_store by auto. rewrite outside_false by exact Hv.
  rewrite Hload_store by auto. rewrite Hpost_range by exact Hv. reflexivity.
Qed.

Lemma ranged_set_then_get :
  (forall v, minimum r <= v <= maximum r -> conv v = v) ->
  set_then_get_exact get set (minimum r) (maximum r).
Proof.
  intros Hconv c v Hc Hv. subst set. simpl.
  rewrite Hconv, clip_inside by exact Hv. apply ranged_get_stored; assumption.
Qed.

Lemma ranged_setter_clamps (arg : Z -> Prop) :
  (forall v, arg v -> conv v = v) ->
  setter_clamps set f (minimum r) (maximum r) arg.
Proof.
  intros Hconv c v Hc Hv. subst set. simpl.
  rewrite Hconv by exact Hv. rewrite <- clip_min_max by exact Hr.
  split; [reflexivity|].
  apply Hload_store; [exact Hc|]. apply Hty_range, clip_bounds, Hr.
Qed.

Lemma ranged_below_minimum :
  conv (minimum r - 1) < minimum r ->
  below_minimum_reads get set (minimum r) (minimum r).
Proof.
  intros Hconv c Hc. cbv zeta. unfold set.
  assert (Hclip : clip r (conv (minimum r - 1)) = minimum r).
  { unfold clip. destruct (Z.ltb_spec (conv (minimum r - 1)) (minimum r)); lia. }
  rewrite Hclip.
  rewrite ranged_get_stored by (auto; lia).
  rewrite ranged_get_stored by (auto; lia). auto.
Qed.
End ranged_field.

(** The four contracts for an [int32_t] member at word [off]. *)
Lemma int32_field_contracts (r : range_t) (off : nat) (reset : Z)
    (post conv : Z -> Z) (arg : Z -> Prop) :
  (off < regfile_size)%nat ->
  minimum r <= maximum r -> in_i32 (minimum r) -> in_i32 (maximum r) ->
  in_i32 reset -> post reset = reset ->
  (forall v, minimum r <= v <= maximum r -> post v = v) ->
  (forall v, minimum r <= v <= maximum r -> conv v = v) ->
  (forall v, arg v -> conv v = v) ->
  conv (minimum r - 1) < minimum r ->
  let get := fun c =>
    let c := reset_if_outside r (int32_at off) reset c in
    (post (load (int32_at off) c), c) in
  let set := fun v c => store (int32_at off) (clip r (conv v)) c in
  getter_resets_if_outside get (int32_at off) (minimum r) (maximum r) reset
  /\ set_then_get_exact get set (minimum r) (maximum r)
  /\ setter_clamps set (int32_at off) (minimum r) (maximum r) arg
  /\ below_minimum_reads get set (minimum r) (minimum r).
Proof.
  intros Hoff Hr Hlo Hhi Hreset Hpr Hpost Hconv Harg Hbelow get set.
  assert (Hls : forall c v, wf_ram c -> in_i32 v ->
            load (int32_at off) (store (int32_at off) v c) = v).
  { intros c v Hc Hv. apply load_store_int32; assumption. }
  assert (Hty : forall v, minimum r <= v <= maximum r -> in_i32 v).
  { unfold in_i32 in *. intros v Hv. lia. }
  split; [|split; [|split]].
  - exact (ranged_getter r (int32_at off) reset post in_i32 Hls Hreset Hpr Hpost).
  - exact (ranged_set_then_get r (int32_at off) reset post conv in_i32
             Hls Hty Hpost Hconv).
  - exact (ranged_setter_clamps r (int32_at off) conv in_i32 Hr Hls Hty arg Harg).
  - exact (ranged_below_minimum r (int32_at off) reset post conv in_i32
             Hr Hls Hty Hpost Hbelow).
Qed.

Lemma i32_id (v : Z) : in_i32 v -> i32 v = v.
Proof.
  unfold in_i32, i32. intros Hv.
  change (2 ^ 32) with 4294967296 in *. change (2 ^ 31) with 2147483648 in *.
  Z.div_mod_to_equations. lia.
Qed.

(** ** The ranged members, one by one *)

Section fields.
Variable E : externals.
Hypothesis HE : wf_externals E = true.

Lemma member_fits (k : nat) :
  (k < 18)%nat ->
  (k + Calibration_words E + serial_format_words E < regfile_size)%nat.
Proof. destruct (wf_externals_spec E HE) as (Hfit & _). lia. Qed.

Lemma correction_ppb_contracts :
  getter_resets_if_outside correction_ppb data.correction_ppb (-99000) 99000 0
  /\ set_then_get_exact correction_ppb (fun v c => fst (set_correction_ppb v c))
       (-99000) 99000
  /\ setter_clamps (fun v c => fst (set_correction_ppb v c)) data.correction_ppb
       (-99000) 99000 (fun _ => True)
  /\ below_minimum_reads correction_ppb (fun v c => fst (set_correction_ppb v c))
       (-99000) (-99000).
Proof.
  refine (int32_field_contracts ppb_range 2 ppb_reset_value
            (fun x => x) (fun x => x) (fun _ => True) _ _ _ _ _ _ _ _ _ _);
    try side_i32.
  unfold regfile_size. lia.
Qed.

Lemma tone_mix_contracts :
  getter_resets_if_outside (tone_mix E) (data.tone_mix E) 10 99 20
  /\ set_then_get_exact (tone_mix E) (set_tone_mix E) 10 99
  /\ setter_clamps (set_tone_mix E) (data.tone_mix E) 10 99 (fun _ => True)
  /\ below_minimum_reads (tone_mix E) (set_tone_mix E) 10 10.
Proof.
  refine (int32_field_contracts tone_mix_range _ tone_mix_reset_value
            (fun x => x) (fun x => x) (fun _ => True) _ _ _ _ _ _ _ _ _ _);
    try side_i32.
  apply (member_fits 16). lia.
Qed.

Lemma afsk_mark_freq_contracts :
  getter_resets_if_outside (afsk_mark_freq E) (data.afsk_mark_freq E) 1 4000 1200
  /\ set_then_get_exact (afsk_mark_freq E) (set_afsk_mark E) 1 4000
  /\ setter_clamps (set_afsk_mark E) (data.afsk_mark_freq E) 1 4000 (fun _ => True)
  /\ below_minimum_reads (afsk_mark_freq E) (set_afsk_mark E) 1 1.
Proof.
  refine (int32_field_contracts afsk_freq_range _ afsk_mark_reset_value
            (fun x => x) (fun x => x) (fun _ => True) _ _ _ _ _ _ _ _ _ _);
    try side_i32.
  apply (member_fits 6). lia.
Qed.

Lemma afsk_space_freq_contracts :
  getter_resets_if_outside (afsk_space_freq E) (data.afsk_space_freq E) 1 4000 2200
  /\ set_then_get_exact (afsk_space_freq E) (set_afsk_space E) 1 4000
  /\ setter_clamps (set_afsk_space E) (data.afsk_space_freq E) 1 4000 (fun _ => True)
  /\ below_minimum_reads (afsk_space_freq E) (set_afsk_space E) 1 1.
Proof.
  refine (int32_field_contracts afsk_freq_range _ afsk_space_reset_value
            (fun x => x) (fun x => x) (fun _ => True) _ _ _ _ _ _ _ _ _ _);
    try side_i32.
  apply (member_fits 7). lia.
Qed.

Lemma modem_baudrate_contracts :
  getter_resets_if_outside (modem_baudrate E) (data.modem_baudrate E) 50 9600 1200
  /\ set_then_get_exact (modem_baudrate E) (set_modem_baudrate E) 50 9600
  /\ setter_clamps (set_modem_baudrate E) (data.modem_baudrate E) 50 9600
       (fun _ => True)
  /\ below_minimum_reads (modem_baudrate E) (set_modem_baudrate E) 50 50.
Proof.
  refine (int32_field_contracts modem_baudrate_range _ modem_baudrate_reset_value
            (fun x => x) (fun x => x) (fun _ => True) _ _ _ _ _ _ _ _ _ _);
    try side_i32.
  apply (member_fits 8). lia.
Qed.

(** [set_modem_repeat] takes a [uint32_t]: the clamp is the one of its
    argument as long as this is a value of the member's type [int32_t]. *)
Lemma modem_repeat_contracts :
  getter_resets_if_outside (modem_repeat E) (data.modem_repeat E) 1 99 5
  /\ set_then_get_exact (modem_repeat E) (set_modem_repeat E) 1 99
  /\ setter_clamps (set_modem_repeat E) (data.modem_repeat E) 1 99
       (fun v => 0 <= v <= 2147483647)
  /\ below_minimum_reads (modem_repeat E) (set_modem_repeat E) 1 1.
Proof.
  refine (int32_field_contracts modem_repeat_range _ modem_repeat_reset_value
            u8 i32 (fun v => 0 <= v <= 2147483647) _ _ _ _ _ _ _ _ _ _).
  - apply (member_fits 9). lia.
  - closed_arith.
  - closed_arith.
  - closed_arith.
  - closed_arith.
  - reflexivity.
  - simpl. intros v Hv. apply u8_small. lia.
  - simpl. intros v Hv. apply i32_id. unfold in_i32. simpl. lia.
  - intros v Hv. apply i32_id. unfold in_i32. simpl. lia.
  - reflexivity.
Qed.

Lemma tuned_frequency_contracts :
  let lo := minimum (tuning_range E) in
  let hi := maximum (tuning_range E) in
  getter_resets_if_outside (tuned_frequency E) data.tuned_frequency lo hi 100000000
  /\ set_then_get_exact (tuned_frequency E) (set_tuned_frequency E) lo hi
  /\ setter_clamps (set_tuned_frequency E) data.tuned_frequency lo hi (fun _ => True)
  /\ below_minimum_reads (tuned_frequency E) (set_tuned_frequency E) lo lo.
Proof.
  destruct (wf_externals_spec E HE) as (_ & _ & _ & Hlo & Hr & Hhi).
  assert (Hls : forall c v, wf_ram c -> in_i64 v ->
            load data.tuned_frequency (store data.tuned_frequency v c) = v).
  { intros c v Hc Hv. apply load_store_int64; [unfold regfile_size; lia|auto..]. }
  assert (Hty : forall v,
            minimum (tuning_range E) <= v <= maximum (tuning_range E) -> in_i64 v).
  { unfold in_i64 in *. intros v Hv. lia. }
  assert (Hreset : in_i64 tuned_frequency_reset_value).
  { unfold in_i64. vm_compute. intuition congruence. }
  intros lo hi. split; [|split; [|split]].
  - exact (ranged_getter (tuning_range E) data.tuned_frequency
             tuned_frequency_reset_value (fun x => x) in_i64 Hls Hreset eq_refl
             (fun v _ => eq_refl)).
  - exact (ranged_set_then_get (tuning_range E) data.tuned_frequency
             tuned_frequency_reset_value (fun x => x) (fun x => x) in_i64
             Hls Hty (fun v _ => eq_refl) (fun v _ => eq_refl)).
  - exact (ranged_setter_clamps (tuning_range E) data.tuned_frequency
             (fun x => x) in_i64 Hr Hls Hty (fun _ => True) (fun v _ => eq_refl)).
  - refine (ranged_below_minimum (tuning_range E) data.tuned_frequency
              tuned_frequency_reset_value (fun x => x) (fun x => x) in_i64
              Hr Hls Hty (fun v _ => eq_refl) _).
    lia.
Qed.
End fields.

(** ** The CLKOUT frequency *)

Section clkout.
Variable E : externals.
Hypothesis HE : wf_externals E = true.

Lemma clkout_freq_unfold (c : backup_ram_t) :
  clkout_freq E c =
  let freq := load (clkout_field E) c in
  if outside clkout_freq_range freq
  then (clkout_freq_reset_value, store (clkout_field E) clkout_freq_reset_value c)
  else (freq, c).
Proof. reflexivity. Qed.

Lemma set_clkout_freq_unfold (freq : Z) (c : backup_ram_t) :
  set_clkout_freq E freq c = store (clkout_field E) (clip clkout_freq_range freq) c.
Proof. reflexivity. Qed.

Lemma clkout_load_store (y : Z) (c : backup_ram_t) :
  wf_ram c -> 0 <= y < 2 ^ 16 ->
  load (clkout_field E) (store (clkout_field E) y c) = y.
Proof.
  intros Hc Hy. unfold clkout_field at 1 2. cbn [load store].
  unfold data.ui_config at 1 2.
  rewrite load_store_uint32; [|apply (member_fits E HE 13); lia|exact Hc].
  apply clkout_read_write. exact Hy.
Qed.

Lemma clkout_get_stored (y : Z) (c : backup_ram_t) :
  wf_ram c -> 10 <= y <= 60000 ->
  clkout_freq E (store (clkout_field E) y c) = (y, store (clkout_field E) y c).
Proof.
  intros Hc Hy. rewrite clkout_freq_unfold. cbv zeta.
  rewrite clkout_load_store by (auto; simpl; lia).
  rewrite outside_false by (simpl; lia). reflexivity.
Qed.

Lemma clkout_freq_contracts :
  getter_resets_if_outside (clkout_freq E) (clkout_field E) 10 60000 10000
  /\ set_then_get_exact (clkout_freq E) (set_clkout_freq E) 10 60000
  /\ setter_clamps (set_clkout_freq E) (clkout_field E) 10 60000 (fun _ => True)
  /\ below_minimum_reads (clkout_freq E) (set_clkout_freq E) 10 10.
Proof.
  split; [|split; [|split]].
  - intros c Hc. rewrite clkout_freq_unfold. cbv zeta. split.
    + intros Hout. rewrite outside_true by exact Hout.
      split; [reflexivity|]. apply clkout_load_store; [exact Hc|simpl; lia].
    + intros Hin. rewrite outside_false by exact Hin. reflexivity.
  - intros c v Hc Hv. rewrite set_clkout_freq_unfold.
    rewrite clip_inside by exact Hv. apply clkout_get_stored; assumption.
  - intros c v Hc _. rewrite set_clkout_freq_unfold.
    assert (Hr : minimum clkout_freq_range <= maximum clkout_freq_range)
      by (simpl; lia).
    assert (Heq : clip clkout_freq_range v = Z.min 60000 (Z.max 10 v))
      by exact (clip_min_max clkout_freq_range v Hr).
    rewrite <- Heq. split; [reflexivity|].
    pose proof (clip_bounds clkout_freq_range v Hr) as Hb. simpl in Hb.
    apply clkout_load_store; [exact Hc|simpl; lia].
  - intros c Hc. cbv zeta. rewrite set_clkout_freq_unfold.
    change (clip clkout_freq_range (10 - 1)) with 10.
    rewrite !clkout_get_stored by (auto; lia). auto.
Qed.

End clkout.

Lemma wf_sample_cache : wf_ram sample_cache.
Proof. reflexivity. Qed.

(** ** Frame of a write to ui_config *)

Section ui_config_frame.
Variable E : externals.
Hypothesis HE : wf_externals E = true.

Lemma ui_config_store_frame (lo hi x : Z) (c : backup_ram_t) :
  wf_ram c ->
  (forall j, 0 <= j < 32 -> j < lo \/ hi < j ->
     Z.testbit x j = Z.testbit (load (data.ui_config E) c) j) ->
  changes_only_ui_bits E lo hi c (store (data.ui_config E) x c).
Proof.
  intros Hc Hbits. unfold changes_only_ui_bits. split; [|split; [|split]].
  - simpl. apply length_insert.
  - reflexivity.
  - intros i Hi. simpl. apply list_lookup_insert_ne. congruence.
  - intros j Hj Hout. unfold data.ui_config at 1 2.
    rewrite load_store_uint32; [|apply (member_fits E HE 13); lia|exact Hc].
    rewrite u32_testbit by exact Hj. apply Hbits; assumption.
Qed.

(** The write every single-flag setter performs, for bit [k]. *)
Lemma flag_store_frame (k : Z) (v : bool) (c : backup_ram_t) :
  0 <= k < 32 -> wf_ram c ->
  changes_only_ui_bits E k k c
    (store (data.ui_config E)
       (Z.lor (Z.land (load (data.ui_config E) c) (Z.lnot (Z.shiftl 1 k)))
              (Z.shiftl (Z.b2z v) k)) c).
Proof.
  intros Hk Hc. apply ui_config_store_frame; [exact Hc|].
  intros j Hj Hout. rewrite flag_write_testbit by lia.
  destruct (Z.eqb_spec j k); [lia|reflexivity].
Qed.

Lemma backlight_store_frame (i : Z) (c : backup_ram_t) :
  wf_ram c -> changes_only_ui_bits E 0 2 c (set_config_backlight_timer E i c).
Proof.
  intros Hc. apply ui_config_store_frame; [exact Hc|].
  intros j Hj Hout. rewrite backlight_write_testbit by lia.
  destruct (Z.ltb_spec j 3); [lia|reflexivity].
Qed.

Lemma clkout_store_frame (freq : Z) (c : backup_ram_t) :
  wf_ram c -> changes_only_ui_bits E 4 19 c (set_clkout_freq E freq c).
Proof.
  intros Hc. apply ui_config_store_frame; [exact Hc|].
  intros j Hj Hout.
  assert (Hr : minimum clkout_freq_range <= maximum clkout_freq_range)
    by (simpl; lia).
  pose proof (clip_bounds clkout_freq_range freq Hr) as Hb. simpl in Hb.
  rewrite clkout_write_testbit by (simpl; lia).
  destruct (Z.leb_spec 4 j); destruct (Z.ltb_spec j 20); simpl;
    first [lia | reflexivity].
Qed.

(** A flag reads back as it was written. *)
Lemma flag_store_read (k : Z) (v : bool) (c : backup_ram_t) :
  0 <= k < 32 -> wf_ram c ->
  test_ui_config E k
    (store (data.ui_config E)
       (Z.lor (Z.land (load (data.ui_config E) c) (Z.lnot (Z.shiftl 1 k)))
              (Z.shiftl (Z.b2z v) k)) c) = v.
Proof.
  intros Hk Hc. unfold test_ui_config. unfold data.ui_config at 1 2.
  rewrite load_store_uint32; [|apply (member_fits E HE 13); lia|exact Hc].
  set (x := Z.lor _ _).
  assert (Hbit : Z.testbit (u32 x) k = v).
  { rewrite u32_testbit by exact Hk. subst x.
    rewrite flag_write_testbit by lia. rewrite Z.eqb_refl. reflexivity. }
  assert (Hland : Z.land (u32 x) (Z.shiftl 1 k) = Z.shiftl (Z.b2z v) k).
  { apply Z.bits_inj'. intros j Hj. rewrite Z.land_spec.
    change 1 with (Z.b2z true) at 1.
    rewrite !testbit_b2z_shiftl by lia. simpl.
    destruct (Z.eqb_spec j k) as [->|Hne].
    - rewrite Hbit. rewrite !andb_true_r. reflexivity.
    - rewrite !andb_false_r. reflexivity. }
  rewrite Hland. rewrite Z.shiftl_mul_pow2 by lia.
  destruct v; simpl Z.b2z.
  - destruct (Z.eqb_spec (1 * 2 ^ k) 0) as [H0|H0]; [|reflexivity].
    pose proof (Z.pow_pos_nonneg 2 k). lia.
  - reflexivity.
Qed.
End ui_config_frame.

(** ** Touch calibration *)

Lemma take_drop_inserts (off : nat) (v rf : list Z) :
  (off + length v <= length rf)%nat ->
  take (length v) (drop off (list_inserts off v rf)) = v.
Proof.
  intros Hlen. apply list_eq. intros i.
  destruct (decide (i < length v)%nat) as [Hi|Hi].
  - rewrite lookup_take_lt by exact Hi. rewrite lookup_drop.
    rewrite list_lookup_inserts by lia. f_equal. lia.
  - rewrite lookup_take_ge by lia. symmetry. apply lookup_ge_None_2. lia.
Qed.

Section calibration.
Variable E : externals.
Hypothesis HE : wf_externals E = true.

Lemma wf_set_touch_calibration (v : list Z) (c : backup_ram_t) :
  wf_ram c -> wf_ram (set_touch_calibration E v c).
Proof.
  unfold wf_ram, set_touch_calibration. intros Hc. simpl.
  rewrite length_insert, length_inserts. exact Hc.
Qed.

Lemma touch_calibration_set_read (v : list Z) (c : backup_ram_t) :
  wf_ram c -> length v = Calibration_words E ->
  load_blob (data.touch_calibration E) (set_touch_calibration E v c) = v
  /\ load data.touch_calibration_magic (set_touch_calibration E v c)
     = TOUCH_CALIBRATION_MAGIC.
Proof.
  unfold wf_ram. intros Hc Hv.
  destruct (wf_externals_spec E HE) as (Hfit & _). split.
  - unfold set_touch_calibration. simpl.
    rewrite drop_insert_lt by lia. rewrite <- Hv.
    apply take_drop_inserts. unfold regfile_size in *. lia.
  - unfold set_touch_calibration. simpl.
    rewrite list_lookup_total_insert_eq; [reflexivity|].
    rewrite length_inserts. unfold regfile_size in *. lia.
Qed.
End calibration.

(** ** The check value *)

Lemma foldl_pointwise {A B} (f g : A -> B -> A) (a : A) (l : list B) :
  (forall a x, f a x = g a x) -> foldl f a l = foldl g a l.
Proof.
  intros Hfg. revert a. induction l as [|x l IH]; intros a; simpl.
  - reflexivity.
  - rewrite Hfg. apply IH.
Qed.

Lemma foldl_invariant {A B} (P : A -> Prop) (f : A -> B -> A) (a : A) (l : list B) :
  (forall a x, P a -> P (f a x)) -> P a -> P (foldl f a l).
Proof.
  intros Hstep. revert a. induction l as [|x l IH]; intros a Ha; simpl.
  - exact Ha.
  - apply IH, Hstep, Ha.
Qed.

Lemma foldl_seq_lookup {A} (g : Z -> A -> A) (a : A) (l : list Z) :
  foldl (fun a i => g (l !!! i) a) a (seq 0 (length l))
  = foldl (fun a w => g w a) a l.
Proof.
  transitivity
    (foldl (fun a w => g w a) a (map (fun i => l !!! i) (seq 0 (length l)))).
  - symmetry. apply (foldl_fmap (fun a w => g w a)).
  - rewrite map_lookup_total_seq. reflexivity.
Qed.

Lemma foldl_payload_bytes (crc : CRC.t) (words : list Z) :
  foldl (fun crc byte => CRC.process_byte byte crc) crc (payload_bytes words)
  = foldl (fun crc word => process_word word crc) crc words.
Proof.
  revert crc. induction words as [|w words IH]; intros crc.
  - reflexivity.
  - unfold payload_bytes. cbn [flat_map]. rewrite foldl_app.
    fold (payload_bytes words). rewrite IH. reflexivity.
Qed.

Lemma compute_check_value_bytes (r : backup_ram_t) :
  wf_ram r ->
  compute_check_value r
  = crc32_of_bytes 0x04C11DB7 0xFFFFFFFF 0xFFFFFFFF (payload_bytes (regfile r)).
Proof.
  unfold wf_ram. intros Hr. unfold compute_check_value, crc32_of_bytes.
  cbv zeta. f_equal. rewrite <- Hr.
  rewrite (foldl_seq_lookup process_word). symmetry. apply foldl_payload_bytes.
Qed.

Lemma lxor_u32 (x y : Z) : in_u32 x -> in_u32 y -> in_u32 (Z.lxor x y).
Proof.
  unfold in_u32. intros Hx Hy.
  assert (Hmod : Z.lxor x y mod 2 ^ 32 = Z.lxor x y).
  { apply Z.bits_inj'. intros j Hj.
    destruct (Z.lt_ge_cases j 32) as [Hlt|Hge].
    - apply Z.mod_pow2_bits_low. lia.
    - rewrite Z.mod_pow2_bits_high by lia. rewrite Z.lxor_spec.
      rewrite (testbit_small x 32 j), (testbit_small y 32 j) by lia.
      reflexivity. }
  rewrite <- Hmod. apply Z.mod_pos_bound. reflexivity.
Qed.

Lemma u32_range (x : Z) : in_u32 (u32 x).
Proof. unfold in_u32, u32. apply Z.mod_pos_bound. reflexivity. Qed.

Lemma process_bit_ok (bit : bool) (crc : CRC.t) :
  crc_state_ok crc -> crc_state_ok (CRC.process_bit bit crc).
Proof.
  unfold crc_state_ok. intros (Hrem & Hpoly & Hxor).
  unfold CRC.process_bit. cbn [CRC.remainder CRC.truncated_polynomial
    CRC.final_xor_value]. split; [|tauto].
  destruct (Z.testbit _ 31).
  - apply lxor_u32; [apply u32_range|]. rewrite Hpoly. unfold in_u32.
    vm_compute. intuition congruence.
  - apply u32_range.
Qed.

Lemma process_byte_ok (byte : Z) (crc : CRC.t) :
  crc_state_ok crc -> crc_state_ok (CRC.process_byte byte crc).
Proof.
  intros Hcrc. unfold CRC.process_byte.
  apply foldl_invariant; [|exact Hcrc]. intros a i. apply process_bit_ok.
Qed.

Lemma process_word_ok (word : Z) (crc : CRC.t) :
  crc_state_ok crc -> crc_state_ok (process_word word crc).
Proof.
  intros Hcrc. unfold process_word. cbv zeta.
  repeat apply process_byte_ok. exact Hcrc.
Qed.

Lemma compute_check_value_range (r : backup_ram_t) :
  in_u32 (compute_check_value r).
Proof.
  unfold compute_check_value. cbv zeta.
  assert (Hok : crc_state_ok
            (foldl (fun crc i => process_word (regfile r !!! i) crc)
                   (CRC.make 0x04c11db7 0xffffffff 0xffffffff)
                   (seq 0 regfile_size))).
  { apply foldl_invariant.
    - intros a i. apply process_word_ok.
    - unfold crc_state_ok, in_u32. vm_compute. intuition congruence. }
  destruct Hok as (Hrem & _ & Hxor). unfold CRC.checksum. rewrite Hxor.
  apply lxor_u32; [exact Hrem|]. unfold in_u32. vm_compute. intuition congruence.
Qed.

(** The parameters of [compute_check_value] are those of CRC-32/BZIP2,
    whose check value over the ASCII digits 1 to 9 is 0xFC891918. *)
Example crc32_of_bytes_check :
  crc32_of_bytes 0x04C11DB7 0xFFFFFFFF 0xFFFFFFFF
    [49; 50; 51; 52; 53; 54; 55; 56; 57] = 0xFC891918.
Proof. vm_compute. reflexivity. Qed.

Lemma is_valid_iff (r : backup_ram_t) :
  is_valid r = true <-> compute_check_value r = check_value r.
Proof. unfold is_valid. apply Z.eqb_eq. Qed.

Lemma compute_check_value_regfile (r r' : backup_ram_t) :
  regfile r = regfile r' -> compute_check_value r = compute_check_value r'.
Proof. unfold compute_check_value. intros ->. reflexivity. Qed.

(** ** The default image *)

Section default_image.
Variable E : externals.

Lemma backup_ram_t_default_eq :
  backup_ram_t_default E =
  {| regfile :=
       map (fun i => if (i <? data_t.word_count E)%nat
                     then data_t.words E (data_t.make E) !!! i else 0)
           (seq 0 regfile_size);
     check_value := 0 |}.
Proof.
  unfold backup_ram_t_default, copy_from_data_t. cbv zeta.
  rewrite (foldl_pointwise _
    (fun dst i => with_regfile
       (fun rf => <[i := if (i <? data_t.word_count E)%nat
                         then data_t.words E (data_t.make E) !!! i else 0]> rf)
       dst)).
  - rewrite (foldl_with_regfile
      (fun i => if (i <? data_t.word_count E)%nat
                then data_t.words E (data_t.make E) !!! i else 0)).
    unfold with_regfile. cbn [regfile check_value].
    rewrite fill_all by apply length_replicate. reflexivity.
  - intros a i. destruct (i <? data_t.word_count E)%nat; reflexivity.
Qed.

Lemma wf_backup_ram_t_default : wf_ram (backup_ram_t_default E).
Proof.
  rewrite backup_ram_t_default_eq. unfold wf_ram. cbn [regfile].
  rewrite length_map, length_seq. reflexivity.
Qed.

Lemma check_value_default : check_value (backup_ram_t_default E) = 0.
Proof. rewrite backup_ram_t_default_eq. reflexivity. Qed.

Hypothesis HE : wf_externals E = true.

Lemma default_modem_baudrate :
  load (data.modem_baudrate E) (backup_ram_t_default E) = 1200.
Proof.
  destruct (wf_externals_spec E HE) as (Hfit & Hcal & Hsf & _).
  rewrite backup_ram_t_default_eq. unfold data.modem_baudrate.
  cbn [load int32_at regfile].
  set (k := (8 + Calibration_words E + serial_format_words E)%nat).
  assert (Hk : (k < regfile_size)%nat) by (subst k; lia).
  rewrite (list_lookup_total_correct _ k
             (if (k <? data_t.word_count E)%nat
              then data_t.words E (data_t.make E) !!! k else 0)).
  2:{ rewrite list_lookup_fmap, lookup_seq_lt by exact Hk. reflexivity. }
  assert (Hwc : (k <? data_t.word_count E)%nat = true).
  { apply Nat.ltb_lt. unfold data_t.word_count, data_t.member_words. lia. }
  rewrite Hwc. unfold data_t.words. cbn [data_t.tuned_frequency
    data_t.correction_ppb data_t.touch_calibration_magic data_t.touch_calibration
    data_t.modem_def_index data_t.serial_format data_t.modem_bw
    data_t.afsk_mark_freq data_t.afsk_space_freq data_t.modem_baudrate
    data_t.modem_repeat data_t.playdead_magic data_t.playing_dead
    data_t.playdead_sequence data_t.ui_config data_t.pocsag_last_address
    data_t.pocsag_ignore_address data_t.tone_mix data_t.hardware_config
    data_t.make].
  rewrite lookup_total_app_r by (simpl; lia).
  rewrite lookup_total_app_r by (simpl; lia).
  rewrite lookup_total_app_r by (simpl; lia).
  rewrite lookup_total_app_r by (simpl; lia).
  rewrite lookup_total_app_l by (simpl; lia).
  replace (k - _ - _ - _ - _)%nat with 3%nat by (simpl; lia).
  reflexivity.
Qed.

Lemma default_modem_baudrate_read :
  modem_baudrate E (backup_ram_t_default E) = (1200, backup_ram_t_default E).
Proof.
  destruct (modem_baudrate_contracts E HE) as (Hget & _).
  destruct (Hget _ wf_backup_ram_t_default) as (_ & Hin).
  rewrite Hin; rewrite default_modem_baudrate; [reflexivity|lia].
Qed.
End default_image.

(** ** The words of the default image *)

Section default_words.
Variable E : externals.
Hypothesis HE : wf_externals E = true.

Lemma data_t_words_make :
  data_t.words E (data_t.make E)
  = default_words E ++ replicate (data_t.padding_words E) 0.
Proof.
  unfold data_t.words, default_words. cbn [data_t.tuned_frequency
    data_t.correction_ppb data_t.touch_calibration_magic data_t.touch_calibration
    data_t.modem_def_index data_t.serial_format data_t.modem_bw
    data_t.afsk_mark_freq data_t.afsk_space_freq data_t.modem_baudrate
    data_t.modem_repeat data_t.playdead_magic data_t.playing_dead
    data_t.playdead_sequence data_t.ui_config data_t.pocsag_last_address
    data_t.pocsag_ignore_address data_t.tone_mix data_t.hardware_config
    data_t.make].
  rewrite <- !app_assoc. reflexivity.
Qed.

Lemma length_default_words : length (default_words E) = data_t.member_words E.
Proof.
  destruct (wf_externals_spec E HE) as (_ & Hcal & Hsf & _).
  unfold default_words, data_t.member_words. rewrite !length_app.
  cbn [length]. lia.
Qed.

Lemma member_words_fit : (data_t.member_words E <= regfile_size)%nat.
Proof.
  destruct (wf_externals_spec E HE) as (Hfit & _).
  unfold data_t.member_words. exact Hfit.
Qed.

Lemma word_count_fit : (data_t.word_count E <= regfile_size)%nat.
Proof.
  pose proof HE as H. unfold wf_externals in H. rewrite !andb_true_iff in H.
  apply Nat.leb_le. tauto.
Qed.

Lemma default_regfile :
  regfile (backup_ram_t_default E)
  = default_words E ++ replicate (regfile_size - data_t.member_words E) 0.
Proof.
  pose proof length_default_words as Hlen.
  pose proof member_words_fit as Hfit.
  pose proof word_count_fit as Hwc.
  rewrite backup_ram_t_default_eq. cbn [regfile].
  apply list_eq_same_length with regfile_size.
  - rewrite length_app, length_replicate. lia.
  - rewrite length_map, length_seq. reflexivity.
  - intros i x y Hi Hx Hy.
    rewrite list_lookup_fmap, lookup_seq_lt in Hx by exact Hi.
    cbn [fmap option_fmap option_map Nat.add] in Hx. injection Hx as <-.
    destruct (decide (i < data_t.member_words E)%nat) as [Hlt|Hge].
    + assert (Hi' : (i <? data_t.word_count E)%nat = true).
      { apply Nat.ltb_lt. unfold data_t.word_count. lia. }
      rewrite Hi', data_t_words_make.
      rewrite lookup_total_app_l by lia.
      rewrite lookup_app_l in Hy by lia.
      apply list_lookup_total_correct. exact Hy.
    + rewrite lookup_app_r in Hy by lia.
      apply lookup_replicate in Hy. destruct Hy as (-> & _).
      destruct (Nat.ltb_spec i (data_t.word_count E)) as [Hin|Hout];
        [|reflexivity].
      rewrite data_t_words_make, lookup_total_app_r by lia.
      apply lookup_total_replicate_2. unfold data_t.word_count in Hin. lia.
Qed.

(** The first four words. *)
Lemma default_word_head (j : nat) :
  (j < 4)%nat ->
  regfile (backup_ram_t_default E) !!! j = [100000000; 0; 0; 0x074af82f] !!! j.
Proof.
  intros Hj. rewrite default_regfile. unfold default_words.
  rewrite <- !app_assoc. apply lookup_total_app_l. cbn [length]. lia.
Qed.

(** The thirteen words after the serial format. *)
Lemma default_word_tail (j : nat) :
  (j < 13)%nat ->
  regfile (backup_ram_t_default E)
    !!! (5 + Calibration_words E + serial_format_words E + j)%nat
  = [15000; 1200; 2200; 1200; 5; 0; 0; 0; 0x90027107; 0; 0; 20; 0] !!! j.
Proof.
  destruct (wf_externals_spec E HE) as (_ & Hcal & Hsf & _).
  intros Hj. rewrite default_regfile. unfold default_words.
  rewrite <- !app_assoc.
  rewrite lookup_total_app_r by (cbn [length]; lia).
  rewrite lookup_total_app_r by (cbn [length]; lia).
  rewrite lookup_total_app_r by (cbn [length]; lia).
  rewrite lookup_total_app_r by (cbn [length]; lia).
  rewrite lookup_total_app_l by (cbn [length]; lia).
  f_equal. cbn [length]. lia.
Qed.

Lemma default_calibration_words :
  take (Calibration_words E) (drop 4 (regfile (backup_ram_t_default E)))
  = Calibration_default E.
Proof.
  destruct (wf_externals_spec E HE) as (_ & Hcal & _).
  rewrite default_regfile. unfold default_words. rewrite <- !app_assoc.
  rewrite drop_app_length' by reflexivity.
  apply take_app_length'. symmetry. exact Hcal.
Qed.

Lemma default_serial_format_words :
  take (serial_format_words E)
       (drop (5 + Calibration_words E) (regfile (backup_ram_t_default E)))
  = serial_format_default E.
Proof.
  destruct (wf_externals_spec E HE) as (_ & Hcal & Hsf & _).
  rewrite default_regfile. unfold default_words.
  replace ([100000000; 0; 0; 122353711] ++ Calibration_default E ++ [0]
           ++ serial_format_default E
           ++ [15000; 1200; 2200; 1200; 5; 0; 0; 0; 2416079111; 0; 0; 20; 0])
    with (([100000000; 0; 0; 122353711] ++ Calibration_default E ++ [0])
          ++ serial_format_default E
          ++ [15000; 1200; 2200; 1200; 5; 0; 0; 0; 2416079111; 0; 0; 20; 0])
    by (rewrite <- !app_assoc; reflexivity).
  rewrite <- !app_assoc.
  rewrite (app_assoc [100000000; 0; 0; 122353711]).
  rewrite (app_assoc ([100000000; 0; 0; 122353711] ++ Calibration_default E)).
  rewrite drop_app_length' by (rewrite !length_app; cbn [length]; lia).
  apply take_app_length'. symmetry. exact Hsf.
Qed.
End default_words.

Section default_members.
Variable E : externals.
Hypothesis HE : wf_externals E = true.

Let d := backup_ram_t_default E.
Let cal := Calibration_words E.
Let sf := serial_format_words E.

Lemma default_load_int32 (k j : nat) :
  (j < 13)%nat -> k = (5 + cal + sf + j)%nat ->
  load (int32_at k) d
  = i32 ([15000; 1200; 2200; 1200; 5; 0; 0; 0; 0x90027107; 0; 0; 20; 0] !!! j).
Proof.
  intros Hj ->. cbn [load int32_at]. subst d cal sf.
  rewrite default_word_tail by assumption. reflexivity.
Qed.

Lemma default_load_uint32 (k j : nat) :
  (j < 13)%nat -> k = (5 + cal + sf + j)%nat ->
  load (uint32_at k) d
  = [15000; 1200; 2200; 1200; 5; 0; 0; 0; 0x90027107; 0; 0; 20; 0] !!! j.
Proof.
  intros Hj ->. cbn [load uint32_at]. subst d cal sf.
  rewrite default_word_tail by assumption. reflexivity.
Qed.

Lemma default_ui_config : load (data.ui_config E) d = 0x90027107.
Proof.
  unfold data.ui_config, data.ui_config_word.
  rewrite (default_load_uint32 _ 8); [reflexivity|lia|subst cal sf; lia].
Qed.

Lemma default_tuned_frequency_words :
  regfile d !! 0%nat = Some 100000000 /\ regfile d !! 1%nat = Some 0.
Proof.
  pose proof (wf_backup_ram_t_default E) as Hwf. unfold wf_ram in Hwf.
  subst d. split.
  - rewrite list_lookup_lookup_total_lt by (rewrite Hwf; unfold regfile_size; lia).
    rewrite default_word_head by (assumption || lia). reflexivity.
  - rewrite list_lookup_lookup_total_lt by (rewrite Hwf; unfold regfile_size; lia).
    rewrite default_word_head by (assumption || lia). reflexivity.
Qed.

Lemma default_tuned_frequency_read :
  tuned_frequency E d = (100000000, d).
Proof.
  destruct default_tuned_frequency_words as (H0 & H1).
  assert (Hload : load data.tuned_frequency d = 100000000).
  { cbn [load data.tuned_frequency int64_at].
    rewrite (list_lookup_total_correct _ _ _ H0).
    rewrite (list_lookup_total_correct _ _ _ H1). reflexivity. }
  assert (Hstore : store data.tuned_frequency tuned_frequency_reset_value d = d).
  { cbn [store data.tuned_frequency int64_at]. unfold with_regfile.
    change (u32 tuned_frequency_reset_value) with 100000000.
    change (u32 (Z.shiftr tuned_frequency_reset_value 32)) with 0.
    rewrite (list_insert_id _ 0%nat) by exact H0.
    rewrite (list_insert_id _ 1%nat) by exact H1.
    destruct d; reflexivity. }
  unfold tuned_frequency, reset_if_outside.
  destruct (outside _ _).
  - rewrite Hstore, Hload. reflexivity.
  - rewrite Hload. reflexivity.
Qed.

Lemma default_correction_ppb_read : correction_ppb d = (0, d).
Proof.
  destruct correction_ppb_contracts as (Hget & _).
  destruct (Hget d (wf_backup_ram_t_default E)) as (_ & Hin).
  assert (Hload : load data.correction_ppb d = 0).
  { cbn [load data.correction_ppb int32_at]. subst d.
    rewrite default_word_head by (assumption || lia). reflexivity. }
  rewrite Hin; rewrite Hload; [reflexivity|lia].
Qed.

Lemma default_tone_mix_read : tone_mix E d = (20, d).
Proof.
  destruct (tone_mix_contracts E HE) as (Hget & _).
  destruct (Hget d (wf_backup_ram_t_default E)) as (_ & Hin).
  assert (Hload : load (data.tone_mix E) d = 20).
  { unfold data.tone_mix.
    rewrite (default_load_int32 _ 11); [reflexivity|lia|subst cal sf; lia]. }
  rewrite Hin; rewrite Hload; [reflexivity|lia].
Qed.

Lemma default_afsk_mark_freq_read : afsk_mark_freq E d = (1200, d).
Proof.
  destruct (afsk_mark_freq_contracts E HE) as (Hget & _).
  destruct (Hget d (wf_backup_ram_t_default E)) as (_ & Hin).
  assert (Hload : load (data.afsk_mark_freq E) d = 1200).
  { unfold data.afsk_mark_freq.
    rewrite (default_load_int32 _ 1); [reflexivity|lia|subst cal sf; lia]. }
  rewrite Hin; rewrite Hload; [reflexivity|lia].
Qed.

Lemma default_afsk_space_freq_read : afsk_space_freq E d = (2200, d).
Proof.
  destruct (afsk_space_freq_contracts E HE) as (Hget & _).
  destruct (Hget d (wf_backup_ram_t_default E)) as (_ & Hin).
  assert (Hload : load (data.afsk_space_freq E) d = 2200).
  { unfold data.afsk_space_freq.
    rewrite (default_load_int32 _ 2); [reflexivity|lia|subst cal sf; lia]. }
  rewrite Hin; rewrite Hload; [reflexivity|lia].
Qed.

Lemma default_modem_repeat_read : modem_repeat E d = (5, d).
Proof.
  destruct (modem_repeat_contracts E HE) as (Hget & _).
  destruct (Hget d (wf_backup_ram_t_default E)) as (_ & Hin).
  assert (Hload : load (data.modem_repeat E) d = 5).
  { unfold data.modem_repeat.
    rewrite (default_load_int32 _ 4); [reflexivity|lia|subst cal sf; lia]. }
  rewrite Hin; rewrite Hload; [reflexivity|lia].
Qed.

Lemma default_clkout_freq_read : clkout_freq E d = (10000, d).
Proof.
  rewrite clkout_freq_unfold. cbv zeta.
  assert (Hload : load (clkout_field E) d = 10000).
  { cbn [load clkout_field]. rewrite default_ui_config. reflexivity. }
  rewrite Hload. reflexivity.
Qed.

Lemma default_flag (k : Z) :
  test_ui_config E k d = negb (Z.land 0x90027107 (Z.shiftl 1 k) =? 0).
Proof. unfold test_ui_config. rewrite default_ui_config. reflexivity. Qed.

Lemma default_touch_calibration_read :
  touch_calibration E d = (Calibration_default E, d).
Proof.
  unfold touch_calibration.
  assert (Hmagic : load data.touch_calibration_magic d = TOUCH_CALIBRATION_MAGIC).
  { cbn [load data.touch_calibration_magic uint32_at]. subst d.
    rewrite default_word_head by (assumption || lia). reflexivity. }
  rewrite Hmagic, Z.eqb_refl. cbn [negb].
  cbn [load_blob data.touch_calibration words_at]. subst d.
  rewrite default_calibration_words by assumption. reflexivity.
Qed.
Lemma default_flags_read :
  Forall (fun '(k, get, _) => get d = (k =? 28) || (k =? 31)) (flag_accessors E).
Proof.
  unfold flag_accessors.
  repeat (apply Forall_cons; split; [exact (default_flag _)|]).
  apply Forall_nil. exact I.
Qed.

Lemma default_backlight_timer_read : config_backlight_timer E d = Some 600.
Proof. unfold config_backlight_timer. rewrite default_ui_config. reflexivity. Qed.

Lemma default_plain_members_read :
  pocsag_last_address E d = 0 /\ pocsag_ignore_address E d = 0
  /\ config_cpld E d = 0.
Proof.
  split; [|split].
  - unfold pocsag_last_address, data.pocsag_last_address.
    rewrite (default_load_uint32 _ 9); [reflexivity|lia|subst cal sf; lia].
  - unfold pocsag_ignore_address, data.pocsag_ignore_address.
    rewrite (default_load_uint32 _ 10); [reflexivity|lia|subst cal sf; lia].
  - unfold config_cpld, data.hardware_config.
    rewrite (default_load_uint32 _ 12); [reflexivity|lia|subst cal sf; lia].
Qed.

Lemma default_serial_format_read : serial_format E d = serial_format_default E.
Proof.
  unfold serial_format. cbn [load_blob data.serial_format words_at]. subst d.
  apply default_serial_format_words, HE.
Qed.

Lemma default_image_words :
  regfile d
  = default_words E ++ replicate (regfile_size - length (default_words E)) 0.
Proof. subst d. rewrite (length_default_words E HE). apply default_regfile, HE. Qed.
End default_members.

(** ** The cache operations *)

Lemma wf_with_check_value (v : Z) (c : backup_ram_t) :
  wf_ram c -> wf_ram (with_check_value v c).
Proof. unfold wf_ram. simpl. tauto. Qed.

Lemma persist_eq (m : machine) :
  wf_machine m ->
  cache.persist m =
  {| backup_ram :=
       with_check_value (compute_check_value (cached_backup_ram m))
                        (cached_backup_ram m);
     cached_backup_ram :=
       with_check_value (compute_check_value (cached_backup_ram m))
                        (cached_backup_ram m) |}.
Proof.
  intros (Hb & Hc). unfold cache.persist, persist_to.
  rewrite copy_eq; [reflexivity| |exact Hb].
  apply wf_with_check_value, Hc.
Qed.

Lemma is_valid_after_persist (c : backup_ram_t) :
  is_valid (with_check_value (compute_check_value c) c) = true.
Proof.
  apply is_valid_iff. cbn [check_value with_check_value].
  apply compute_check_value_regfile. reflexivity.
Qed.

Lemma defaults_eq (E : externals) (m : machine) :
  wf_machine m ->
  cache.defaults E m =
  {| backup_ram := backup_ram m; cached_backup_ram := backup_ram_t_default E |}.
Proof.
  intros (Hb & Hc). unfold cache.defaults.
  rewrite copy_eq; [reflexivity|apply wf_backup_ram_t_default|exact Hc].
Qed.

Lemma init_valid (E : externals) (m : machine) :
  wf_machine m -> is_valid (backup_ram m) = true ->
  cache.init E m =
  {| backup_ram := backup_ram m; cached_backup_ram := backup_ram m |}.
Proof.
  intros (Hb & Hc) Hv. unfold cache.init. rewrite Hv.
  rewrite copy_eq by assumption. reflexivity.
Qed.

Lemma init_invalid (E : externals) (m : machine) :
  wf_machine m -> is_valid (backup_ram m) = false ->
  cache.init E m =
  {| backup_ram := backup_ram m; cached_backup_ram := backup_ram_t_default E |}.
Proof.
  intros Hm Hv. unfold cache.init. rewrite Hv. apply defaults_eq, Hm.
Qed.

Lemma wf_cold_machine : wf_machine cold_machine.
Proof. split; reflexivity. Qed.

(** * Properties of the store *)

(** C1, as the code has it: [defaults()] leaves in the cache the
    default-constructed record, whose check value is the constant 0 of the
    constructor and not a checksum, so [is_valid()] holds on it exactly when
    the CRC of the default payload happens to be 0.  The checksum of the
    default payload is computed by [persist()]: after [defaults()] and
    [persist()] the cache holds that checksum and both the cache and the
    persisted record pass [is_valid()]. *)
Theorem C1_defaults_valid_after_persist (E : externals) (m : machine) :
  wf_machine m ->
  cached_backup_ram (cache.defaults E m) = backup_ram_t_default E
  /\ check_value (backup_ram_t_default E) = 0
  /\ (is_valid (backup_ram_t_default E) = true
      <-> compute_check_value (backup_ram_t_default E) = 0)
  /\ check_value (cached_backup_ram (cache.persist (cache.defaults E m)))
     = compute_check_value (backup_ram_t_default E)
  /\ is_valid (cached_backup_ram (cache.persist (cache.defaults E m))) = true
  /\ is_valid (backup_ram (cache.persist (cache.defaults E m))) = true.
Proof.
  intros Hm. rewrite defaults_eq by exact Hm.
  rewrite persist_eq by (split; [apply Hm|apply wf_backup_ram_t_default]).
  cbn [cached_backup_ram backup_ram].
  split; [reflexivity|]. split; [apply check_value_default|].
  split; [rewrite is_valid_iff, check_value_default; reflexivity|].
  split; [reflexivity|]. split; apply is_valid_after_persist.
Qed.

Lemma C1_defaults_valid_after_persist_witness :
  wf_machine cold_machine
  /\ is_valid (backup_ram
       (cache.persist (cache.defaults sample_externals cold_machine))) = true.
Proof.
  split; [exact wf_cold_machine|].
  apply (C1_defaults_valid_after_persist sample_externals cold_machine).
  exact wf_cold_machine.
Defined.

(** C1 as stated fails: on the sample platform the record that [defaults()]
    leaves in the cache has check value 0 while the CRC of its payload is
    958865712, and [is_valid()] on it is false. *)
Lemma C1_default_record_not_valid :
  check_value (cached_backup_ram (cache.defaults sample_externals cold_machine)) = 0
  /\ compute_check_value
       (cached_backup_ram (cache.defaults sample_externals cold_machine))
     = 958865712
  /\ is_valid (cached_backup_ram (cache.defaults sample_externals cold_machine))
     = false.
Proof. vm_compute. auto. Qed.

(** C3: [init()] copies the physical record into the cache verbatim when its
    stored check value equals the CRC recomputed over its payload, and
    otherwise overwrites the cache wholesale with the default record: the
    members of [data_t()] word for word, zeros after them, check value 0.
    So a valid record whose check value alone is changed (payload untouched)
    is discarded and every field reads its default afterwards: the modem
    baud rate word is 1200 and [modem_baudrate()] returns 1200 without
    repairing anything, the other ranged getters return their reset values
    likewise, the splash and speaker flags are set and the ten other flags
    clear, the backlight timer is 600 seconds, both POCSAG addresses and the
    CPLD configuration are 0, the serial format and the touch calibration
    are the default ones. *)
Theorem C3_init_adopts_or_defaults (E : externals) (m : machine) :
  wf_externals E = true -> wf_machine m ->
  (check_value (backup_ram m) = compute_check_value (backup_ram m) ->
     cached_backup_ram (cache.init E m) = backup_ram m)
  /\ (check_value (backup_ram m) <> compute_check_value (backup_ram m) ->
        cached_backup_ram (cache.init E m) = backup_ram_t_default E
        /\ regfile (cached_backup_ram (cache.init E m))
           = default_words E
             ++ replicate (regfile_size - length (default_words E)) 0
        /\ check_value (cached_backup_ram (cache.init E m)) = 0)
  /\ (forall cv : Z,
        check_value (backup_ram m) = compute_check_value (backup_ram m) ->
        cv <> check_value (backup_ram m) ->
        let corrupted :=
          {| backup_ram := with_check_value cv (backup_ram m);
             cached_backup_ram := cached_backup_ram m |} in
        let c := cached_backup_ram (cache.init E corrupted) in
        regfile (backup_ram corrupted) = regfile (backup_ram m)
        /\ c = backup_ram_t_default E
        /\ c = cached_backup_ram (cache.defaults E corrupted)
        /\ regfile c
           = default_words E
             ++ replicate (regfile_size - length (default_words E)) 0
        /\ check_value c = 0
        /\ load (data.modem_baudrate E) c = 1200
        /\ modem_baudrate E c = (1200, c)
        /\ tuned_frequency E c = (100000000, c)
        /\ correction_ppb c = (0, c)
        /\ tone_mix E c = (20, c)
        /\ afsk_mark_freq E c = (1200, c)
        /\ afsk_space_freq E c = (2200, c)
        /\ modem_repeat E c = (5, c)
        /\ clkout_freq E c = (10000, c)
        /\ Forall (fun '(k, get, _) => get c = (k =? 28) || (k =? 31))
             (flag_accessors E)
        /\ config_backlight_timer E c = Some 600
        /\ pocsag_last_address E c = 0
        /\ pocsag_ignore_address E c = 0
        /\ config_cpld E c = 0
        /\ serial_format E c = serial_format_default E
        /\ touch_calibration E c = (Calibration_default E, c)).
Proof.
  intros HE Hm. split; [|split].
  - intros Hv. rewrite init_valid; [reflexivity|exact Hm|].
    apply is_valid_iff. congruence.
  - intros Hv. rewrite init_invalid; [|exact Hm|].
    + cbn [cached_backup_ram]. split; [reflexivity|].
      split; [apply default_image_words, HE|apply check_value_default].
    + destruct (is_valid (backup_ram m)) eqn:Hval; [|reflexivity].
      apply is_valid_iff in Hval. congruence.
  - intros cv Hv Hcv corrupted c.
    assert (Hwf : wf_machine corrupted).
    { destruct Hm as (Hb & Hc). split; [apply wf_with_check_value, Hb|exact Hc]. }
    assert (Hbad : is_valid (backup_ram corrupted) = false).
    { destruct (is_valid (backup_ram corrupted)) eqn:Hval; [|reflexivity].
      apply is_valid_iff in Hval. subst corrupted.
      cbn [backup_ram check_value with_check_value] in Hval.
      rewrite (compute_check_value_regfile _ (backup_ram m)) in Hval
        by reflexivity.
      congruence. }
    assert (Hc : c = backup_ram_t_default E).
    { subst c. rewrite init_invalid by assumption. cbn [cached_backup_ram].
      reflexivity. }
    assert (Hd : c = cached_backup_ram (cache.defaults E corrupted)).
    { rewrite Hc, defaults_eq by assumption. cbn [cached_backup_ram].
      reflexivity. }
    clearbody c. subst c.
    split; [reflexivity|]. split; [reflexivity|]. split; [exact Hd|].
    split; [apply default_image_words, HE|].
    split; [apply check_value_default|].
    split; [apply default_modem_baudrate, HE|].
    split; [apply default_modem_baudrate_read, HE|].
    split; [apply default_tuned_frequency_read, HE|].
    split; [apply default_correction_ppb_read, HE|].
    split; [apply default_tone_mix_read, HE|].
    split; [apply default_afsk_mark_freq_read, HE|].
    split; [apply default_afsk_space_freq_read, HE|].
    split; [apply default_modem_repeat_read, HE|].
    split; [apply default_clkout_freq_read, HE|].
    split; [apply default_flags_read, HE|].
    split; [apply default_backlight_timer_read, HE|].
    destruct (default_plain_members_read E HE) as (Hl & Hi & Hp).
    split; [exact Hl|]. split; [exact Hi|]. split; [exact Hp|].
    split; [apply default_serial_format_read, HE|].
    apply default_touch_calibration_read, HE.
Qed.

Lemma C3_init_adopts_or_defaults_witness :
  wf_externals sample_externals = true
  /\ wf_machine persisted_9600
  /\ check_value (backup_ram persisted_9600)
     = compute_check_value (backup_ram persisted_9600)
  /\ 0 <> check_value (backup_ram persisted_9600)
  /\ load (data.modem_baudrate sample_externals) (backup_ram persisted_9600)
     = 9600
  /\ cached_backup_ram (cache.init sample_externals persisted_9600)
     = backup_ram persisted_9600
  /\ load (data.modem_baudrate sample_externals)
       (cached_backup_ram
          (cache.init sample_externals
             {| backup_ram := with_check_value 0 (backup_ram persisted_9600);
                cached_backup_ram := cached_backup_ram persisted_9600 |}))
     = 1200.
Proof.
  assert (Hwf : wf_machine persisted_9600) by (split; reflexivity).
  assert (Hv : check_value (backup_ram persisted_9600)
               = compute_check_value (backup_ram persisted_9600))
    by (vm_compute; reflexivity).
  assert (Hcv : 0 <> check_value (backup_ram persisted_9600))
    by (vm_compute; discriminate).
  split; [reflexivity|]. split; [exact Hwf|]. split; [exact Hv|].
  split; [exact Hcv|]. split; [vm_compute; reflexivity|].
  destruct (C3_init_adopts_or_defaults sample_externals persisted_9600
              eq_refl Hwf) as (Hvalid & _ & Hcorrupt).
  split; [exact (Hvalid Hv)|].
  destruct (Hcorrupt 0 Hv Hcv) as (_ & _ & _ & _ & _ & Hbaud & _).
  exact Hbaud.
Defined.

(** C4: [persist()] followed by a fresh [init()] (whatever the cache holds
    when [init()] starts) rebuilds a cache equal, word for word and check
    value included, to the record that was persisted; its 63 payload words
    are those of the cache before [persist()].  No range condition on the
    fields is needed. *)
Theorem C4_persist_init_roundtrip (E : externals) (m : machine)
    (fresh : backup_ram_t) :
  wf_machine m -> wf_ram fresh ->
  let persisted := cache.persist m in
  let rebooted :=
    cache.init E {| backup_ram := backup_ram persisted;
                    cached_backup_ram := fresh |} in
  cached_backup_ram rebooted = cached_backup_ram persisted
  /\ cached_backup_ram rebooted = backup_ram persisted
  /\ regfile (cached_backup_ram rebooted) = regfile (cached_backup_ram m).
Proof.
  intros Hm Hfresh persisted rebooted. subst rebooted persisted.
  rewrite persist_eq by exact Hm. cbn [backup_ram cached_backup_ram].
  rewrite init_valid.
  - cbn [cached_backup_ram]. repeat split.
  - split; [|exact Hfresh]. cbn [backup_ram].
    apply wf_with_check_value, Hm.
  - apply is_valid_after_persist.
Qed.

Lemma C4_persist_init_roundtrip_witness :
  wf_machine (cache.defaults sample_externals cold_machine)
  /\ wf_ram (cached_backup_ram cold_machine)
  /\ cached_backup_ram
       (cache.init sample_externals
          {| backup_ram := backup_ram persisted_defaults;
             cached_backup_ram := cached_backup_ram cold_machine |})
     = cached_backup_ram persisted_defaults.
Proof.
  assert (Hwf : wf_machine (cache.defaults sample_externals cold_machine))
    by (split; reflexivity).
  assert (Hfresh : wf_ram (cached_backup_ram cold_machine)) by reflexivity.
  split; [exact Hwf|]. split; [exact Hfresh|].
  exact (proj1 (C4_persist_init_roundtrip sample_externals
                  (cache.defaults sample_externals cold_machine)
                  (cached_backup_ram cold_machine) Hwf Hfresh)).
Defined.

(** C8: [compute_check_value] depends on the 63 register words only; it is
    the CRC with polynomial 0x04C11DB7, initial register 0xFFFFFFFF and final
    XOR 0xFFFFFFFF of the payload bytes, each word giving its four bytes from
    the low one to the high one; its result is a 32-bit value; and
    [is_valid()] is true exactly when it equals the stored check value. *)
Theorem C8_check_value_is_crc32 (r : backup_ram_t) :
  wf_ram r ->
  compute_check_value r
  = crc32_of_bytes 0x04C11DB7 0xFFFFFFFF 0xFFFFFFFF (payload_bytes (regfile r))
  /\ in_u32 (compute_check_value r)
  /\ (forall r' : backup_ram_t,
        regfile r' = regfile r -> compute_check_value r' = compute_check_value r)
  /\ (is_valid r = true <-> compute_check_value r = check_value r).
Proof.
  intros Hr. split; [apply compute_check_value_bytes, Hr|].
  split; [apply compute_check_value_range|].
  split; [intros r'; apply compute_check_value_regfile|apply is_valid_iff].
Qed.

Lemma C8_check_value_is_crc32_witness :
  wf_ram sample_cache
  /\ compute_check_value sample_cache
     = crc32_of_bytes 0x04C11DB7 0xFFFFFFFF 0xFFFFFFFF
         (payload_bytes (regfile sample_cache)).
Proof.
  split; [exact wf_sample_cache|].
  exact (proj1 (C8_check_value_is_crc32 sample_cache wf_sample_cache)).
Defined.






(** C5: each ranged getter ([correction_ppb], [tone_mix], [afsk_mark_freq],
    [afsk_space_freq], [modem_baudrate], [modem_repeat], [tuned_frequency],
    [clkout_freq]) overwrites a stored value outside [lo, hi] with the reset
    value and returns it, and returns a stored value inside [lo, hi] as it
    is, leaving the cache unmodified; and a value of [lo, hi] written by the
    setter is returned by the getter right after. *)
Theorem C5_getters_reset_if_outside (E : externals) :
  wf_externals E = true ->
  (getter_resets_if_outside correction_ppb data.correction_ppb (-99000) 99000 0
   /\ set_then_get_exact correction_ppb (fun v c => fst (set_correction_ppb v c))
        (-99000) 99000)
  /\ (getter_resets_if_outside (tone_mix E) (data.tone_mix E) 10 99 20
      /\ set_then_get_exact (tone_mix E) (set_tone_mix E) 10 99)
  /\ (getter_resets_if_outside (afsk_mark_freq E) (data.afsk_mark_freq E)
        1 4000 1200
      /\ set_then_get_exact (afsk_mark_freq E) (set_afsk_mark E) 1 4000)
  /\ (getter_resets_if_outside (afsk_space_freq E) (data.afsk_space_freq E)
        1 4000 2200
      /\ set_then_get_exact (afsk_space_freq E) (set_afsk_space E) 1 4000)
  /\ (getter_resets_if_outside (modem_baudrate E) (data.modem_baudrate E)
        50 9600 1200
      /\ set_then_get_exact (modem_baudrate E) (set_modem_baudrate E) 50 9600)
  /\ (getter_resets_if_outside (modem_repeat E) (data.modem_repeat E) 1 99 5
      /\ set_then_get_exact (modem_repeat E) (set_modem_repeat E) 1 99)
  /\ (getter_resets_if_outside (tuned_frequency E) data.tuned_frequency
        (minimum (tuning_range E)) (maximum (tuning_range E)) 100000000
      /\ set_then_get_exact (tuned_frequency E) (set_tuned_frequency E)
           (minimum (tuning_range E)) (maximum (tuning_range E)))
  /\ (getter_resets_if_outside (clkout_freq E) (clkout_field E) 10 60000 10000
      /\ set_then_get_exact (clkout_freq E) (set_clkout_freq E) 10 60000).
Proof.
  intros HE.
  split; [split; apply correction_ppb_contracts|].
  split; [split; apply (tone_mix_contracts E HE)|].
  split; [split; apply (afsk_mark_freq_contracts E HE)|].
  split; [split; apply (afsk_space_freq_contracts E HE)|].
  split; [split; apply (modem_baudrate_contracts E HE)|].
  split; [split; apply (modem_repeat_contracts E HE)|].
  split; [split; apply (tuned_frequency_contracts E HE)|].
  split; apply (clkout_freq_contracts E HE).
Qed.

Lemma C5_getters_reset_if_outside_witness :
  wf_externals sample_externals = true
  /\ wf_ram sample_cache_bad_baudrate
  /\ load (data.modem_baudrate sample_externals) sample_cache_bad_baudrate = 20000
  /\ modem_baudrate sample_externals sample_cache_bad_baudrate
     = (1200, store (data.modem_baudrate sample_externals) 1200
                sample_cache_bad_baudrate).
Proof.
  assert (Hwf : wf_ram sample_cache_bad_baudrate) by reflexivity.
  split; [reflexivity|]. split; [exact Hwf|]. split; [reflexivity|].
  destruct (C5_getters_reset_if_outside sample_externals eq_refl)
    as (_ & _ & _ & _ & (Hget & _) & _).
  apply (Hget sample_cache_bad_baudrate Hwf).
  right. vm_compute. reflexivity.
Defined.

(** C6, where the code departs from it: [set_modem_repeat] takes a
    [uint32_t] and hands it to the [clip] of a [range_t<int32_t>], so an
    argument from 2147483648 to 4294967295 enters the range as a negative
    number and the minimum 1 is stored, where the saturating clamp
    min(99, max(1, v)) of the argument is 99.  [set_modem_repeat(4294967295)]
    stores 1, and [modem_repeat()] then returns 1 and leaves the cache as it
    is. *)
Theorem C6_set_modem_repeat_large_argument (E : externals) (c : backup_ram_t) :
  wf_externals E = true -> wf_ram c ->
  (forall v : Z, 2147483648 <= v <= 4294967295 ->
     Z.min 99 (Z.max 1 v) = 99
     /\ set_modem_repeat E v c = store (data.modem_repeat E) 1 c
     /\ load (data.modem_repeat E) (set_modem_repeat E v c) = 1)
  /\ set_modem_repeat E 4294967295 c = store (data.modem_repeat E) 1 c
  /\ load (data.modem_repeat E) (set_modem_repeat E 4294967295 c) = 1
  /\ load (data.modem_repeat E) (set_modem_repeat E 4294967295 c)
     <> Z.min 99 (Z.max 1 4294967295)
  /\ modem_repeat E (set_modem_repeat E 4294967295 c)
     = (1, set_modem_repeat E 4294967295 c).
Proof.
  intros HE Hc.
  assert (Hset : forall v : Z, 2147483648 <= v <= 4294967295 ->
            set_modem_repeat E v c = store (data.modem_repeat E) 1 c).
  { intros v Hv. unfold set_modem_repeat.
    rewrite (clip_min_max modem_repeat_range) by (simpl; lia).
    assert (Hi : i32 v = v - 4294967296).
    { unfold i32. change (2 ^ 31) with 2147483648.
      change (2 ^ 32) with 4294967296.
      assert (Hmod : (v + 2147483648) mod 4294967296 = v - 2147483648)
        by (symmetry; apply (Z.mod_unique _ _ 1); lia).
      rewrite Hmod. lia. }
    rewrite Hi. cbn [minimum maximum modem_repeat_range].
    replace (Z.min 99 (Z.max 1 (v - 4294967296))) with 1 by lia.
    reflexivity. }
  assert (Hload : load (data.modem_repeat E) (store (data.modem_repeat E) 1 c)
                  = 1).
  { unfold data.modem_repeat. apply load_store_int32;
      [apply (member_fits E HE 9); lia|exact Hc|unfold in_i32; simpl; lia]. }
  split.
  { intros v Hv. split; [lia|]. split; [apply Hset, Hv|].
    rewrite (Hset v Hv). exact Hload. }
  rewrite (Hset 4294967295) by lia.
  split; [reflexivity|]. split; [exact Hload|].
  split; [rewrite Hload; discriminate|].
  destruct (modem_repeat_contracts E HE) as (Hget & _).
  assert (Hwf : wf_ram (store (data.modem_repeat E) 1 c))
    by (unfold data.modem_repeat; apply wf_store_int32, Hc).
  destruct (Hget _ Hwf) as (_ & Hin).
  rewrite Hin; rewrite Hload; [reflexivity|lia].
Qed.

Lemma C6_set_modem_repeat_large_argument_witness :
  wf_externals sample_externals = true
  /\ wf_ram sample_cache
  /\ load (data.modem_repeat sample_externals)
       (set_modem_repeat sample_externals 4294967295 sample_cache) = 1
  /\ modem_repeat sample_externals
       (set_modem_repeat sample_externals 4294967295 sample_cache)
     = (1, set_modem_repeat sample_externals 4294967295 sample_cache).
Proof.
  split; [reflexivity|]. split; [exact wf_sample_cache|].
  destruct (C6_set_modem_repeat_large_argument sample_externals sample_cache
              eq_refl wf_sample_cache) as (_ & _ & Hload & _ & Hget).
  split; [exact Hload|exact Hget].
Defined.

(** C7: each single-flag setter on [ui_config] (bits 20 to 31), the
    backlight-timer write (bits 0 to 2) and the CLKOUT frequency write (bits
    4 to 19) change at most their own bits of [ui_config]: every other bit
    of [ui_config], every other register word of the cache and the check
    value are as before. *)
Theorem C7_ui_config_writes_frame (E : externals) (c : backup_ram_t)
    (v : bool) (i freq : Z) :
  wf_externals E = true -> wf_ram c ->
  changes_only_ui_bits E 20 20 c (set_gui_return_icon E v c)
  /\ changes_only_ui_bits E 21 21 c (set_load_app_settings E v c)
  /\ changes_only_ui_bits E 22 22 c (set_save_app_settings E v c)
  /\ changes_only_ui_bits E 23 23 c (set_show_bigger_qr_code E v c)
  /\ changes_only_ui_bits E 24 24 c (set_disable_touchscreen E v c)
  /\ changes_only_ui_bits E 25 25 c (set_clock_hidden E v c)
  /\ changes_only_ui_bits E 26 26 c (set_clock_with_date E v c)
  /\ changes_only_ui_bits E 27 27 c (set_clkout_enabled E v c)
  /\ changes_only_ui_bits E 28 28 c (set_config_speaker E v c)
  /\ changes_only_ui_bits E 29 29 c (set_stealth_mode E v c)
  /\ changes_only_ui_bits E 30 30 c (set_config_login E v c)
  /\ changes_only_ui_bits E 31 31 c (set_config_splash E v c)
  /\ changes_only_ui_bits E 0 2 c (set_config_backlight_timer E i c)
  /\ changes_only_ui_bits E 4 19 c (set_clkout_freq E freq c).
Proof.
  intros HE Hc.
  split; [exact (flag_store_frame E HE 20 v c ltac:(lia) Hc)|].
  split; [exact (flag_store_frame E HE 21 v c ltac:(lia) Hc)|].
  split; [exact (flag_store_frame E HE 22 v c ltac:(lia) Hc)|].
  split; [exact (flag_store_frame E HE 23 v c ltac:(lia) Hc)|].
  split; [exact (flag_store_frame E HE 24 v c ltac:(lia) Hc)|].
  split; [exact (flag_store_frame E HE 25 v c ltac:(lia) Hc)|].
  split; [exact (flag_store_frame E HE 26 v c ltac:(lia) Hc)|].
  split; [exact (flag_store_frame E HE 27 v c ltac:(lia) Hc)|].
  split; [exact (flag_store_frame E HE 28 v c ltac:(lia) Hc)|].
  split; [exact (flag_store_frame E HE 29 v c ltac:(lia) Hc)|].
  split; [exact (flag_store_frame E HE 30 v c ltac:(lia) Hc)|].
  split; [exact (flag_store_frame E HE 31 v c ltac:(lia) Hc)|].
  split; [exact (backlight_store_frame E HE i c Hc)|].
  exact (clkout_store_frame E HE freq c Hc).
Qed.

Lemma C7_ui_config_writes_frame_witness :
  wf_externals sample_externals = true
  /\ wf_ram sample_cache
  /\ changes_only_ui_bits sample_externals 31 31 sample_cache
       (set_config_splash sample_externals false sample_cache).
Proof.
  split; [reflexivity|]. split; [exact wf_sample_cache|].
  destruct (C7_ui_config_writes_frame sample_externals sample_cache false 3 440
              eq_refl wf_sample_cache)
    as (_ & _ & _ & _ & _ & _ & _ & _ & _ & _ & _ & Hsplash & _).
  exact Hsplash.
Defined.

(** C9: [touch_calibration()] compares the stored magic word with
    0x074af82f; when it differs, the default calibration is installed and
    the magic rewritten through [set_touch_calibration], and the default is
    returned; when it matches, the stored calibration is returned and the
    cache is left as it is.  [set_touch_calibration(v)] stores [v] and sets
    the magic word, so the read right after returns [v] and changes
    nothing. *)
Theorem C9_touch_calibration_magic (E : externals) (c : backup_ram_t) :
  wf_externals E = true -> wf_ram c ->
  TOUCH_CALIBRATION_MAGIC = 0x074af82f
  /\ (load data.touch_calibration_magic c <> TOUCH_CALIBRATION_MAGIC ->
        touch_calibration E c
        = (Calibration_default E,
           set_touch_calibration E (Calibration_default E) c)
        /\ load data.touch_calibration_magic
             (set_touch_calibration E (Calibration_default E) c)
           = TOUCH_CALIBRATION_MAGIC)
  /\ (load data.touch_calibration_magic c = TOUCH_CALIBRATION_MAGIC ->
        touch_calibration E c = (load_blob (data.touch_calibration E) c, c))
  /\ (forall v : list Z, length v = Calibration_words E ->
        let c1 := set_touch_calibration E v c in
        load_blob (data.touch_calibration E) c1 = v
        /\ load data.touch_calibration_magic c1 = TOUCH_CALIBRATION_MAGIC
        /\ touch_calibration E c1 = (v, c1)).
Proof.
  intros HE Hc. destruct (wf_externals_spec E HE) as (_ & Hcal & _).
  split; [reflexivity|]. split; [|split].
  - intros Hmagic.
    destruct (touch_calibration_set_read E HE (Calibration_default E) c Hc Hcal)
      as (Hblob & Hmg).
    split; [|exact Hmg]. unfold touch_calibration.
    destruct (Z.eqb_spec (load data.touch_calibration_magic c)
                TOUCH_CALIBRATION_MAGIC) as [Heq|Hne]; [contradiction|].
    cbn [negb]. rewrite Hblob. reflexivity.
  - intros Hmagic. unfold touch_calibration. rewrite Hmagic, Z.eqb_refl.
    reflexivity.
  - intros v Hv c1.
    destruct (touch_calibration_set_read E HE v c Hc Hv) as (Hblob & Hmg).
    fold c1 in Hblob, Hmg. split; [exact Hblob|]. split; [exact Hmg|].
    unfold touch_calibration. rewrite Hmg, Z.eqb_refl. cbn [negb].
    rewrite Hblob. reflexivity.
Qed.

Lemma C9_touch_calibration_magic_witness :
  wf_externals sample_externals = true
  /\ wf_ram blank_cache
  /\ load data.touch_calibration_magic blank_cache <> TOUCH_CALIBRATION_MAGIC
  /\ touch_calibration sample_externals blank_cache
     = (Calibration_default sample_externals,
        set_touch_calibration sample_externals
          (Calibration_default sample_externals) blank_cache).
Proof.
  assert (Hwf : wf_ram blank_cache) by reflexivity.
  assert (Hmagic : load data.touch_calibration_magic blank_cache
                   <> TOUCH_CALIBRATION_MAGIC) by (vm_compute; discriminate).
  split; [reflexivity|]. split; [exact Hwf|]. split; [exact Hmagic|].
  destruct (C9_touch_calibration_magic sample_externals blank_cache eq_refl Hwf)
    as (_ & Hrepair & _).
  exact (proj1 (Hrepair Hmagic)).
Defined.

(** * Further properties *)

(** X1: [copy] (and with it the copy-assignment operator) makes the
    destination equal to the source, check value included, whatever the
    destination held before. *)
Theorem X1_copy_overwrites_destination (src dst dst' : backup_ram_t) :
  wf_ram src -> wf_ram dst -> wf_ram dst' ->
  copy src dst = src /\ copy src dst = copy src dst'.
Proof.
  intros Hs Hd Hd'. rewrite !copy_eq by assumption. split; reflexivity.
Qed.

Lemma X1_copy_overwrites_destination_witness :
  wf_ram sample_cache /\ wf_ram blank_cache /\ wf_ram sample_cache_bad_baudrate
  /\ copy sample_cache blank_cache = sample_cache.
Proof.
  assert (H1 : wf_ram sample_cache) by reflexivity.
  assert (H2 : wf_ram blank_cache) by reflexivity.
  assert (H3 : wf_ram sample_cache_bad_baudrate) by reflexivity.
  split; [exact H1|]. split; [exact H2|]. split; [exact H3|].
  exact (proj1 (X1_copy_overwrites_destination sample_cache blank_cache
                  sample_cache_bad_baudrate H1 H2 H3)).
Defined.

(** X2: the default-constructed image holds the members of [data_t()] in
    declaration order starting at word 0, every register word after them is
    zero, it has 63 words and its check value is 0. *)
Theorem X2_default_image_layout (E : externals) :
  wf_externals E = true ->
  regfile (backup_ram_t_default E)
  = default_words E
    ++ replicate (regfile_size - length (default_words E)) 0
  /\ length (default_words E)
     = (18 + Calibration_words E + serial_format_words E)%nat
  /\ length (regfile (backup_ram_t_default E)) = 63%nat
  /\ check_value (backup_ram_t_default E) = 0.
Proof.
  intros HE. rewrite (length_default_words E HE).
  split; [apply default_regfile, HE|]. split; [reflexivity|].
  split; [apply wf_backup_ram_t_default|apply check_value_default].
Qed.

Lemma X2_default_image_layout_witness :
  wf_externals sample_externals = true
  /\ regfile sample_cache
     = default_words sample_externals ++ replicate 37 0.
Proof.
  split; [reflexivity|].
  exact (proj1 (X2_default_image_layout sample_externals eq_refl)).
Defined.

(** X3: on the default-constructed image every ranged getter returns the
    reset value of its member and repairs nothing: the image is left as it
    is (also by [tuned_frequency], whatever the tuning range). *)
Theorem X3_defaults_read_reset_values (E : externals) :
  wf_externals E = true ->
  let d := backup_ram_t_default E in
  tuned_frequency E d = (100000000, d)
  /\ correction_ppb d = (0, d)
  /\ tone_mix E d = (20, d)
  /\ afsk_mark_freq E d = (1200, d)
  /\ afsk_space_freq E d = (2200, d)
  /\ modem_baudrate E d = (1200, d)
  /\ modem_repeat E d = (5, d)
  /\ clkout_freq E d = (10000, d).
Proof.
  intros HE d. subst d.
  split; [apply default_tuned_frequency_read, HE|].
  split; [apply default_correction_ppb_read, HE|].
  split; [apply default_tone_mix_read, HE|].
  split; [apply default_afsk_mark_freq_read, HE|].
  split; [apply default_afsk_space_freq_read, HE|].
  split; [apply default_modem_baudrate_read, HE|].
  split; [apply default_modem_repeat_read, HE|].
  apply default_clkout_freq_read, HE.
Qed.

Lemma X3_defaults_read_reset_values_witness :
  wf_externals sample_externals = true
  /\ tuned_frequency sample_externals sample_cache = (100000000, sample_cache).
Proof.
  split; [reflexivity|].
  exact (proj1 (X3_defaults_read_reset_values sample_externals eq_refl)).
Defined.

(** X4: on the default-constructed image the splash flag (bit 31) and the
    speaker flag (bit 28) are set and the ten other flags are clear, the
    backlight timer is 600 seconds, both POCSAG addresses and the CPLD
    configuration are 0, the serial format is the default one, and the touch
    calibration is the default one with a valid magic: reading it repairs
    nothing. *)
Theorem X4_defaults_flags_and_blobs (E : externals) :
  wf_externals E = true ->
  let d := backup_ram_t_default E in
  Forall (fun '(k, get, _) => get d = (k =? 28) || (k =? 31)) (flag_accessors E)
  /\ config_backlight_timer E d = Some 600
  /\ pocsag_last_address E d = 0
  /\ pocsag_ignore_address E d = 0
  /\ config_cpld E d = 0
  /\ serial_format E d = serial_format_default E
  /\ touch_calibration E d = (Calibration_default E, d).
Proof.
  intros HE d. subst d.
  split.
  { unfold flag_accessors.
    repeat (apply Forall_cons; split;
            [exact (default_flag E HE _)|]).
    apply Forall_nil. exact I. }
  split.
  { unfold config_backlight_timer. rewrite (default_ui_config E HE). reflexivity. }
  split.
  { unfold pocsag_last_address, data.pocsag_last_address.
    rewrite (default_load_uint32 E HE _ 9); [reflexivity|lia|lia]. }
  split.
  { unfold pocsag_ignore_address, data.pocsag_ignore_address.
    rewrite (default_load_uint32 E HE _ 10); [reflexivity|lia|lia]. }
  split.
  { unfold config_cpld, data.hardware_config.
    rewrite (default_load_uint32 E HE _ 12); [reflexivity|lia|lia]. }
  split.
  { unfold serial_format. cbn [load_blob data.serial_format words_at].
    apply default_serial_format_words, HE. }
  apply default_touch_calibration_read, HE.
Qed.

Lemma X4_defaults_flags_and_blobs_witness :
  wf_externals sample_externals = true
  /\ config_backlight_timer sample_externals sample_cache = Some 600.
Proof.
  split; [reflexivity|].
  exact (proj1 (proj2 (X4_defaults_flags_and_blobs sample_externals eq_refl))).
Defined.

(** ** Footprints *)

Lemma agree_outside_refl (off n : nat) (c : backup_ram_t) : agree_outside off n c c.
Proof. unfold agree_outside. auto. Qed.

Lemma agree_outside_trans (off n : nat) (c1 c2 c3 : backup_ram_t) :
  agree_outside off n c1 c2 -> agree_outside off n c2 c3 ->
  agree_outside off n c1 c3.
Proof.
  unfold agree_outside. intros (Hl1 & Hc1 & Hw1) (Hl2 & Hc2 & Hw2).
  split; [congruence|]. split; [congruence|].
  intros i Hi. rewrite Hw2, Hw1 by exact Hi. reflexivity.
Qed.

Lemma agree_outside_weaken (off n off' n' : nat) (c c' : backup_ram_t) :
  (off' <= off)%nat -> (off + n <= off' + n')%nat ->
  agree_outside off n c c' -> agree_outside off' n' c c'.
Proof.
  unfold agree_outside. intros Ho Hn (Hl & Hc & Hw).
  split; [exact Hl|]. split; [exact Hc|]. intros i Hi. apply Hw. lia.
Qed.

Lemma agree_outside_insert (off : nat) (x : Z) (c : backup_ram_t) :
  agree_outside off 1 c (with_regfile (fun rf => <[off := x]> rf) c).
Proof.
  unfold agree_outside, with_regfile. cbn [regfile check_value].
  split; [apply length_insert|]. split; [reflexivity|].
  intros i Hi. apply list_lookup_insert_ne. lia.
Qed.

Lemma writes_only_uint32 (off : nat) (v : Z) :
  writes_only off 1 (store (uint32_at off) v).
Proof. intros c. apply agree_outside_insert. Qed.

Lemma writes_only_int32 (off : nat) (v : Z) :
  writes_only off 1 (store (int32_at off) v).
Proof. intros c. apply agree_outside_insert. Qed.

Lemma writes_only_int64 (off : nat) (v : Z) :
  writes_only off 2 (store (int64_at off) v).
Proof.
  intros c. unfold agree_outside. cbn [store int64_at with_regfile regfile
    check_value].
  split; [rewrite !length_insert; reflexivity|]. split; [reflexivity|].
  intros i Hi. rewrite !list_lookup_insert_ne by lia. reflexivity.
Qed.

Lemma writes_only_words (off n : nat) (v : list Z) :
  writes_only off (length v) (store_blob (words_at off n) v).
Proof.
  intros c. unfold agree_outside. cbn [store_blob words_at with_regfile regfile
    check_value].
  split; [apply length_inserts|]. split; [reflexivity|].
  intros i [Hi|Hi].
  - apply list_lookup_inserts_lt. exact Hi.
  - apply list_lookup_inserts_ge. exact Hi.
Qed.

Lemma writes_only_reset_if_outside (off n : nat) (r : range_t) (f : ref)
    (reset : Z) :
  writes_only off n (store f reset) ->
  writes_only off n (reset_if_outside r f reset).
Proof.
  intros Hw c. unfold reset_if_outside.
  destruct (outside r (load f c)); [apply Hw|apply agree_outside_refl].
Qed.

(** Two images that agree on a word give the same total lookup there. *)
Lemma lookup_total_agree (l l' : list Z) (i : nat) :
  l' !! i = l !! i -> l' !!! i = l !!! i.
Proof. intros H. rewrite !list_lookup_total_alt, H. reflexivity. Qed.

Lemma lookup_insert_agree (l l' : list Z) (i j : nat) (x : Z) :
  length l' = length l -> l' !! j = l !! j ->
  <[i := x]> l' !! j = <[i := x]> l !! j.
Proof.
  intros Hlen Hj. rewrite !list_lookup_insert, Hlen.
  destruct (decide _); [reflexivity|exact Hj].
Qed.

Lemma lookup_total_insert_agree (l l' : list Z) (i j : nat) (x : Z) :
  length l' = length l -> l' !! j = l !! j ->
  <[i := x]> l' !!! j = <[i := x]> l !!! j.
Proof.
  intros Hlen Hj. apply lookup_total_agree, lookup_insert_agree; assumption.
Qed.

Lemma reads_only_load_uint32 (off : nat) : reads_only off 1 (load (uint32_at off)).
Proof.
  intros c c' Hlen Hw. cbn [load uint32_at].
  apply lookup_total_agree, Hw. lia.
Qed.

Lemma reads_only_load_int32 (off : nat) : reads_only off 1 (load (int32_at off)).
Proof.
  intros c c' Hlen Hw. cbn [load int32_at]. f_equal.
  apply lookup_total_agree, Hw. lia.
Qed.

Lemma reads_only_load_int64 (off : nat) : reads_only off 2 (load (int64_at off)).
Proof.
  intros c c' Hlen Hw. cbn [load int64_at].
  rewrite (lookup_total_agree (regfile c) (regfile c') off) by (apply Hw; lia).
  rewrite (lookup_total_agree (regfile c) (regfile c') (S off)) by (apply Hw; lia).
  reflexivity.
Qed.

Lemma reads_only_load_words (off n : nat) :
  reads_only off n (load_blob (words_at off n)).
Proof.
  intros c c' Hlen Hw. cbn [load_blob words_at]. apply list_eq. intros i.
  destruct (decide (i < n)%nat) as [Hi|Hi].
  - rewrite !lookup_take_lt by exact Hi. rewrite !lookup_drop. apply Hw. lia.
  - rewrite !lookup_take_ge by lia. reflexivity.
Qed.

Lemma reads_only_weaken {A : Type} (off n off' n' : nat)
    (obs : backup_ram_t -> A) :
  (off' <= off)%nat -> (off + n <= off' + n')%nat ->
  reads_only off n obs -> reads_only off' n' obs.
Proof.
  intros Ho Hn Hr c c' Hlen Hw. apply Hr; [exact Hlen|].
  intros i Hi. apply Hw. lia.
Qed.

Lemma reads_only_map {A B : Type} (off n : nat) (obs : backup_ram_t -> A)
    (g : A -> B) :
  reads_only off n obs -> reads_only off n (fun c => g (obs c)).
Proof. intros Hr c c' Hlen Hw. f_equal. apply Hr; assumption. Qed.

(** What is read through a reference right after a store through it. *)
Lemma reads_only_load_store_uint32 (off : nat) (v : Z) :
  reads_only off 1 (fun c => load (uint32_at off) (store (uint32_at off) v c)).
Proof.
  intros c c' Hlen Hw. cbn [load store uint32_at with_regfile regfile].
  apply lookup_total_insert_agree; [exact Hlen|apply Hw; lia].
Qed.

Lemma reads_only_load_store_int32 (off : nat) (v : Z) :
  reads_only off 1 (fun c => load (int32_at off) (store (int32_at off) v c)).
Proof.
  intros c c' Hlen Hw. cbn [load store int32_at with_regfile regfile]. f_equal.
  apply lookup_total_insert_agree; [exact Hlen|apply Hw; lia].
Qed.

Lemma reads_only_load_store_int64 (off : nat) (v : Z) :
  reads_only off 2 (fun c => load (int64_at off) (store (int64_at off) v c)).
Proof.
  intros c c' Hlen Hw. cbn [load store int64_at with_regfile regfile].
  assert (H0 : <[S off := u32 (Z.shiftr v 32)]> (<[off := u32 v]> (regfile c'))
               !!! off
               = <[S off := u32 (Z.shiftr v 32)]> (<[off := u32 v]> (regfile c))
               !!! off).
  { apply lookup_total_agree.
    rewrite !(list_lookup_insert_ne _ (S off) off) by lia.
    apply lookup_insert_agree; [exact Hlen|apply Hw; lia]. }
  assert (H1 : <[S off := u32 (Z.shiftr v 32)]> (<[off := u32 v]> (regfile c'))
               !!! S off
               = <[S off := u32 (Z.shiftr v 32)]> (<[off := u32 v]> (regfile c))
               !!! S off).
  { apply lookup_total_insert_agree; [rewrite !length_insert; exact Hlen|].
    rewrite !(list_lookup_insert_ne _ off (S off)) by lia. apply Hw. lia. }
  rewrite H0, H1. reflexivity.
Qed.

(** The result of a getter of the reset-if-outside shape. *)
Lemma reads_only_ranged_getter (off n : nat) (r : range_t) (f : ref)
    (reset : Z) (post : Z -> Z) :
  reads_only off n (load f) ->
  reads_only off n (fun c => load f (store f reset c)) ->
  reads_only off n
    (fun c => fst (let c := reset_if_outside r f reset c in (post (load f c), c))).
Proof.
  intros Hl Hs c c' Hlen Hw. cbn [fst]. unfold reset_if_outside. f_equal.
  rewrite (Hl c c' Hlen Hw).
  destruct (outside r (load f c)).
  - apply (Hs c c' Hlen Hw).
  - apply (Hl c c' Hlen Hw).
Qed.

(** An observation is not changed by a write elsewhere. *)
Lemma observation_unchanged {A : Type} (o1 n1 o2 n2 : nat)
    (f : backup_ram_t -> backup_ram_t) (obs : backup_ram_t -> A)
    (c : backup_ram_t) :
  writes_only o1 n1 f -> reads_only o2 n2 obs ->
  (o1 + n1 <= o2 \/ o2 + n2 <= o1)%nat ->
  obs (f c) = obs c.
Proof.
  intros Hw Hr Hd. destruct (Hw c) as (Hlen & _ & Hsame).
  apply Hr; [exact Hlen|]. intros i Hi. apply Hsame. lia.
Qed.

(** ** Consequences of the getter contract *)

Lemma contract_in_range (get : backup_ram_t -> Z * backup_ram_t) (field : ref)
    (lo hi reset : Z) (c : backup_ram_t) :
  getter_resets_if_outside get field lo hi reset ->
  lo <= reset <= hi -> wf_ram c ->
  lo <= fst (get c) <= hi.
Proof.
  intros Hget Hreset Hc. destruct (Hget c Hc) as (Hout & Hin).
  destruct (Z.lt_ge_cases (load field c) lo) as [Hlo|Hlo].
  - destruct Hout as (-> & _); [lia|]. exact Hreset.
  - destruct (Z.lt_ge_cases hi (load field c)) as [Hhi|Hhi].
    + destruct Hout as (-> & _); [lia|]. exact Hreset.
    + rewrite Hin by lia. cbn [fst]. lia.
Qed.

Lemma contract_idempotent (get : backup_ram_t -> Z * backup_ram_t) (field : ref)
    (lo hi reset : Z) (c : backup_ram_t) :
  getter_resets_if_outside get field lo hi reset ->
  (forall c, wf_ram c -> wf_ram (store field reset c)) ->
  (forall c, store field reset (store field reset c) = store field reset c) ->
  wf_ram c ->
  get (snd (get c)) = get c.
Proof.
  intros Hget Hwf Hidem Hc. destruct (Hget c Hc) as (Hout & Hin).
  assert (Hcases : (load field c < lo \/ hi < load field c)
                   \/ lo <= load field c <= hi) by lia.
  destruct Hcases as [Ho|Hi].
  - destruct (Hout Ho) as (Hg & Hl). rewrite Hg. cbn [snd].
    destruct (Hget _ (Hwf c Hc)) as (Hout1 & Hin1).
    assert (Hcases : (load field (store field reset c) < lo
                      \/ hi < load field (store field reset c))
                     \/ lo <= load field (store field reset c) <= hi) by lia.
    destruct Hcases as [Ho1|Hi1].
    + destruct (Hout1 Ho1) as (Hg1 & _). rewrite Hg1, Hidem. reflexivity.
    + rewrite (Hin1 Hi1), Hl. reflexivity.
  - rewrite (Hin Hi). cbn [snd]. apply Hin, Hi.
Qed.

Lemma store_int32_idem (off : nat) (v : Z) (c : backup_ram_t) :
  store (int32_at off) v (store (int32_at off) v c) = store (int32_at off) v c.
Proof.
  cbn [store int32_at]. unfold with_regfile. cbn [regfile check_value].
  rewrite list_insert_insert_eq. reflexivity.
Qed.

Lemma store_int64_idem (off : nat) (v : Z) (c : backup_ram_t) :
  store (int64_at off) v (store (int64_at off) v c) = store (int64_at off) v c.
Proof.
  cbn [store int64_at]. unfold with_regfile. cbn [regfile check_value].
  rewrite (list_insert_insert_ne _ off (S off)) by lia.
  rewrite !list_insert_insert_eq. reflexivity.
Qed.

(** ** Footprints of the ranged accessors *)

Section ranged_footprints.
Variable E : externals.
Hypothesis HE : wf_externals E = true.

Let cal := Calibration_words E.
Let sf := serial_format_words E.

Lemma footprint_int32 (off : nat) (r : range_t) (reset : Z)
    (post conv : Z -> Z) :
  (forall v, writes_only off 1
     (fun c => store (int32_at off) (clip r (conv v)) c))
  /\ writes_only off 1
       (fun c => snd (let c := reset_if_outside r (int32_at off) reset c in
                      (post (load (int32_at off) c), c)))
  /\ reads_only off 1
       (fun c => fst (let c := reset_if_outside r (int32_at off) reset c in
                      (post (load (int32_at off) c), c))).
Proof.
  split; [intros v; exact (writes_only_int32 off _)|]. split.
  - exact (writes_only_reset_if_outside off 1 r (int32_at off) reset
             (writes_only_int32 off reset)).
  - apply reads_only_ranged_getter.
    + apply reads_only_load_int32.
    + apply reads_only_load_store_int32.
Qed.

Lemma footprint_tuned_frequency :
  (forall v, writes_only 0 2 (set_tuned_frequency E v))
  /\ writes_only 0 2 (fun c => snd (tuned_frequency E c))
  /\ reads_only 0 2 (fun c => fst (tuned_frequency E c)).
Proof.
  split; [intros v; exact (writes_only_int64 0 _)|]. split.
  - exact (writes_only_reset_if_outside 0 2 (tuning_range E) (int64_at 0)
             tuned_frequency_reset_value
             (writes_only_int64 0 tuned_frequency_reset_value)).
  - exact (reads_only_ranged_getter 0 2 (tuning_range E) (int64_at 0)
             tuned_frequency_reset_value (fun x => x)
             (reads_only_load_int64 0)
             (reads_only_load_store_int64 0 tuned_frequency_reset_value)).
Qed.

Lemma reads_only_clkout_field :
  reads_only (13 + cal + sf) 1 (load (clkout_field E)).
Proof.
  intros c c' Hlen Hw. cbn [load clkout_field].
  unfold data.ui_config, data.ui_config_word.
  pose proof (reads_only_load_uint32 (13 + cal + sf) c c' Hlen Hw) as Heq.
  subst cal sf. rewrite Heq. reflexivity.
Qed.

Lemma footprint_clkout_freq :
  (forall v, writes_only (13 + cal + sf) 1 (set_clkout_freq E v))
  /\ writes_only (13 + cal + sf) 1 (fun c => snd (clkout_freq E c))
  /\ reads_only (13 + cal + sf) 1 (fun c => fst (clkout_freq E c)).
Proof.
  split; [|split].
  - intros v c. exact (writes_only_uint32 (13 + cal + sf) _ c).
  - intros c. rewrite clkout_freq_unfold. cbv zeta.
    destruct (outside _ _); cbn [snd].
    + exact (writes_only_uint32 (13 + cal + sf) _ c).
    + apply agree_outside_refl.
  - intros c c' Hlen Hw. rewrite !clkout_freq_unfold. cbv zeta.
    rewrite (reads_only_clkout_field c c' Hlen Hw).
    destruct (outside _ _); reflexivity.
Qed.

Lemma ranged_footprints_hold :
  Forall2 (fun '(get, set) '(off, n) =>
             (forall v : Z, writes_only off n (set v))
             /\ writes_only off n (fun c => snd (get c))
             /\ reads_only off n (fun c => fst (get c)))
          (ranged_accessors E) (ranged_footprints E).
Proof.
  unfold ranged_accessors, ranged_footprints. cbv zeta.
  constructor; [exact footprint_tuned_frequency|].
  constructor;
    [exact (footprint_int32 2 ppb_range ppb_reset_value (fun x => x) (fun x => x))|].
  constructor;
    [exact (footprint_int32 _ tone_mix_range tone_mix_reset_value
              (fun x => x) (fun x => x))|].
  constructor;
    [exact (footprint_int32 _ afsk_freq_range afsk_mark_reset_value
              (fun x => x) (fun x => x))|].
  constructor;
    [exact (footprint_int32 _ afsk_freq_range afsk_space_reset_value
              (fun x => x) (fun x => x))|].
  constructor;
    [exact (footprint_int32 _ modem_baudrate_range modem_baudrate_reset_value
              (fun x => x) (fun x => x))|].
  constructor;
    [exact (footprint_int32 _ modem_repeat_range modem_repeat_reset_value u8 i32)|].
  constructor; [exact footprint_clkout_freq|].
  constructor.
Qed.

(** The windows of two different ranged members do not overlap. *)
Lemma ranged_footprints_disjoint (i j : nat) (o1 n1 o2 n2 : nat) :
  i <> j ->
  ranged_footprints E !! i = Some (o1, n1) ->
  ranged_footprints E !! j = Some (o2, n2) ->
  (o1 + n1 <= o2 \/ o2 + n2 <= o1)%nat.
Proof.
  intros Hij Hi Hj. unfold ranged_footprints in *. cbv zeta in *.
  destruct i as [|[|[|[|[|[|[|[|i]]]]]]]]; cbn in Hi; try discriminate Hi;
    injection Hi as <- <-;
    (destruct j as [|[|[|[|[|[|[|[|j]]]]]]]]; cbn in Hj; try discriminate Hj;
     injection Hj as <- <-; first [congruence | lia]).
Qed.

Lemma ranged_getters_idempotent :
  Forall (fun '(get, _) =>
            forall c : backup_ram_t, wf_ram c -> get (snd (get c)) = get c)
         (ranged_accessors E).
Proof.
  unfold ranged_accessors.
  apply Forall_cons; split.
  { intros c Hc.
    apply (contract_idempotent _ data.tuned_frequency
             (minimum (tuning_range E)) (maximum (tuning_range E)) 100000000).
    - apply (tuned_frequency_contracts E HE).
    - intros c0 Hc0. apply wf_store_int64, Hc0.
    - intros c0. apply store_int64_idem.
    - exact Hc. }
  apply Forall_cons; split.
  { intros c Hc.
    apply (contract_idempotent _ data.correction_ppb (-99000) 99000 0).
    - apply correction_ppb_contracts.
    - intros c0 Hc0. apply wf_store_int32, Hc0.
    - intros c0. apply store_int32_idem.
    - exact Hc. }
  apply Forall_cons; split.
  { intros c Hc.
    apply (contract_idempotent _ (data.tone_mix E) 10 99 20).
    - apply (tone_mix_contracts E HE).
    - intros c0 Hc0. apply wf_store_int32, Hc0.
    - intros c0. apply store_int32_idem.
    - exact Hc. }
  apply Forall_cons; split.
  { intros c Hc.
    apply (contract_idempotent _ (data.afsk_mark_freq E) 1 4000 1200).
    - apply (afsk_mark_freq_contracts E HE).
    - intros c0 Hc0. apply wf_store_int32, Hc0.
    - intros c0. apply store_int32_idem.
    - exact Hc. }
  apply Forall_cons; split.
  { intros c Hc.
    apply (contract_idempotent _ (data.afsk_space_freq E) 1 4000 2200).
    - apply (afsk_space_freq_contracts E HE).
    - intros c0 Hc0. apply wf_store_int32, Hc0.
    - intros c0. apply store_int32_idem.
    - exact Hc. }
  apply Forall_cons; split.
  { intros c Hc.
    apply (contract_idempotent _ (data.modem_baudrate E) 50 9600 1200).
    - apply (modem_baudrate_contracts E HE).
    - intros c0 Hc0. apply wf_store_int32, Hc0.
    - intros c0. apply store_int32_idem.
    - exact Hc. }
  apply Forall_cons; split.
  { intros c Hc.
    apply (contract_idempotent _ (data.modem_repeat E) 1 99 5).
    - apply (modem_repeat_contracts E HE).
    - intros c0 Hc0. apply wf_store_int32, Hc0.
    - intros c0. apply store_int32_idem.
    - exact Hc. }
  apply Forall_cons; split.
  { intros c Hc. rewrite !clkout_freq_unfold. cbv zeta.
    destruct (outside clkout_freq_range (load (clkout_field E) c)) eqn:Hout;
      cbn [snd].
    - rewrite (clkout_load_store E HE clkout_freq_reset_value c Hc)
        by (vm_compute; intuition congruence).
      reflexivity.
    - rewrite Hout. reflexivity. }
  apply Forall_nil. exact I.
Qed.
End ranged_footprints.

(** X5: every ranged getter is idempotent: a second consecutive call
    returns the same value as the first and leaves the cache as the first
    call left it, whatever the cache held (in range or not). *)
Theorem X5_ranged_getters_idempotent (E : externals) :
  wf_externals E = true ->
  Forall (fun '(get, _) =>
            forall c : backup_ram_t, wf_ram c ->
              get (snd (get c)) = get c
              /\ fst (get (snd (get c))) = fst (get c)
              /\ snd (get (snd (get c))) = snd (get c))
         (ranged_accessors E).
Proof.
  intros HE. eapply Forall_impl; [apply (ranged_getters_idempotent E HE)|].
  intros [get set] Hidem c Hc. cbn beta iota in Hidem.
  rewrite (Hidem c Hc). auto.
Qed.

Lemma X5_ranged_getters_idempotent_witness :
  wf_externals sample_externals = true
  /\ wf_ram sample_cache_bad_baudrate
  /\ modem_baudrate sample_externals
       (snd (modem_baudrate sample_externals sample_cache_bad_baudrate))
     = modem_baudrate sample_externals sample_cache_bad_baudrate.
Proof.
  assert (Hwf : wf_ram sample_cache_bad_baudrate) by reflexivity.
  split; [reflexivity|]. split; [exact Hwf|].
  pose proof (X5_ranged_getters_idempotent sample_externals eq_refl) as H.
  rewrite Forall_lookup in H.
  exact (proj1 (H 5%nat (modem_baudrate sample_externals,
                         set_modem_baudrate sample_externals) eq_refl
                  sample_cache_bad_baudrate Hwf)).
Defined.

(** X6: a ranged getter never returns a value outside the bounds of its
    member, whatever the cache holds; [tuned_frequency] returns a value of
    the tuning range or its reset value 100000000. *)
Theorem X6_ranged_getters_return_in_range (E : externals) (c : backup_ram_t) :
  wf_externals E = true -> wf_ram c ->
  -99000 <= fst (correction_ppb c) <= 99000
  /\ 10 <= fst (tone_mix E c) <= 99
  /\ 1 <= fst (afsk_mark_freq E c) <= 4000
  /\ 1 <= fst (afsk_space_freq E c) <= 4000
  /\ 50 <= fst (modem_baudrate E c) <= 9600
  /\ 1 <= fst (modem_repeat E c) <= 99
  /\ 10 <= fst (clkout_freq E c) <= 60000
  /\ (minimum (tuning_range E) <= fst (tuned_frequency E c)
        <= maximum (tuning_range E)
      \/ fst (tuned_frequency E c) = 100000000).
Proof.
  intros HE Hc.
  split; [apply (contract_in_range _ data.correction_ppb _ _ 0);
          [apply correction_ppb_contracts|lia|exact Hc]|].
  split; [apply (contract_in_range _ (data.tone_mix E) _ _ 20);
          [apply (tone_mix_contracts E HE)|lia|exact Hc]|].
  split; [apply (contract_in_range _ (data.afsk_mark_freq E) _ _ 1200);
          [apply (afsk_mark_freq_contracts E HE)|lia|exact Hc]|].
  split; [apply (contract_in_range _ (data.afsk_space_freq E) _ _ 2200);
          [apply (afsk_space_freq_contracts E HE)|lia|exact Hc]|].
  split; [apply (contract_in_range _ (data.modem_baudrate E) _ _ 1200);
          [apply (modem_baudrate_contracts E HE)|lia|exact Hc]|].
  split; [apply (contract_in_range _ (data.modem_repeat E) _ _ 5);
          [apply (modem_repeat_contracts E HE)|lia|exact Hc]|].
  split; [apply (contract_in_range _ (clkout_field E) _ _ 10000);
          [apply (clkout_freq_contracts E HE)|lia|exact Hc]|].
  destruct (tuned_frequency_contracts E HE) as (Hget & _).
  destruct (Hget c Hc) as (Hout & Hin).
  assert (Hcases : (load data.tuned_frequency c < minimum (tuning_range E)
                    \/ maximum (tuning_range E) < load data.tuned_frequency c)
                   \/ minimum (tuning_range E) <= load data.tuned_frequency c
                      <= maximum (tuning_range E)) by lia.
  destruct Hcases as [Ho|Hi].
  - right. destruct (Hout Ho) as (-> & _). reflexivity.
  - left. rewrite (Hin Hi). exact Hi.
Qed.

Lemma X6_ranged_getters_return_in_range_witness :
  wf_externals sample_externals = true
  /\ wf_ram sample_cache_bad_baudrate
  /\ 50 <= fst (modem_baudrate sample_externals sample_cache_bad_baudrate) <= 9600.
Proof.
  assert (Hwf : wf_ram sample_cache_bad_baudrate) by reflexivity.
  split; [reflexivity|]. split; [exact Hwf|].
  destruct (X6_ranged_getters_return_in_range sample_externals
              sample_cache_bad_baudrate eq_refl Hwf)
    as (_ & _ & _ & _ & Hbaud & _).
  exact Hbaud.
Defined.

(** X7: each ranged setter, and the repair each ranged getter may perform,
    writes only the register words of its own member: the number of words,
    the check value and every other word of the cache are as before; and the
    value a ranged getter returns depends on the words of its member only. *)
Theorem X7_ranged_accessor_footprints (E : externals) :
  Forall2 (fun '(get, set) '(off, n) =>
             (forall v : Z, writes_only off n (set v))
             /\ writes_only off n (fun c => snd (get c))
             /\ reads_only off n (fun c => fst (get c)))
          (ranged_accessors E) (ranged_footprints E).
Proof. apply ranged_footprints_hold. Qed.

(** X8: the ranged members do not interfere: writing one through its setter,
    or reading one through its getter (which may repair it), does not change
    the value that the getter of another one returns. *)
Theorem X8_ranged_members_independent (E : externals) (i j : nat)
    (get_i get_j : backup_ram_t -> Z * backup_ram_t)
    (set_i set_j : Z -> backup_ram_t -> backup_ram_t)
    (v : Z) (c : backup_ram_t) :
  i <> j ->
  ranged_accessors E !! i = Some (get_i, set_i) ->
  ranged_accessors E !! j = Some (get_j, set_j) ->
  fst (get_j (set_i v c)) = fst (get_j c)
  /\ fst (get_j (snd (get_i c))) = fst (get_j c).
Proof.
  intros Hij Hi Hj.
  pose proof (ranged_footprints_hold E) as Hfp.
  destruct (Forall2_lookup_l _ _ _ _ _ Hfp Hi) as ([o1 n1] & Hf1 & Hw1 & Hg1 & _).
  destruct (Forall2_lookup_l _ _ _ _ _ Hfp Hj) as ([o2 n2] & Hf2 & _ & _ & Hr2).
  pose proof (ranged_footprints_disjoint E i j o1 n1 o2 n2 Hij Hf1 Hf2) as Hd.
  split.
  - exact (observation_unchanged o1 n1 o2 n2 (set_i v)
             (fun c => fst (get_j c)) c (Hw1 v) Hr2 Hd).
  - exact (observation_unchanged o1 n1 o2 n2 (fun c => snd (get_i c))
             (fun c => fst (get_j c)) c Hg1 Hr2 Hd).
Qed.

Lemma X8_ranged_members_independent_witness :
  fst (modem_baudrate sample_externals
         (set_tone_mix sample_externals 42 sample_cache))
  = fst (modem_baudrate sample_externals sample_cache).
Proof.
  refine (proj1 (X8_ranged_members_independent sample_externals 2 5
                   (tone_mix sample_externals) (modem_baudrate sample_externals)
                   (set_tone_mix sample_externals)
                   (set_modem_baudrate sample_externals)
                   42 sample_cache _ eq_refl eq_refl)).
  discriminate.
Defined.

(** ** Observations of ui_config *)

Lemma land_pow2_eqb (w k : Z) :
  0 <= k -> negb (Z.land w (Z.shiftl 1 k) =? 0) = Z.testbit w k.
Proof.
  intros Hk. destruct (Z.testbit w k) eqn:Hbit.
  - destruct (Z.eqb_spec (Z.land w (Z.shiftl 1 k)) 0) as [H0|H0]; [|reflexivity].
    assert (Hk' : Z.testbit (Z.land w (Z.shiftl 1 k)) k = true).
    { rewrite Z.land_spec, Hbit. change 1 with (Z.b2z true).
      rewrite testbit_b2z_shiftl by lia. rewrite Z.eqb_refl. reflexivity. }
    rewrite H0, Z.testbit_0_l in Hk'. discriminate Hk'.
  - assert (H0 : Z.land w (Z.shiftl 1 k) = 0).
    { apply Z.bits_inj'. intros j Hj. rewrite Z.land_spec, Z.testbit_0_l.
      change 1 with (Z.b2z true). rewrite testbit_b2z_shiftl by lia.
      destruct (Z.eqb_spec j k) as [->|Hne].
      - rewrite Hbit. reflexivity.
      - apply andb_false_r. }
    rewrite H0. reflexivity.
Qed.

Lemma land_agree (w w' mask : Z) :
  (forall j, 0 <= j -> Z.testbit mask j = true -> Z.testbit w' j = Z.testbit w j) ->
  Z.land w' mask = Z.land w mask.
Proof.
  intros H. apply Z.bits_inj'. intros j Hj. rewrite !Z.land_spec.
  destruct (Z.testbit mask j) eqn:Hm.
  - rewrite (H j Hj Hm). reflexivity.
  - rewrite !andb_false_r. reflexivity.
Qed.

Lemma testbit_7 (j : Z) : 0 <= j -> Z.testbit 7 j = true -> j < 3.
Proof.
  intros Hj Hbit. destruct (Z.lt_ge_cases j 3) as [H|H]; [exact H|].
  change 7 with (Z.ones 3) in Hbit. rewrite Z.ones_spec_high in Hbit by lia.
  discriminate Hbit.
Qed.

Section ui_observers.
Variable E : externals.
Hypothesis HE : wf_externals E = true.

Lemma test_ui_config_testbit (k : Z) (c : backup_ram_t) :
  0 <= k -> test_ui_config E k c = Z.testbit (load (data.ui_config E) c) k.
Proof. intros Hk. unfold test_ui_config. apply land_pow2_eqb, Hk. Qed.

Lemma flag_unchanged (lo hi k : Z) (c c' : backup_ram_t) :
  changes_only_ui_bits E lo hi c c' ->
  0 <= k < 32 -> k < lo \/ hi < k ->
  test_ui_config E k c' = test_ui_config E k c.
Proof.
  intros (_ & _ & _ & Hbits) Hk Hout.
  rewrite !test_ui_config_testbit by lia. apply Hbits; assumption.
Qed.

Lemma backlight_unchanged (lo hi : Z) (c c' : backup_ram_t) :
  changes_only_ui_bits E lo hi c c' ->
  2 < lo \/ hi < 0 ->
  config_backlight_timer E c' = config_backlight_timer E c.
Proof.
  intros (_ & _ & _ & Hbits) Hout. unfold config_backlight_timer.
  assert (Hland : Z.land (load (data.ui_config E) c') 7
                  = Z.land (load (data.ui_config E) c) 7).
  { apply land_agree. intros j Hj Hm. apply testbit_7 in Hm; [|exact Hj].
    apply Hbits; lia. }
  rewrite Hland. reflexivity.
Qed.

Lemma clkout_unchanged (lo hi : Z) (c c' : backup_ram_t) :
  changes_only_ui_bits E lo hi c c' ->
  hi < 4 \/ 19 < lo ->
  fst (clkout_freq E c') = fst (clkout_freq E c).
Proof.
  intros (_ & _ & _ & Hbits) Hout. rewrite !clkout_freq_unfold. cbv zeta.
  assert (Hload : load (clkout_field E) c' = load (clkout_field E) c).
  { cbn [load clkout_field]. do 2 f_equal. apply land_agree.
    intros j Hj Hm. rewrite clkout_mask_testbit in Hm by exact Hj.
    apply andb_true_iff in Hm. destruct Hm as (H4 & H20).
    apply Z.leb_le in H4. apply Z.ltb_lt in H20. apply Hbits; lia. }
  rewrite Hload. destruct (outside _ _); reflexivity.
Qed.

(** Each row of the flag table is a bit from 20 to 31, the test of that bit
    and the read-modify-write of that bit. *)
Lemma flag_accessors_shape :
  Forall (fun '(k, get, set) =>
            20 <= k <= 31
            /\ get = test_ui_config E k
            /\ set = write_ui_flag E k)
         (flag_accessors E).
Proof.
  unfold flag_accessors.
  repeat (apply Forall_cons; split; [split; [lia|split; reflexivity]|]).
  apply Forall_nil. exact I.
Qed.

Lemma write_ui_flag_frame (k : Z) (v : bool) (c : backup_ram_t) :
  0 <= k < 32 -> wf_ram c ->
  changes_only_ui_bits E k k c (write_ui_flag E k v c).
Proof. exact (flag_store_frame E HE k v c). Qed.

Lemma write_ui_flag_read (k : Z) (v : bool) (c : backup_ram_t) :
  0 <= k < 32 -> wf_ram c ->
  test_ui_config E k (write_ui_flag E k v c) = v.
Proof. exact (flag_store_read E HE k v c). Qed.

Lemma clkout_repair_frame (c : backup_ram_t) :
  wf_ram c -> changes_only_ui_bits E 4 19 c (snd (clkout_freq E c)).
Proof.
  intros Hc. rewrite clkout_freq_unfold. cbv zeta.
  destruct (outside _ _); cbn [snd].
  - apply ui_config_store_frame; [exact HE|exact Hc|].
    intros j Hj Hout.
    rewrite (clkout_write_testbit _ clkout_freq_reset_value j);
      [|vm_compute; intuition congruence|lia].
    destruct (Z.leb_spec 4 j); destruct (Z.ltb_spec j 20); simpl;
      first [lia | reflexivity].
  - unfold changes_only_ui_bits. auto.
Qed.

Lemma backlight_set_read (i : Z) (c : backup_ram_t) :
  wf_ram c ->
  config_backlight_timer E (set_config_backlight_timer E i c)
  = if Z.land i 7 =? 0 then None
    else Some (timer_seconds !!! Z.to_nat (Z.land i 7)).
Proof.
  intros Hc. unfold config_backlight_timer, set_config_backlight_timer.
  unfold data.ui_config.
  rewrite load_store_uint32
    by (first [exact Hc
              |unfold data.ui_config_word; apply (member_fits E HE 13); lia]).
  cbn [load uint32_at].
  set (w := regfile c !!! data.ui_config_word E).
  assert (Hland : Z.land (u32 (Z.lor (Z.land w (Z.lnot 7)) (Z.land i 7))) 7
                  = Z.land i 7).
  { apply Z.bits_inj'. intros j Hj. rewrite !Z.land_spec.
    destruct (Z.testbit 7 j) eqn:H7.
    - apply testbit_7 in H7; [|exact Hj].
      rewrite u32_testbit by lia. rewrite backlight_write_testbit by exact Hj.
      destruct (Z.ltb_spec j 3); [|lia]. reflexivity.
    - rewrite !andb_false_r. reflexivity. }
  rewrite Hland. reflexivity.
Qed.
End ui_observers.

(** X9: each single-bit setter of [ui_config] is read back by its getter,
    and leaves what every other flag getter, [config_backlight_timer] and
    [clkout_freq] return unchanged. *)
Theorem X9_flag_setters_read_back (E : externals) (c : backup_ram_t) (v : bool) :
  wf_externals E = true -> wf_ram c ->
  Forall (fun '(k, get, set) =>
            get (set v c) = v
            /\ Forall (fun '(k', get', _) => k' <> k -> get' (set v c) = get' c)
                      (flag_accessors E)
            /\ config_backlight_timer E (set v c) = config_backlight_timer E c
            /\ fst (clkout_freq E (set v c)) = fst (clkout_freq E c))
         (flag_accessors E).
Proof.
  intros HE Hc. eapply Forall_impl; [apply flag_accessors_shape|].
  intros [[k get] set] (Hk & -> & ->).
  pose proof (write_ui_flag_frame E HE k v c ltac:(lia) Hc) as Hframe.
  split; [apply write_ui_flag_read; [exact HE|lia|exact Hc]|].
  split.
  - eapply Forall_impl; [apply flag_accessors_shape|].
    intros [[k' get'] set'] (Hk' & -> & _) Hne.
    apply (flag_unchanged E k k); [exact Hframe|lia|lia].
  - split.
    + apply (backlight_unchanged E k k); [exact Hframe|lia].
    + apply (clkout_unchanged E k k); [exact Hframe|lia].
Qed.

Lemma X9_flag_setters_read_back_witness :
  wf_externals sample_externals = true
  /\ wf_ram sample_cache
  /\ stealth_mode sample_externals
       (set_stealth_mode sample_externals true sample_cache) = true.
Proof.
  split; [reflexivity|]. split; [exact wf_sample_cache|].
  pose proof (X9_flag_setters_read_back sample_externals sample_cache true
                eq_refl wf_sample_cache) as H.
  rewrite Forall_lookup in H.
  exact (proj1 (H 9%nat (29, stealth_mode sample_externals,
                         set_stealth_mode sample_externals) eq_refl)).
Defined.

(** X10: after [set_config_backlight_timer(i)] the getter returns no value
    when the low three bits of [i] are 0 and otherwise the entry of the
    table at those three bits (so 8 reads back like 0 and 9 like 1); the
    write leaves every flag and the CLKOUT frequency as they read before.
    On any cache the getter returns nothing or one of the seven non-zero
    table entries. *)
Theorem X10_backlight_timer_round_trip (E : externals) (c : backup_ram_t) (i : Z) :
  wf_externals E = true -> wf_ram c ->
  config_backlight_timer E (set_config_backlight_timer E i c)
  = (if Z.land i 7 =? 0 then None
     else Some ([0; 5; 15; 30; 60; 180; 300; 600] !!! Z.to_nat (Z.land i 7)))
  /\ Forall (fun '(_, get, _) => get (set_config_backlight_timer E i c) = get c)
            (flag_accessors E)
  /\ fst (clkout_freq E (set_config_backlight_timer E i c)) = fst (clkout_freq E c)
  /\ In (config_backlight_timer E c)
        [None; Some 5; Some 15; Some 30; Some 60; Some 180; Some 300; Some 600].
Proof.
  intros HE Hc.
  pose proof (backlight_store_frame E HE i c Hc) as Hframe.
  split; [apply (backlight_set_read E HE i c Hc)|]. split; [|split].
  - eapply Forall_impl; [apply flag_accessors_shape|].
    intros [[k get] set] (Hk & -> & _).
    apply (flag_unchanged E 0 2); [exact Hframe|lia|lia].
  - apply (clkout_unchanged E 0 2); [exact Hframe|lia].
  - unfold config_backlight_timer. change 7 with (Z.ones 3).
    rewrite Z.land_ones by lia.
    pose proof (Z.mod_pos_bound (load (data.ui_config E) c) (2 ^ 3) eq_refl) as Hb.
    set (m := load (data.ui_config E) c mod 2 ^ 3) in *.
    assert (Hm : m = 0 \/ m = 1 \/ m = 2 \/ m = 3 \/ m = 4 \/ m = 5 \/ m = 6
                 \/ m = 7) by (change (2 ^ 3) with 8 in Hb; lia).
    destruct Hm as [->|[->|[->|[->|[->|[->|[->| ->]]]]]]]; cbn; tauto.
Qed.

Lemma X10_backlight_timer_round_trip_witness :
  wf_externals sample_externals = true
  /\ wf_ram sample_cache
  /\ config_backlight_timer sample_externals
       (set_config_backlight_timer sample_externals 9 sample_cache) = Some 5.
Proof.
  split; [reflexivity|]. split; [exact wf_sample_cache|].
  exact (proj1 (X10_backlight_timer_round_trip sample_externals sample_cache 9
                  eq_refl wf_sample_cache)).
Defined.

(** X11: writing the CLKOUT frequency, and the repair that [clkout_freq]
    performs on an out-of-range value, leave every flag and the backlight
    timer as they read before. *)
Theorem X11_clkout_writes_leave_flags (E : externals) (c : backup_ram_t)
    (freq : Z) :
  wf_externals E = true -> wf_ram c ->
  Forall (fun '(_, get, _) =>
            get (set_clkout_freq E freq c) = get c
            /\ get (snd (clkout_freq E c)) = get c)
         (flag_accessors E)
  /\ config_backlight_timer E (set_clkout_freq E freq c)
     = config_backlight_timer E c
  /\ config_backlight_timer E (snd (clkout_freq E c))
     = config_backlight_timer E c.
Proof.
  intros HE Hc.
  pose proof (clkout_store_frame E HE freq c Hc) as Hset.
  pose proof (clkout_repair_frame E HE c Hc) as Hget.
  split; [|split].
  - eapply Forall_impl; [apply flag_accessors_shape|].
    intros [[k get] set] (Hk & -> & _). split.
    + apply (flag_unchanged E 4 19); [exact Hset|lia|lia].
    + apply (flag_unchanged E 4 19); [exact Hget|lia|lia].
  - apply (backlight_unchanged E 4 19); [exact Hset|lia].
  - apply (backlight_unchanged E 4 19); [exact Hget|lia].
Qed.

Lemma X11_clkout_writes_leave_flags_witness :
  wf_externals sample_externals = true
  /\ wf_ram sample_cache
  /\ config_backlight_timer sample_externals
       (set_clkout_freq sample_externals 440 sample_cache)
     = config_backlight_timer sample_externals sample_cache.
Proof.
  split; [reflexivity|]. split; [exact wf_sample_cache|].
  exact (proj1 (proj2 (X11_clkout_writes_leave_flags sample_externals
                         sample_cache 440 eq_refl wf_sample_cache))).
Defined.

(** ** Plain members and blobs *)

Section plain_members.
Variable E : externals.
Hypothesis HE : wf_externals E = true.

(** The window of a plain or blob member touches no ranged member. *)
Lemma ranged_unaffected (o n : nat) (f : backup_ram_t -> backup_ram_t)
    (c : backup_ram_t) :
  writes_only o n f ->
  Forall (fun '(o2, n2) => (o + n <= o2 \/ o2 + n2 <= o)%nat)
         (ranged_footprints E) ->
  Forall (fun '(get, _) => fst (get (f c)) = fst (get c)) (ranged_accessors E).
Proof.
  intros Hw Hd. apply Forall_lookup. intros i [get set] Hi.
  destruct (Forall2_lookup_l _ _ _ _ _ (ranged_footprints_hold E) Hi)
    as ([o2 n2] & Hf & _ & _ & Hr).
  rewrite Forall_lookup in Hd. specialize (Hd i (o2, n2) Hf). cbn beta iota in Hd.
  exact (observation_unchanged o n o2 n2 f (fun c => fst (get c)) c Hw Hr Hd).
Qed.

Lemma writes_only_set_touch_calibration (v : list Z) :
  writes_only 3 (1 + length v) (set_touch_calibration E v).
Proof.
  intros c. unfold set_touch_calibration.
  eapply agree_outside_trans.
  - apply (agree_outside_weaken 4 (length v)); [lia|lia|].
    apply (writes_only_words 4 (Calibration_words E) v c).
  - apply (agree_outside_weaken 3 1); [lia|lia|].
    apply (writes_only_uint32 3 TOUCH_CALIBRATION_MAGIC).
Qed.

Lemma serial_format_set_read (v : list Z) (c : backup_ram_t) :
  wf_ram c -> length v = serial_format_words E ->
  serial_format E (set_serial_format E v c) = v.
Proof.
  unfold wf_ram. intros Hc Hv.
  destruct (wf_externals_spec E HE) as (Hfit & _).
  unfold serial_format, set_serial_format.
  cbn [load_blob store_blob data.serial_format words_at with_regfile regfile].
  rewrite <- Hv. apply take_drop_inserts. unfold regfile_size in *. lia.
Qed.

Lemma touch_calibration_idempotent (c : backup_ram_t) :
  wf_ram c ->
  touch_calibration E (snd (touch_calibration E c)) = touch_calibration E c
  /\ load data.touch_calibration_magic (snd (touch_calibration E c))
     = TOUCH_CALIBRATION_MAGIC.
Proof.
  intros Hc. destruct (wf_externals_spec E HE) as (_ & Hcal & _).
  unfold touch_calibration at 2 3 4.
  destruct (Z.eqb_spec (load data.touch_calibration_magic c)
              TOUCH_CALIBRATION_MAGIC) as [Heq|Hne]; cbn [negb snd].
  - split; [|exact Heq]. unfold touch_calibration.
    rewrite Heq, Z.eqb_refl. reflexivity.
  - destruct (touch_calibration_set_read E HE (Calibration_default E) c Hc Hcal)
      as (Hblob & Hmagic).
    split; [|exact Hmagic]. unfold touch_calibration.
    rewrite Hmagic, Z.eqb_refl. reflexivity.
Qed.
End plain_members.

(** X12: [set_config_cpld] and the two POCSAG address setters are read back
    by their getters (a CPLD value is a byte, an address a 32-bit word), the
    two addresses do not disturb each other, and none of the three setters
    changes what a ranged getter returns. *)
Theorem X12_plain_members_round_trip (E : externals) (c : backup_ram_t)
    (i a : Z) :
  wf_externals E = true -> wf_ram c -> 0 <= i < 256 -> 0 <= a < 2 ^ 32 ->
  config_cpld E (set_config_cpld E i c) = i
  /\ pocsag_last_address E (set_pocsag_last_address E a c) = a
  /\ pocsag_ignore_address E (set_pocsag_ignore_address E a c) = a
  /\ pocsag_ignore_address E (set_pocsag_last_address E a c)
     = pocsag_ignore_address E c
  /\ pocsag_last_address E (set_pocsag_ignore_address E a c)
     = pocsag_last_address E c
  /\ Forall (fun '(get, _) =>
               fst (get (set_config_cpld E i c)) = fst (get c)
               /\ fst (get (set_pocsag_last_address E a c)) = fst (get c)
               /\ fst (get (set_pocsag_ignore_address E a c)) = fst (get c))
            (ranged_accessors E).
Proof.
  intros HE Hc Hi Ha.
  assert (Hu32 : forall x, 0 <= x < 2 ^ 32 -> u32 x = x)
    by (intros x Hx; apply Z.mod_small, Hx).
  split.
  { unfold config_cpld, set_config_cpld, data.hardware_config.
    rewrite load_store_uint32; [|apply (member_fits E HE 17); lia|exact Hc].
    rewrite Hu32 by (change (2 ^ 32) with 4294967296; lia).
    apply u8_small, Hi. }
  split.
  { unfold pocsag_last_address, set_pocsag_last_address, data.pocsag_last_address.
    rewrite load_store_uint32; [|apply (member_fits E HE 14); lia|exact Hc].
    apply Hu32, Ha. }
  split.
  { unfold pocsag_ignore_address, set_pocsag_ignore_address,
      data.pocsag_ignore_address.
    rewrite load_store_uint32; [|apply (member_fits E HE 15); lia|exact Hc].
    apply Hu32, Ha. }
  split.
  { apply (observation_unchanged _ 1 _ 1
             (set_pocsag_last_address E a) (pocsag_ignore_address E) c
             (writes_only_uint32 _ a) (reads_only_load_uint32 _)). lia. }
  split.
  { apply (observation_unchanged _ 1 _ 1
             (set_pocsag_ignore_address E a) (pocsag_last_address E) c
             (writes_only_uint32 _ a) (reads_only_load_uint32 _)). lia. }
  pose proof (ranged_unaffected E _ 1 (set_config_cpld E i) c
                (writes_only_uint32 _ i)) as H1.
  pose proof (ranged_unaffected E _ 1 (set_pocsag_last_address E a) c
                (writes_only_uint32 _ a)) as H2.
  pose proof (ranged_unaffected E _ 1 (set_pocsag_ignore_address E a) c
                (writes_only_uint32 _ a)) as H3.
  assert (Hd : forall k : nat, (14 <= k <= 17)%nat -> k <> 16%nat ->
            Forall (fun '(o2, n2) =>
                      (k + Calibration_words E + serial_format_words E + 1 <= o2
                       \/ o2 + n2
                          <= k + Calibration_words E + serial_format_words E)%nat)
                   (ranged_footprints E)).
  { intros k Hk Hk16. unfold ranged_footprints. cbv zeta.
    repeat (apply Forall_cons; split; [lia|]). apply Forall_nil. exact I. }
  specialize (H1 (Hd 17%nat ltac:(lia) ltac:(lia))).
  specialize (H2 (Hd 14%nat ltac:(lia) ltac:(lia))).
  specialize (H3 (Hd 15%nat ltac:(lia) ltac:(lia))).
  rewrite Forall_lookup in H1, H2, H3. apply Forall_lookup.
  intros n [get set] Hn.
  specialize (H1 n _ Hn). specialize (H2 n _ Hn). specialize (H3 n _ Hn).
  cbn beta iota in *. auto.
Qed.

Lemma X12_plain_members_round_trip_witness :
  wf_externals sample_externals = true
  /\ wf_ram sample_cache
  /\ pocsag_last_address sample_externals
       (set_pocsag_last_address sample_externals 1234567 sample_cache) = 1234567.
Proof.
  split; [reflexivity|]. split; [exact wf_sample_cache|].
  refine (proj1 (proj2 (X12_plain_members_round_trip sample_externals
                          sample_cache 3 1234567 eq_refl wf_sample_cache _ _)));
    vm_compute; intuition congruence.
Defined.

(** X13: a serial format written by [set_serial_format] is read back by
    [serial_format]; the write touches only the words of that member (the
    check value and all other words of the cache are as before) and changes
    nothing that a ranged getter returns. *)
Theorem X13_serial_format_round_trip (E : externals) (c : backup_ram_t)
    (v : list Z) :
  wf_externals E = true -> wf_ram c -> length v = serial_format_words E ->
  serial_format E (set_serial_format E v c) = v
  /\ agree_outside (5 + Calibration_words E) (serial_format_words E) c
       (set_serial_format E v c)
  /\ Forall (fun '(get, _) => fst (get (set_serial_format E v c)) = fst (get c))
            (ranged_accessors E).
Proof.
  intros HE Hc Hv.
  assert (Hw : writes_only (5 + Calibration_words E) (serial_format_words E)
                 (set_serial_format E v)).
  { rewrite <- Hv.
    exact (writes_only_words (5 + Calibration_words E) (serial_format_words E) v). }
  split; [apply (serial_format_set_read E HE v c Hc Hv)|].
  split; [apply Hw|].
  apply (ranged_unaffected E _ _ _ c Hw).
  unfold ranged_footprints. cbv zeta.
  repeat (apply Forall_cons; split; [lia|]). apply Forall_nil. exact I.
Qed.

Lemma X13_serial_format_round_trip_witness :
  wf_externals sample_externals = true
  /\ wf_ram sample_cache
  /\ serial_format sample_externals
       (set_serial_format sample_externals [16909320] sample_cache) = [16909320].
Proof.
  split; [reflexivity|]. split; [exact wf_sample_cache|].
  exact (proj1 (X13_serial_format_round_trip sample_externals sample_cache
                  [16909320] eq_refl wf_sample_cache eq_refl)).
Defined.

(** X14: after [touch_calibration()] the stored magic is the valid one and a
    second call returns the same calibration without changing the cache;
    [set_touch_calibration] and the repair of the getter write only the
    magic word and the words of the calibration, and change nothing that a
    ranged getter returns. *)
Theorem X14_touch_calibration_repair (E : externals) (c : backup_ram_t)
    (v : list Z) :
  wf_externals E = true -> wf_ram c -> length v = Calibration_words E ->
  load data.touch_calibration_magic (snd (touch_calibration E c))
  = TOUCH_CALIBRATION_MAGIC
  /\ touch_calibration E (snd (touch_calibration E c)) = touch_calibration E c
  /\ agree_outside 3 (1 + Calibration_words E) c (set_touch_calibration E v c)
  /\ agree_outside 3 (1 + Calibration_words E) c (snd (touch_calibration E c))
  /\ Forall (fun '(get, _) =>
               fst (get (set_touch_calibration E v c)) = fst (get c)
               /\ fst (get (snd (touch_calibration E c))) = fst (get c))
            (ranged_accessors E).
Proof.
  intros HE Hc Hv. destruct (wf_externals_spec E HE) as (_ & Hcal & _).
  destruct (touch_calibration_idempotent E HE c Hc) as (Hidem & Hmagic).
  assert (Hset : forall w, length w = Calibration_words E ->
            writes_only 3 (1 + Calibration_words E) (set_touch_calibration E w)).
  { intros w Hw. rewrite <- Hw. apply writes_only_set_touch_calibration. }
  assert (Hget : writes_only 3 (1 + Calibration_words E)
                   (fun c => snd (touch_calibration E c))).
  { intros c0. unfold touch_calibration.
    destruct (negb _); cbn [snd].
    - apply (Hset _ Hcal).
    - apply agree_outside_refl. }
  assert (Hd : Forall (fun '(o2, n2) =>
                         (3 + (1 + Calibration_words E) <= o2 \/ o2 + n2 <= 3)%nat)
                      (ranged_footprints E)).
  { unfold ranged_footprints. cbv zeta.
    repeat (apply Forall_cons; split; [lia|]). apply Forall_nil. exact I. }
  split; [exact Hmagic|]. split; [exact Hidem|].
  split; [apply (Hset v Hv)|]. split; [apply Hget|].
  pose proof (ranged_unaffected E _ _ _ c (Hset v Hv) Hd) as H1.
  pose proof (ranged_unaffected E _ _ _ c Hget Hd) as H2.
  rewrite Forall_lookup in H1, H2. apply Forall_lookup.
  intros n [get set] Hn.
  specialize (H1 n _ Hn). specialize (H2 n _ Hn). cbn beta iota in *. auto.
Qed.

Lemma X14_touch_calibration_repair_witness :
  wf_externals sample_externals = true
  /\ wf_ram blank_cache
  /\ load data.touch_calibration_magic
       (snd (touch_calibration sample_externals blank_cache))
     = TOUCH_CALIBRATION_MAGIC.
Proof.
  assert (Hwf : wf_ram blank_cache) by reflexivity.
  split; [reflexivity|]. split; [exact Hwf|].
  exact (proj1 (X14_touch_calibration_repair sample_externals blank_cache
                  [7; 6; 5; 4; 3; 2; 1] eq_refl Hwf eq_refl)).
Defined.

(** X15: [init()] never writes the physical record, leaves two 63-word
    images, puts in the cache either the physical record (then valid) or the
    default record, and is idempotent. *)
Theorem X15_init_idempotent (E : externals) (m : machine) :
  wf_machine m ->
  backup_ram (cache.init E m) = backup_ram m
  /\ wf_machine (cache.init E m)
  /\ (cached_backup_ram (cache.init E m) = backup_ram m
      /\ is_valid (cached_backup_ram (cache.init E m)) = true
      \/ cached_backup_ram (cache.init E m) = backup_ram_t_default E
         /\ is_valid (backup_ram m) = false)
  /\ cache.init E (cache.init E m) = cache.init E m.
Proof.
  intros Hm. pose proof Hm as (Hb & Hc).
  destruct (is_valid (backup_ram m)) eqn:Hv.
  - rewrite (init_valid E m Hm Hv). cbn [backup_ram cached_backup_ram].
    split; [reflexivity|]. split; [split; exact Hb|].
    split; [left; split; [reflexivity|exact Hv]|].
    rewrite (init_valid E {| backup_ram := backup_ram m;
                             cached_backup_ram := backup_ram m |});
      [reflexivity|split; exact Hb|exact Hv].
  - rewrite (init_invalid E m Hm Hv). cbn [backup_ram cached_backup_ram].
    split; [reflexivity|].
    split; [split; [exact Hb|apply wf_backup_ram_t_default]|].
    split; [right; split; reflexivity|].
    rewrite (init_invalid E {| backup_ram := backup_ram m;
                               cached_backup_ram := backup_ram_t_default E |});
      [reflexivity|split; [exact Hb|apply wf_backup_ram_t_default]|exact Hv].
Qed.

Lemma X15_init_idempotent_witness :
  wf_machine cold_machine
  /\ cache.init sample_externals (cache.init sample_externals cold_machine)
     = cache.init sample_externals cold_machine.
Proof.
  split; [exact wf_cold_machine|].
  exact (proj2 (proj2 (proj2
    (X15_init_idempotent sample_externals cold_machine wf_cold_machine)))).
Defined.

(** X16: [persist()] is idempotent and leaves the cache and the physical
    record equal: two 63-word images, both the cache of before with the CRC
    of its payload as check value, hence valid; an [init()] right after it
    changes nothing. *)
Theorem X16_persist_idempotent (E : externals) (m : machine) :
  wf_machine m ->
  cache.persist (cache.persist m) = cache.persist m
  /\ wf_machine (cache.persist m)
  /\ backup_ram (cache.persist m) = cached_backup_ram (cache.persist m)
  /\ regfile (cached_backup_ram (cache.persist m))
     = regfile (cached_backup_ram m)
  /\ check_value (cached_backup_ram (cache.persist m))
     = compute_check_value (cached_backup_ram m)
  /\ is_valid (backup_ram (cache.persist m)) = true
  /\ cache.init E (cache.persist m) = cache.persist m.
Proof.
  intros Hm. pose proof Hm as (Hb & Hc). rewrite (persist_eq m Hm).
  set (c := with_check_value (compute_check_value (cached_backup_ram m))
              (cached_backup_ram m)).
  assert (Hwc : wf_ram c) by (apply wf_with_check_value, Hc).
  assert (Hwm : wf_machine {| backup_ram := c; cached_backup_ram := c |})
    by (split; exact Hwc).
  cbn [backup_ram cached_backup_ram].
  split; [|split; [exact Hwm|]].
  - rewrite (persist_eq _ Hwm). cbn [backup_ram cached_backup_ram].
    assert (Hcv : compute_check_value c
                  = compute_check_value (cached_backup_ram m))
      by (apply compute_check_value_regfile; reflexivity).
    rewrite Hcv. subst c.
    generalize (compute_check_value (cached_backup_ram m)). intros x.
    reflexivity.
  - split; [reflexivity|]. split; [reflexivity|]. split; [reflexivity|].
    split; [apply is_valid_after_persist|].
    rewrite (init_valid E _ Hwm); [reflexivity|].
    apply is_valid_after_persist.
Qed.

Lemma X16_persist_idempotent_witness :
  wf_machine cold_machine
  /\ cache.persist (cache.persist cold_machine) = cache.persist cold_machine.
Proof.
  split; [exact wf_cold_machine|].
  exact (proj1 (X16_persist_idempotent sample_externals cold_machine
                  wf_cold_machine)).
Defined.

(** X17: [set_correction_ppb] hands the clock manager the value it stores:
    always within [-99000, 99000], the argument itself when that is in
    range, and what [correction_ppb()] returns right after. *)
Theorem X17_correction_ppb_notification (v : Z) (c : backup_ram_t) :
  wf_ram c ->
  -99000 <= snd (set_correction_ppb v c) <= 99000
  /\ (-99000 <= v <= 99000 -> snd (set_correction_ppb v c) = v)
  /\ load data.correction_ppb (fst (set_correction_ppb v c))
     = snd (set_correction_ppb v c)
  /\ fst (correction_ppb (fst (set_correction_ppb v c)))
     = snd (set_correction_ppb v c).
Proof.
  intros Hc. unfold set_correction_ppb. cbv zeta. cbn [fst snd].
  assert (Hr : minimum ppb_range <= maximum ppb_range) by (simpl; lia).
  pose proof (clip_bounds ppb_range v Hr) as Hb. cbn [minimum maximum ppb_range] in Hb.
  assert (Hload : load data.correction_ppb
                    (store data.correction_ppb (clip ppb_range v) c)
                  = clip ppb_range v).
  { apply load_store_int32; [unfold regfile_size; lia|exact Hc|].
    unfold in_i32. change (2 ^ 31) with 2147483648. lia. }
  split; [exact Hb|]. split; [intros Hv; apply clip_inside; exact Hv|].
  split; [exact Hload|].
  destruct correction_ppb_contracts as (Hget & _).
  destruct (Hget (store data.correction_ppb (clip ppb_range v) c)
              (wf_store_int32 2 (clip ppb_range v) c Hc)) as (_ & Hin).
  rewrite Hin; rewrite Hload; [reflexivity|exact Hb].
Qed.

Lemma X17_correction_ppb_notification_witness :
  wf_ram sample_cache
  /\ -99000 <= snd (set_correction_ppb (-123456789) sample_cache) <= 99000.
Proof.
  split; [exact wf_sample_cache|].
  exact (proj1 (X17_correction_ppb_notification (-123456789) sample_cache
                  wf_sample_cache)).
Defined.

(** ** Composition of writes *)

Lemma backup_ram_t_eq (c c' : backup_ram_t) :
  regfile c' = regfile c -> check_value c' = check_value c -> c' = c.
Proof. destruct c, c'. cbn. intros -> ->. reflexivity. Qed.

(** Two writes that work inside disjoint windows commute. *)
Lemma local_writes_commute (o1 n1 o2 n2 : nat)
    (f g : backup_ram_t -> backup_ram_t) (c : backup_ram_t) :
  local_write o1 n1 f -> local_write o2 n2 g ->
  (o1 + n1 <= o2 \/ o2 + n2 <= o1)%nat ->
  f (g c) = g (f c).
Proof.
  intros (Hwf & Hlf) (Hwg & Hlg) Hd.
  destruct (Hwf c) as (Hlen_f & Hcv_f & Hsame_f).
  destruct (Hwg c) as (Hlen_g & Hcv_g & Hsame_g).
  destruct (Hwf (g c)) as (Hlen_fg & Hcv_fg & Hsame_fg).
  destruct (Hwg (f c)) as (Hlen_gf & Hcv_gf & Hsame_gf).
  apply backup_ram_t_eq; [|congruence].
  apply list_eq. intros i.
  destruct (decide (o1 <= i < o1 + n1)%nat) as [Hi1|Hi1].
  - rewrite (Hlf c (g c) Hlen_g) by (auto; intros k Hk; apply Hsame_g; lia).
    symmetry. apply Hsame_gf. lia.
  - destruct (decide (o2 <= i < o2 + n2)%nat) as [Hi2|Hi2].
    + rewrite (Hlg c (f c) Hlen_f) by (auto; intros k Hk; apply Hsame_f; lia).
      apply Hsame_fg. lia.
    + rewrite Hsame_gf, Hsame_f, Hsame_fg, Hsame_g by lia. reflexivity.
Qed.

Lemma local_write_int32 (off : nat) (x : Z) :
  local_write off 1 (store (int32_at off) x).
Proof.
  split; [apply writes_only_int32|].
  intros c c' Hlen Hw i Hi. cbn [store int32_at with_regfile regfile].
  apply lookup_insert_agree; [exact Hlen|apply Hw, Hi].
Qed.

Lemma local_write_int64 (off : nat) (x : Z) :
  local_write off 2 (store (int64_at off) x).
Proof.
  split; [apply writes_only_int64|].
  intros c c' Hlen Hw i Hi. cbn [store int64_at with_regfile regfile].
  apply lookup_insert_agree; [rewrite !length_insert; exact Hlen|].
  apply lookup_insert_agree; [exact Hlen|apply Hw, Hi].
Qed.

(** A read-modify-write of one [uint32_t] word. *)
Lemma local_write_rmw (off : nat) (F : Z -> Z) :
  local_write off 1
    (fun c => store (uint32_at off) (F (load (uint32_at off) c)) c).
Proof.
  split; [intros c; apply (writes_only_uint32 off _ c)|].
  intros c c' Hlen Hw i Hi. cbn [load store uint32_at with_regfile regfile].
  rewrite (lookup_total_agree (regfile c) (regfile c') off) by (apply Hw; lia).
  apply lookup_insert_agree; [exact Hlen|apply Hw, Hi].
Qed.

Lemma ranged_setters_local (E : externals) (v : Z) :
  Forall2 (fun '(_, set) '(off, n) => local_write off n (set v))
          (ranged_accessors E) (ranged_footprints E).
Proof.
  unfold ranged_accessors, ranged_footprints. cbv zeta.
  constructor; [exact (local_write_int64 0 _)|].
  constructor; [exact (local_write_int32 2 _)|].
  constructor; [exact (local_write_int32 _ _)|].
  constructor; [exact (local_write_int32 _ _)|].
  constructor; [exact (local_write_int32 _ _)|].
  constructor; [exact (local_write_int32 _ _)|].
  constructor; [exact (local_write_int32 _ _)|].
  constructor;
    [exact (local_write_rmw _
              (fun w => Z.lor (Z.land w (Z.lnot 0x000FFFF0))
                              (Z.shiftl (clip clkout_freq_range v) 4)))|].
  constructor.
Qed.

(** Two read-modify-writes of a 32-bit register in a row, the second one
    over the bits of the first. *)
Lemma rmw_twice (w nm a b : Z) :
  (forall j, 0 <= j < 32 -> Z.testbit a j = true -> Z.testbit nm j = false) ->
  u32 (Z.lor (Z.land (u32 (Z.lor (Z.land w nm) a)) nm) b)
  = u32 (Z.lor (Z.land w nm) b).
Proof.
  intros Ha. apply Z.bits_inj'. intros j Hj. unfold u32 at 1 3.
  destruct (Z.lt_ge_cases j 32) as [Hlt|Hge].
  - rewrite !Z.mod_pow2_bits_low by lia.
    rewrite !Z.lor_spec, !Z.land_spec, u32_testbit by lia.
    rewrite Z.lor_spec, Z.land_spec.
    specialize (Ha j ltac:(lia)).
    destruct (Z.testbit a j); [rewrite Ha by reflexivity|];
      destruct (Z.testbit w j), (Z.testbit nm j), (Z.testbit b j); reflexivity.
  - rewrite !Z.mod_pow2_bits_high by lia. reflexivity.
Qed.

(** Two read-modify-writes of disjoint fields of a 32-bit register. *)
Lemma rmw_commute (w nm1 a nm2 b : Z) :
  (forall j, 0 <= j < 32 -> Z.testbit a j = true ->
     Z.testbit nm1 j = false /\ Z.testbit nm2 j = true) ->
  (forall j, 0 <= j < 32 -> Z.testbit b j = true ->
     Z.testbit nm2 j = false /\ Z.testbit nm1 j = true) ->
  u32 (Z.lor (Z.land (u32 (Z.lor (Z.land w nm1) a)) nm2) b)
  = u32 (Z.lor (Z.land (u32 (Z.lor (Z.land w nm2) b)) nm1) a).
Proof.
  intros Ha Hb. apply Z.bits_inj'. intros j Hj. unfold u32 at 1 3.
  destruct (Z.lt_ge_cases j 32) as [Hlt|Hge].
  - rewrite !Z.mod_pow2_bits_low by lia.
    rewrite !Z.lor_spec, !Z.land_spec, !u32_testbit by lia.
    rewrite !Z.lor_spec, !Z.land_spec.
    specialize (Ha j ltac:(lia)). specialize (Hb j ltac:(lia)).
    destruct (Z.testbit a j);
      [destruct (Ha eq_refl) as (H1 & H2); rewrite H1, H2|];
      (destruct (Z.testbit b j);
       [destruct (Hb eq_refl) as (H3 & H4); rewrite ?H3, ?H4 in *|]);
      try discriminate;
      destruct (Z.testbit w j), (Z.testbit nm1 j), (Z.testbit nm2 j);
      reflexivity.
  - rewrite !Z.mod_pow2_bits_high by lia. reflexivity.
Qed.

Lemma ui_field_flag (k : Z) (v : bool) :
  0 <= k -> ui_field k k (Z.lnot (Z.shiftl 1 k)) (Z.shiftl (Z.b2z v) k).
Proof.
  intros Hk j Hj. rewrite Z.lnot_spec by lia.
  change 1 with (Z.b2z true). rewrite !testbit_b2z_shiftl by lia.
  cbn [andb]. split.
  - destruct (Z.eqb_spec j k) as [->|Hne].
    + rewrite Z.leb_refl. reflexivity.
    + destruct (Z.leb_spec k j); destruct (Z.leb_spec j k); try reflexivity; lia.
  - intros Hbit. apply andb_true_iff in Hbit. destruct Hbit as (_ & Heq).
    apply Z.eqb_eq in Heq. lia.
Qed.

Lemma ui_field_backlight (i : Z) : ui_field 0 2 (Z.lnot 7) (Z.land i 7).
Proof.
  intros j Hj. rewrite Z.lnot_spec, Z.land_spec by lia.
  change 7 with (Z.ones 3).
  destruct (Z.leb_spec 0 j); [|lia]. cbn [andb]. split.
  - destruct (Z.leb_spec j 2).
    + rewrite Z.ones_spec_low by lia. reflexivity.
    + rewrite Z.ones_spec_high by lia. reflexivity.
  - intros Hbit. apply andb_true_iff in Hbit. destruct Hbit as (_ & Hbit).
    change (Z.ones 3) with 7 in Hbit. apply testbit_7 in Hbit; lia.
Qed.

Lemma ui_field_clkout (y : Z) :
  0 <= y < 2 ^ 16 -> ui_field 4 19 (Z.lnot 0x000FFFF0) (Z.shiftl y 4).
Proof.
  intros Hy j Hj. rewrite Z.lnot_spec by lia.
  rewrite clkout_mask_testbit by lia. rewrite Z.shiftl_spec by lia. split.
  - destruct (Z.leb_spec 4 j); destruct (Z.ltb_spec j 20);
      destruct (Z.leb_spec j 19); try reflexivity; lia.
  - intros Hbit.
    destruct (Z.lt_ge_cases j 4) as [H4|H4].
    { rewrite Z.testbit_neg_r in Hbit by lia. discriminate Hbit. }
    destruct (Z.lt_ge_cases j 20) as [H20|H20]; [lia|].
    rewrite (testbit_small y 16 (j - 4)) in Hbit by lia. discriminate Hbit.
Qed.

Section ui_rmw.
Variable E : externals.
Hypothesis HE : wf_externals E = true.

Lemma ui_rmw_unfold (keep bits : Z) (c : backup_ram_t) :
  wf_ram c ->
  regfile (ui_rmw E keep bits c)
  = <[data.ui_config_word E :=
        u32 (Z.lor (Z.land (regfile c !!! data.ui_config_word E) keep) bits)]>
      (regfile c)
  /\ check_value (ui_rmw E keep bits c) = check_value c
  /\ load (data.ui_config E) (ui_rmw E keep bits c)
     = u32 (Z.lor (Z.land (regfile c !!! data.ui_config_word E) keep) bits)
  /\ wf_ram (ui_rmw E keep bits c).
Proof.
  intros Hc. split; [reflexivity|]. split; [reflexivity|]. split.
  - unfold ui_rmw, data.ui_config.
    rewrite load_store_uint32;
      [reflexivity|unfold data.ui_config_word; apply (member_fits E HE 13); lia
      |exact Hc].
  - apply wf_store_uint32, Hc.
Qed.

Lemma ui_rmw_twice (lo hi keep a b : Z) (c : backup_ram_t) :
  wf_ram c -> ui_field lo hi keep a ->
  ui_rmw E keep b (ui_rmw E keep a c) = ui_rmw E keep b c.
Proof.
  intros Hc Hfield.
  destruct (ui_rmw_unfold keep a c Hc) as (Hr1 & Hc1 & Hl1 & Hwf1).
  destruct (ui_rmw_unfold keep b _ Hwf1) as (Hr2 & Hc2 & _ & _).
  destruct (ui_rmw_unfold keep b c Hc) as (Hr3 & Hc3 & _ & _).
  apply backup_ram_t_eq; [|congruence].
  rewrite Hr2, Hr3, Hr1. rewrite list_insert_insert_eq. f_equal.
  rewrite list_lookup_total_insert_eq.
  2:{ unfold wf_ram in Hc. rewrite Hc. unfold data.ui_config_word.
      apply (member_fits E HE 13). lia. }
  apply rmw_twice. intros j Hj Hbit. destruct (Hfield j Hj) as (Hk & Ha).
  specialize (Ha Hbit). rewrite Hk.
  destruct (Z.leb_spec lo j); destruct (Z.leb_spec j hi); try reflexivity; lia.
Qed.

Lemma ui_rmw_commute (lo1 hi1 keep1 a lo2 hi2 keep2 b : Z) (c : backup_ram_t) :
  wf_ram c -> ui_field lo1 hi1 keep1 a -> ui_field lo2 hi2 keep2 b ->
  hi1 < lo2 \/ hi2 < lo1 ->
  ui_rmw E keep2 b (ui_rmw E keep1 a c) = ui_rmw E keep1 a (ui_rmw E keep2 b c).
Proof.
  intros Hc Hf1 Hf2 Hd.
  destruct (ui_rmw_unfold keep1 a c Hc) as (Hr1 & Hc1 & _ & Hwf1).
  destruct (ui_rmw_unfold keep2 b c Hc) as (Hr2 & Hc2 & _ & Hwf2).
  destruct (ui_rmw_unfold keep2 b _ Hwf1) as (Hr21 & Hc21 & _ & _).
  destruct (ui_rmw_unfold keep1 a _ Hwf2) as (Hr12 & Hc12 & _ & _).
  assert (Hfit : (data.ui_config_word E < length (regfile c))%nat).
  { unfold wf_ram in Hc. rewrite Hc. unfold data.ui_config_word.
    apply (member_fits E HE 13). lia. }
  apply backup_ram_t_eq; [|congruence].
  rewrite Hr21, Hr12, Hr1, Hr2. rewrite !list_insert_insert_eq. f_equal.
  rewrite !list_lookup_total_insert_eq by exact Hfit.
  apply rmw_commute.
  - intros j Hj Hbit. destruct (Hf1 j Hj) as (Hk1 & Ha).
    destruct (Hf2 j Hj) as (Hk2 & _). specialize (Ha Hbit).
    rewrite Hk1, Hk2.
    destruct (Z.leb_spec lo1 j); destruct (Z.leb_spec j hi1);
      destruct (Z.leb_spec lo2 j); destruct (Z.leb_spec j hi2);
      cbn; try (split; reflexivity); lia.
  - intros j Hj Hbit. destruct (Hf1 j Hj) as (Hk1 & _).
    destruct (Hf2 j Hj) as (Hk2 & Hb). specialize (Hb Hbit).
    rewrite Hk1, Hk2.
    destruct (Z.leb_spec lo1 j); destruct (Z.leb_spec j hi1);
      destruct (Z.leb_spec lo2 j); destruct (Z.leb_spec j hi2);
      cbn; try (split; reflexivity); lia.
Qed.

Lemma clip_clkout_16 (freq : Z) : 0 <= clip clkout_freq_range freq < 2 ^ 16.
Proof.
  assert (Hr : minimum clkout_freq_range <= maximum clkout_freq_range)
    by (simpl; lia).
  pose proof (clip_bounds clkout_freq_range freq Hr) as Hb. simpl in Hb.
  change (2 ^ 16) with 65536. lia.
Qed.
End ui_rmw.

Lemma store_int32_twice (off : nat) (x1 x2 : Z) (c : backup_ram_t) :
  store (int32_at off) x2 (store (int32_at off) x1 c) = store (int32_at off) x2 c.
Proof.
  cbn [store int32_at]. unfold with_regfile. cbn [regfile check_value].
  rewrite list_insert_insert_eq. reflexivity.
Qed.

Lemma store_int64_twice (off : nat) (x1 x2 : Z) (c : backup_ram_t) :
  store (int64_at off) x2 (store (int64_at off) x1 c) = store (int64_at off) x2 c.
Proof.
  cbn [store int64_at]. unfold with_regfile. cbn [regfile check_value].
  rewrite (list_insert_insert_ne _ off (S off)) by lia.
  rewrite !list_insert_insert_eq. reflexivity.
Qed.

(** X18: the last write wins: for every ranged setter, every single-bit
    setter and [set_config_backlight_timer], two calls in a row leave the
    cache as the second call alone does. *)
Theorem X18_last_write_wins (E : externals) (c : backup_ram_t) :
  wf_externals E = true -> wf_ram c ->
  Forall (fun '(_, set) => forall v1 v2 : Z, set v2 (set v1 c) = set v2 c)
         (ranged_accessors E)
  /\ Forall (fun '(_, _, set) =>
               forall v1 v2 : bool, set v2 (set v1 c) = set v2 c)
            (flag_accessors E)
  /\ (forall i1 i2 : Z,
        set_config_backlight_timer E i2 (set_config_backlight_timer E i1 c)
        = set_config_backlight_timer E i2 c).
Proof.
  intros HE Hc. split; [|split].
  - unfold ranged_accessors.
    apply Forall_cons; split; [intros v1 v2; apply store_int64_twice|].
    apply Forall_cons; split; [intros v1 v2; apply store_int32_twice|].
    apply Forall_cons; split; [intros v1 v2; apply store_int32_twice|].
    apply Forall_cons; split; [intros v1 v2; apply store_int32_twice|].
    apply Forall_cons; split; [intros v1 v2; apply store_int32_twice|].
    apply Forall_cons; split; [intros v1 v2; apply store_int32_twice|].
    apply Forall_cons; split; [intros v1 v2; apply store_int32_twice|].
    apply Forall_cons; split.
    { intros v1 v2.
      exact (ui_rmw_twice E HE 4 19 _ _ _ c Hc
               (ui_field_clkout _ (clip_clkout_16 v1))). }
    apply Forall_nil. exact I.
  - eapply Forall_impl; [apply (flag_accessors_shape E)|].
    intros [[k get] set] (Hk & _ & ->) v1 v2.
    exact (ui_rmw_twice E HE k k _ _ _ c Hc (ui_field_flag k v1 ltac:(lia))).
  - intros i1 i2.
    exact (ui_rmw_twice E HE 0 2 _ _ _ c Hc (ui_field_backlight i1)).
Qed.

Lemma X18_last_write_wins_witness :
  wf_externals sample_externals = true
  /\ wf_ram sample_cache
  /\ set_clkout_freq sample_externals 440
       (set_clkout_freq sample_externals 70000 sample_cache)
     = set_clkout_freq sample_externals 440 sample_cache.
Proof.
  split; [reflexivity|]. split; [exact wf_sample_cache|].
  pose proof (proj1 (X18_last_write_wins sample_externals sample_cache
                       eq_refl wf_sample_cache)) as H.
  rewrite Forall_lookup in H.
  exact (H 7%nat (clkout_freq sample_externals, set_clkout_freq sample_externals)
           eq_refl 70000 440).
Defined.

(** X19: the setters of two different ranged members commute: the cache
    after both writes does not depend on their order. *)
Theorem X19_ranged_setters_commute (E : externals) (i j : nat)
    (get_i get_j : backup_ram_t -> Z * backup_ram_t)
    (set_i set_j : Z -> backup_ram_t -> backup_ram_t)
    (v w : Z) (c : backup_ram_t) :
  i <> j ->
  ranged_accessors E !! i = Some (get_i, set_i) ->
  ranged_accessors E !! j = Some (get_j, set_j) ->
  set_i v (set_j w c) = set_j w (set_i v c).
Proof.
  intros Hij Hi Hj.
  destruct (Forall2_lookup_l _ _ _ _ _ (ranged_setters_local E v) Hi)
    as ([o1 n1] & Hf1 & Hl1).
  destruct (Forall2_lookup_l _ _ _ _ _ (ranged_setters_local E w) Hj)
    as ([o2 n2] & Hf2 & Hl2).
  pose proof (ranged_footprints_disjoint E i j o1 n1 o2 n2 Hij Hf1 Hf2) as Hd.
  exact (local_writes_commute o1 n1 o2 n2 (set_i v) (set_j w) c Hl1 Hl2 Hd).
Qed.

Lemma X19_ranged_setters_commute_witness :
  set_tuned_frequency sample_externals 433920000
    (set_clkout_freq sample_externals 440 sample_cache)
  = set_clkout_freq sample_externals 440
      (set_tuned_frequency sample_externals 433920000 sample_cache).
Proof.
  refine (X19_ranged_setters_commute sample_externals 0 7
            (tuned_frequency sample_externals) (clkout_freq sample_externals)
            (set_tuned_frequency sample_externals)
            (set_clkout_freq sample_externals)
            433920000 440 sample_cache _ eq_refl eq_refl).
  discriminate.
Defined.

(** X20: the setters of the sub-fields of [ui_config] commute: two different
    single-bit setters, a single-bit setter and [set_config_backlight_timer]
    or [set_clkout_freq], and the latter two with each other, leave the same
    cache in either order. *)
Theorem X20_ui_config_setters_commute (E : externals) (c : backup_ram_t)
    (v v' : bool) (i freq : Z) :
  wf_externals E = true -> wf_ram c ->
  Forall (fun '(k, _, set) =>
            Forall (fun '(k', _, set') =>
                      k <> k' -> set v (set' v' c) = set' v' (set v c))
                   (flag_accessors E)
            /\ set v (set_config_backlight_timer E i c)
               = set_config_backlight_timer E i (set v c)
            /\ set v (set_clkout_freq E freq c)
               = set_clkout_freq E freq (set v c))
         (flag_accessors E)
  /\ set_config_backlight_timer E i (set_clkout_freq E freq c)
     = set_clkout_freq E freq (set_config_backlight_timer E i c).
Proof.
  intros HE Hc. split.
  - eapply Forall_impl; [apply (flag_accessors_shape E)|].
    intros [[k get] set] (Hk & _ & ->). split; [|split].
    + eapply Forall_impl; [apply (flag_accessors_shape E)|].
      intros [[k' get'] set'] (Hk' & _ & ->) Hne.
      exact (ui_rmw_commute E HE k' k' _ _ k k _ _ c Hc
               (ui_field_flag k' v' ltac:(lia)) (ui_field_flag k v ltac:(lia))
               ltac:(lia)).
    + exact (ui_rmw_commute E HE 0 2 _ _ k k _ _ c Hc
               (ui_field_backlight i) (ui_field_flag k v ltac:(lia))
               ltac:(lia)).
    + exact (ui_rmw_commute E HE 4 19 _ _ k k _ _ c Hc
               (ui_field_clkout _ (clip_clkout_16 freq))
               (ui_field_flag k v ltac:(lia)) ltac:(lia)).
  - exact (ui_rmw_commute E HE 4 19 _ _ 0 2 _ _ c Hc
             (ui_field_clkout _ (clip_clkout_16 freq)) (ui_field_backlight i)
             ltac:(lia)).
Qed.

Lemma X20_ui_config_setters_commute_witness :
  wf_externals sample_externals = true
  /\ wf_ram sample_cache
  /\ set_config_backlight_timer sample_externals 3
       (set_clkout_freq sample_externals 440 sample_cache)
     = set_clkout_freq sample_externals 440
         (set_config_backlight_timer sample_externals 3 sample_cache).
Proof.
  split; [reflexivity|]. split; [exact wf_sample_cache|].
  exact (proj2 (X20_ui_config_setters_commute sample_externals sample_cache
                  true false 3 440 eq_refl wf_sample_cache)).
Defined.

(** ** The CRC register *)

Lemma process_bit_remainder (bit : bool) (crc : CRC.t) :
  CRC.truncated_polynomial crc = 0x04c11db7 ->
  CRC.process_bit bit crc
  = with_remainder
      (crc_shift (Z.lxor (CRC.remainder crc) (if bit then CRC.top_bit else 0)))
      crc.
Proof.
  intros Hpoly. unfold CRC.process_bit, with_remainder, crc_shift.
  rewrite Hpoly. reflexivity.
Qed.

Lemma process_bits_remainder (byte : Z) (l : list nat) (crc : CRC.t) :
  CRC.truncated_polynomial crc = 0x04c11db7 ->
  foldl (fun crc i => CRC.process_bit (Z.testbit byte (Z.of_nat i)) crc) crc l
  = with_remainder
      (crc_bits (map (fun i => Z.testbit byte (Z.of_nat i)) l)
                (CRC.remainder crc))
      crc.
Proof.
  revert crc. induction l as [|i l IH]; intros crc Hpoly.
  - destruct crc; reflexivity.
  - cbn [foldl map]. rewrite process_bit_remainder by exact Hpoly.
    rewrite IH by exact Hpoly. reflexivity.
Qed.

Lemma process_byte_remainder (byte : Z) (crc : CRC.t) :
  CRC.truncated_polynomial crc = 0x04c11db7 ->
  CRC.process_byte byte crc
  = with_remainder (crc_bits (byte_bits byte) (CRC.remainder crc)) crc.
Proof. apply process_bits_remainder. Qed.

Lemma crc_bits_app (l1 l2 : list bool) (r : Z) :
  crc_bits (l1 ++ l2) r = crc_bits l2 (crc_bits l1 r).
Proof. unfold crc_bits. apply foldl_app. Qed.

Lemma process_word_remainder (word : Z) (crc : CRC.t) :
  CRC.truncated_polynomial crc = 0x04c11db7 ->
  process_word word crc
  = with_remainder (crc_bits (word_bits word) (CRC.remainder crc)) crc.
Proof.
  intros Hpoly. unfold process_word, word_bits. cbv zeta.
  rewrite !crc_bits_app.
  rewrite (process_byte_remainder _ crc) by exact Hpoly.
  rewrite (process_byte_remainder _ (with_remainder _ crc)) by exact Hpoly.
  rewrite (process_byte_remainder _ (with_remainder _ _)) by exact Hpoly.
  rewrite (process_byte_remainder _ (with_remainder _ _)) by exact Hpoly.
  reflexivity.
Qed.

Lemma process_words_remainder (words : list Z) (crc : CRC.t) :
  CRC.truncated_polynomial crc = 0x04c11db7 ->
  foldl (fun crc word => process_word word crc) crc words
  = with_remainder
      (foldl (fun r word => crc_bits (word_bits word) r) (CRC.remainder crc) words)
      crc.
Proof.
  revert crc. induction words as [|w words IH]; intros crc Hpoly.
  - destruct crc; reflexivity.
  - cbn [foldl]. rewrite process_word_remainder by exact Hpoly.
    rewrite IH by exact Hpoly. reflexivity.
Qed.

(** The check value through the register alone. *)
Lemma compute_check_value_register (r : backup_ram_t) :
  wf_ram r ->
  compute_check_value r
  = Z.lxor (foldl (fun x word => crc_bits (word_bits word) x) 0xffffffff
                  (regfile r))
           0xffffffff.
Proof.
  unfold wf_ram. intros Hr. unfold compute_check_value. cbv zeta.
  rewrite <- Hr. rewrite (foldl_seq_lookup process_word).
  rewrite process_words_remainder by reflexivity. reflexivity.
Qed.

Lemma crc_shift_testbit (x j : Z) :
  0 <= j ->
  Z.testbit (crc_shift x) j
  = (j <? 32)
    && xorb (Z.testbit x (j - 1)) (Z.testbit x 31 && Z.testbit 0x04c11db7 j).
Proof.
  intros Hj. unfold crc_shift. cbv zeta.
  assert (Hshift : Z.testbit (u32 (Z.shiftl x 1)) j
                   = (j <? 32) && Z.testbit x (j - 1)).
  { destruct (Z.ltb_spec j 32) as [Hlt|Hge].
    - rewrite u32_testbit by lia. rewrite Z.shiftl_spec by lia. reflexivity.
    - unfold u32. rewrite Z.mod_pow2_bits_high by lia. reflexivity. }
  assert (Hpoly : 32 <= j -> Z.testbit 0x04c11db7 j = false).
  { intros Hge. apply (testbit_small _ 32); [vm_compute; intuition congruence|lia]. }
  destruct (Z.testbit x 31).
  - rewrite Z.lxor_spec, Hshift.
    destruct (Z.ltb_spec j 32) as [Hlt|Hge]; cbn [andb]; [reflexivity|].
    rewrite Hpoly by lia. reflexivity.
  - rewrite Hshift. cbn [andb]. rewrite xorb_false_r. reflexivity.
Qed.

Lemma crc_shift_u32 (x : Z) : in_u32 (crc_shift x).
Proof.
  unfold crc_shift. cbv zeta. destruct (Z.testbit x 31).
  - apply lxor_u32; [apply u32_range|]. unfold in_u32.
    vm_compute. intuition congruence.
  - apply u32_range.
Qed.

Lemma u32_high_bits (x j : Z) : in_u32 x -> 32 <= j -> Z.testbit x j = false.
Proof. intros Hx Hj. apply (testbit_small x 32); [exact Hx|lia]. Qed.

Lemma in_u32_of_bits (x : Z) :
  0 <= x -> (forall j, 32 <= j -> Z.testbit x j = false) -> in_u32 x.
Proof.
  intros Hx Hbits. unfold in_u32.
  assert (Hmod : x mod 2 ^ 32 = x).
  { apply Z.bits_inj'. intros j Hj.
    destruct (Z.lt_ge_cases j 32) as [Hlt|Hge].
    - apply Z.mod_pow2_bits_low. lia.
    - rewrite Z.mod_pow2_bits_high by lia. symmetry. apply Hbits, Hge. }
  rewrite <- Hmod. apply Z.mod_pos_bound. reflexivity.
Qed.

(** The division step is linear over bitwise exclusive or. *)
Lemma crc_shift_linear (x y : Z) :
  crc_shift (Z.lxor x y) = Z.lxor (crc_shift x) (crc_shift y).
Proof.
  apply Z.bits_inj'. intros j Hj.
  rewrite Z.lxor_spec, !crc_shift_testbit by exact Hj. rewrite !Z.lxor_spec.
  destruct (j <? 32), (Z.testbit x (j - 1)), (Z.testbit y (j - 1)),
    (Z.testbit x 31), (Z.testbit y 31), (Z.testbit 0x04c11db7 j); reflexivity.
Qed.

(** The division step loses nothing of a 32-bit register. *)
Lemma crc_shift_inj (x x' : Z) :
  in_u32 x -> in_u32 x' -> crc_shift x = crc_shift x' -> x = x'.
Proof.
  intros Hx Hx' Heq.
  assert (Hbit : forall j, 0 <= j ->
            Z.testbit (crc_shift x) j = Z.testbit (crc_shift x') j)
    by (intros j Hj; rewrite Heq; reflexivity).
  assert (H31 : Z.testbit x 31 = Z.testbit x' 31).
  { specialize (Hbit 0 ltac:(lia)). rewrite !crc_shift_testbit in Hbit by lia.
    change (0 - 1) with (-1) in Hbit.
    rewrite !(Z.testbit_neg_r _ (-1)) in Hbit by lia.
    change (Z.testbit 79764919 0) with true in Hbit. cbn in Hbit.
    rewrite !andb_true_r in Hbit. exact Hbit. }
  apply Z.bits_inj'. intros j Hj.
  destruct (Z.lt_ge_cases j 31) as [Hlt|Hge].
  - specialize (Hbit (j + 1) ltac:(lia)).
    rewrite !crc_shift_testbit in Hbit by lia.
    replace (j + 1 - 1) with j in Hbit by lia. rewrite <- H31 in Hbit.
    destruct (Z.ltb_spec (j + 1) 32); [|lia]. cbn [andb] in Hbit.
    destruct (Z.testbit x j), (Z.testbit x' j), (Z.testbit x 31),
      (Z.testbit 79764919 (j + 1)); cbn in Hbit; congruence.
  - destruct (Z.eq_dec j 31) as [->|Hne]; [exact H31|].
    rewrite (u32_high_bits x j), (u32_high_bits x' j) by (assumption || lia).
    reflexivity.
Qed.

(** Shifting a register up undoes a shift down of a register whose bit 0
    is clear. *)
Lemma crc_shift_shiftr (v : Z) :
  (forall j, 32 <= j -> Z.testbit v j = false) ->
  Z.testbit v 0 = false ->
  crc_shift (Z.shiftr v 1) = v.
Proof.
  intros Hhigh Hlow. apply Z.bits_inj'. intros j Hj.
  rewrite crc_shift_testbit by exact Hj.
  rewrite (Z.shiftr_spec v 1 31) by lia. rewrite (Hhigh (31 + 1)) by lia.
  cbn [andb]. rewrite xorb_false_r.
  destruct (Z.ltb_spec j 32) as [Hlt|Hge]; cbn [andb].
  - destruct (Z.eq_dec j 0) as [->|Hne].
    + rewrite Z.testbit_neg_r by lia. symmetry. exact Hlow.
    + rewrite Z.shiftr_spec by lia. f_equal. lia.
  - symmetry. apply Hhigh, Hge.
Qed.

Lemma iter_crc_shift_u32 (n : nat) (x : Z) :
  in_u32 x -> in_u32 (Nat.iter n crc_shift x).
Proof.
  intros Hx. destruct n as [|n]; [exact Hx|]. cbn [Nat.iter]. apply crc_shift_u32.
Qed.

Lemma iter_crc_shift_inj (n : nat) (x x' : Z) :
  in_u32 x -> in_u32 x' ->
  Nat.iter n crc_shift x = Nat.iter n crc_shift x' -> x = x'.
Proof.
  intros Hx Hx'. induction n as [|n IH]; intros Heq; [exact Heq|].
  cbn [Nat.iter] in Heq. apply IH.
  apply crc_shift_inj; [apply iter_crc_shift_u32, Hx
                       |apply iter_crc_shift_u32, Hx'|exact Heq].
Qed.

Lemma lxor_cancel_l (r v v' : Z) : Z.lxor r v = Z.lxor r v' -> v = v'.
Proof.
  intros Heq. apply (f_equal (Z.lxor r)) in Heq.
  rewrite <- !Z.lxor_assoc, Z.lxor_nilpotent, !Z.lxor_0_l in Heq. exact Heq.
Qed.

Lemma lxor_cancel_r (r r' v : Z) : Z.lxor r v = Z.lxor r' v -> r = r'.
Proof.
  intros Heq. rewrite (Z.lxor_comm r), (Z.lxor_comm r') in Heq.
  exact (lxor_cancel_l _ _ _ Heq).
Qed.

Lemma top_bit_testbit (b : bool) (j : Z) :
  0 <= j -> Z.testbit (if b then CRC.top_bit else 0) j = b && (j =? 31).
Proof.
  intros Hj. destruct b; cbn [andb]; [|apply Z.testbit_0_l].
  unfold CRC.top_bit. change 1 with (Z.b2z true).
  rewrite testbit_b2z_shiftl by lia. reflexivity.
Qed.

Lemma bits_value_nonneg (bits : list bool) : 0 <= bits_value bits.
Proof.
  induction bits as [|b bits IH]; cbn [bits_value]; [lia|].
  apply Z.lxor_nonneg. split; intros _.
  - apply Z.shiftr_nonneg, IH.
  - destruct b; [vm_compute; congruence|lia].
Qed.

(** Bit [j] of the register image of the input bits is input bit
    [31 - j]. *)
Lemma bits_value_testbit (bits : list bool) (j : Z) :
  0 <= j ->
  Z.testbit (bits_value bits) j
  = (j <=? 31) && default false (bits !! Z.to_nat (31 - j)).
Proof.
  revert j. induction bits as [|b bits IH]; intros j Hj.
  - cbn [bits_value]. rewrite Z.testbit_0_l, lookup_nil. cbn [default].
    rewrite andb_false_r. reflexivity.
  - cbn [bits_value]. rewrite Z.lxor_spec, top_bit_testbit by exact Hj.
    rewrite Z.shiftr_spec by exact Hj. rewrite IH by lia.
    destruct (Z.eqb_spec j 31) as [->|Hne].
    + cbn. rewrite andb_true_r, xorb_false_r. reflexivity.
    + rewrite andb_false_r, xorb_false_l.
      destruct (Z.leb_spec j 31) as [Hle|Hgt].
      * destruct (Z.leb_spec (j + 1) 31); [|lia]. cbn [andb].
        replace (Z.to_nat (31 - j)) with (S (Z.to_nat (31 - (j + 1)))) by lia.
        reflexivity.
      * destruct (Z.leb_spec (j + 1) 31); [lia|]. reflexivity.
Qed.

Lemma bits_value_u32 (bits : list bool) : in_u32 (bits_value bits).
Proof.
  apply in_u32_of_bits; [apply bits_value_nonneg|].
  intros j Hj. rewrite bits_value_testbit by lia.
  destruct (Z.leb_spec j 31); [lia|reflexivity].
Qed.

Lemma crc_bits_cons (b : bool) (bits : list bool) (r : Z) :
  crc_bits (b :: bits) r
  = crc_bits bits (crc_shift (Z.lxor r (if b then CRC.top_bit else 0))).
Proof. reflexivity. Qed.

(** Feeding at most 32 bits is the same as laying them on top of the
    register and shifting as many times. *)
Lemma crc_bits_iter (bits : list bool) (r : Z) :
  (length bits <= 32)%nat ->
  crc_bits bits r
  = Nat.iter (length bits) crc_shift (Z.lxor r (bits_value bits)).
Proof.
  revert r. induction bits as [|b bits IH]; intros r Hlen.
  - cbn. rewrite Z.lxor_0_r. reflexivity.
  - cbn [length] in Hlen. rewrite crc_bits_cons.
    rewrite IH by lia. cbn [length bits_value]. rewrite Nat.iter_succ_r.
    f_equal. rewrite <- Z.lxor_assoc.
    rewrite (crc_shift_linear (Z.lxor r _) (Z.shiftr (bits_value bits) 1)).
    f_equal.
    symmetry. apply crc_shift_shiftr.
    + intros j Hj. apply u32_high_bits; [apply bits_value_u32|exact Hj].
    + rewrite bits_value_testbit by lia. cbn [andb Z.leb Z.compare].
      change (Z.to_nat (31 - 0)) with 31%nat.
      rewrite lookup_ge_None_2 by lia. reflexivity.
Qed.

Lemma crc_bits_u32 (bits : list bool) (r : Z) :
  in_u32 r -> in_u32 (crc_bits bits r).
Proof.
  revert r. induction bits as [|b bits IH]; intros r Hr; [exact Hr|].
  rewrite crc_bits_cons. apply IH, crc_shift_u32.
Qed.

(** The register after at most 32 input bits determines the register
    before them. *)
Lemma crc_bits_inj_register (bits : list bool) (r r' : Z) :
  (length bits <= 32)%nat -> in_u32 r -> in_u32 r' ->
  crc_bits bits r = crc_bits bits r' -> r = r'.
Proof.
  intros Hlen Hr Hr' Heq. rewrite !crc_bits_iter in Heq by exact Hlen.
  apply iter_crc_shift_inj in Heq.
  - exact (lxor_cancel_r _ _ _ Heq).
  - apply lxor_u32; [exact Hr|apply bits_value_u32].
  - apply lxor_u32; [exact Hr'|apply bits_value_u32].
Qed.

(** The register after exactly 32 input bits determines those bits. *)
Lemma crc_bits_inj_bits (bits bits' : list bool) (r : Z) :
  length bits = 32%nat -> length bits' = 32%nat -> in_u32 r ->
  crc_bits bits r = crc_bits bits' r -> bits = bits'.
Proof.
  intros Hlen Hlen' Hr Heq. rewrite !crc_bits_iter in Heq by lia.
  rewrite Hlen, Hlen' in Heq. apply iter_crc_shift_inj in Heq.
  2,3: apply lxor_u32; [exact Hr|apply bits_value_u32].
  apply lxor_cancel_l in Heq.
  apply list_eq_same_length with 32%nat; [exact Hlen'|exact Hlen|].
  intros i x y Hi Hx Hy.
  assert (Hbit : Z.testbit (bits_value bits) (31 - Z.of_nat i)
                 = Z.testbit (bits_value bits') (31 - Z.of_nat i))
    by (rewrite Heq; reflexivity).
  rewrite !bits_value_testbit in Hbit by lia.
  replace (Z.to_nat (31 - (31 - Z.of_nat i))) with i in Hbit by lia.
  rewrite Hx, Hy in Hbit. cbn [default] in Hbit.
  destruct (Z.leb_spec (31 - Z.of_nat i) 31); [|lia]. exact Hbit.
Qed.

Lemma byte_bit (w k i : Z) :
  0 <= k -> 0 <= i < 8 ->
  Z.testbit (Z.land (Z.shiftr w k) 0xff) i = Z.testbit w (i + k).
Proof.
  intros Hk Hi. rewrite Z.land_spec, Z.shiftr_spec by lia.
  change 0xff with (Z.ones 8). rewrite Z.ones_spec_low by lia.
  apply andb_true_r.
Qed.

(** The input bits of a word: its bytes from the low one to the high one,
    each from its bit 7 down to its bit 0. *)
Lemma word_bits_order (w : Z) :
  word_bits w
  = List.map (Z.testbit w)
      [7; 6; 5; 4; 3; 2; 1; 0; 15; 14; 13; 12; 11; 10; 9; 8;
       23; 22; 21; 20; 19; 18; 17; 16; 31; 30; 29; 28; 27; 26; 25; 24].
Proof.
  unfold word_bits, byte_bits. cbn [map List.map app].
  rewrite !byte_bit by lia. reflexivity.
Qed.

Lemma length_word_bits (w : Z) : length (word_bits w) = 32%nat.
Proof. reflexivity. Qed.

Lemma word_bits_inj (w w' : Z) : word_bits w = word_bits w' -> u32 w = u32 w'.
Proof.
  intros Heq. rewrite !word_bits_order in Heq.
  rewrite List.map_ext_in_iff in Heq.
  apply Z.bits_inj'. intros j Hj. unfold u32.
  destruct (Z.lt_ge_cases j 32) as [Hlt|Hge].
  - rewrite !Z.mod_pow2_bits_low by lia. apply Heq.
    assert (Hcases : j = 0 \/ j = 1 \/ j = 2 \/ j = 3 \/ j = 4 \/ j = 5 \/ j = 6
                     \/ j = 7 \/ j = 8 \/ j = 9 \/ j = 10 \/ j = 11 \/ j = 12
                     \/ j = 13 \/ j = 14 \/ j = 15 \/ j = 16 \/ j = 17
                     \/ j = 18 \/ j = 19 \/ j = 20 \/ j = 21 \/ j = 22
                     \/ j = 23 \/ j = 24 \/ j = 25 \/ j = 26 \/ j = 27
                     \/ j = 28 \/ j = 29 \/ j = 30 \/ j = 31) by lia.
    repeat (destruct Hcases as [->|Hcases];
            [cbn [In]; repeat first [left; reflexivity | right]|]).
    subst j. cbn [In]. repeat first [left; reflexivity | right].
  - rewrite !Z.mod_pow2_bits_high by lia. reflexivity.
Qed.

Section word_corruption.

(** One step of the register per register word. *)
Let step (x word : Z) : Z := crc_bits (word_bits word) x.

Lemma step_u32 (x word : Z) : in_u32 x -> in_u32 (step x word).
Proof. apply crc_bits_u32. Qed.

Lemma foldl_step_u32 (words : list Z) (x : Z) :
  in_u32 x -> in_u32 (foldl step x words).
Proof.
  apply (foldl_invariant in_u32 step). intros a w. apply step_u32.
Qed.

Lemma foldl_step_inj (words : list Z) (x x' : Z) :
  in_u32 x -> in_u32 x' ->
  foldl step x words = foldl step x' words -> x = x'.
Proof.
  revert x x'. induction words as [|w words IH]; intros x x' Hx Hx' Heq.
  - exact Heq.
  - cbn [foldl] in Heq. apply IH in Heq; [|apply step_u32, Hx|apply step_u32, Hx'].
    apply (crc_bits_inj_register (word_bits w)); [rewrite length_word_bits; lia
                                                |exact Hx|exact Hx'|exact Heq].
Qed.

(** Two images that differ in exactly one register word, as 32-bit values,
    have different check values. *)
Lemma compute_check_value_one_word (r : backup_ram_t) (i : nat) (w' : Z) :
  wf_ram r -> (i < regfile_size)%nat ->
  u32 w' <> u32 (regfile r !!! i) ->
  compute_check_value (with_regfile (fun rf => <[i := w']> rf) r)
  <> compute_check_value r.
Proof.
  intros Hr Hi Hne Heq.
  assert (Hr' : wf_ram (with_regfile (fun rf => <[i := w']> rf) r))
    by (apply wf_with_regfile_insert, Hr).
  rewrite (compute_check_value_register _ Hr') in Heq.
  rewrite (compute_check_value_register _ Hr) in Heq.
  apply lxor_cancel_r in Heq. cbn [regfile with_regfile] in Heq.
  unfold wf_ram in Hr.
  assert (Hw : regfile r !! i = Some (regfile r !!! i))
    by (apply list_lookup_lookup_total_lt; lia).
  rewrite insert_take_drop in Heq by lia.
  rewrite <- (take_drop_middle (regfile r) i _ Hw) in Heq at 3.
  rewrite !foldl_app in Heq. cbn [foldl] in Heq.
  fold step in Heq.
  assert (Hinit : in_u32 0xffffffff) by (unfold in_u32; vm_compute; intuition congruence).
  pose proof (foldl_step_u32 (take i (regfile r)) _ Hinit) as Hpre.
  apply foldl_step_inj in Heq; [|apply step_u32, Hpre|apply step_u32, Hpre].
  unfold step in Heq, Hpre.
  apply crc_bits_inj_bits in Heq;
    [|apply length_word_bits|apply length_word_bits|exact Hpre].
  apply Hne, word_bits_inj, Heq.
Qed.
End word_corruption.

(** X21: the check value detects every corruption confined to one register
    word: if a valid image has one of its 63 words replaced by a different
    32-bit value (one flipped bit, or any other change of that word), it is
    no longer valid, and [init()] loads the defaults instead of it. *)
Theorem X21_one_word_corruption_detected (E : externals) (r fresh : backup_ram_t)
    (i : nat) (w' : Z) :
  wf_ram r -> wf_ram fresh -> is_valid r = true -> (i < 63)%nat ->
  u32 w' <> u32 (regfile r !!! i) ->
  let corrupted := with_regfile (fun rf => <[i := w']> rf) r in
  is_valid corrupted = false
  /\ cached_backup_ram
       (cache.init E {| backup_ram := corrupted; cached_backup_ram := fresh |})
     = backup_ram_t_default E.
Proof.
  intros Hr Hfresh Hvalid Hi Hne corrupted.
  assert (Hbad : is_valid corrupted = false).
  { destruct (is_valid corrupted) eqn:Hv; [|reflexivity].
    apply is_valid_iff in Hv. apply is_valid_iff in Hvalid.
    exfalso. apply (compute_check_value_one_word r i w' Hr Hi Hne).
    subst corrupted. cbn [check_value with_regfile] in Hv. congruence. }
  split; [exact Hbad|].
  rewrite init_invalid; [reflexivity| |exact Hbad].
  split; [apply wf_with_regfile_insert, Hr|exact Hfresh].
Qed.

Lemma X21_one_word_corruption_detected_witness :
  is_valid (with_regfile (fun rf => <[5%nat := 8]> rf)
              (backup_ram persisted_defaults)) = false.
Proof.
  refine (proj1 (X21_one_word_corruption_detected sample_externals
                   (backup_ram persisted_defaults) blank_cache 5 8 _ _ _ _ _)).
  - reflexivity.
  - reflexivity.
  - vm_compute. reflexivity.
  - lia.
  - vm_compute. discriminate.
Defined.

(** ** What the register words determine *)

Section same_words.
Variable E : externals.
Variables c c' : backup_ram_t.
Hypothesis Hreg : regfile c' = regfile c.

Lemma same_words_load_uint32 (off : nat) :
  load (uint32_at off) c' = load (uint32_at off) c.
Proof. cbn [load uint32_at]. rewrite Hreg. reflexivity. Qed.

Lemma same_words_ranged :
  Forall (fun '(get, _) => fst (get c') = fst (get c)) (ranged_accessors E).
Proof.
  apply Forall_lookup. intros i [get set] Hi.
  destruct (Forall2_lookup_l _ _ _ _ _ (ranged_footprints_hold E) Hi)
    as ([o n] & _ & _ & _ & Hr).
  apply Hr; [rewrite Hreg; reflexivity|]. intros k _. rewrite Hreg. reflexivity.
Qed.

Lemma same_words_flags :
  Forall (fun '(_, get, _) => get c' = get c) (flag_accessors E).
Proof.
  eapply Forall_impl; [apply (flag_accessors_shape E)|].
  intros [[k get] set] (_ & -> & _). unfold test_ui_config, data.ui_config.
  rewrite same_words_load_uint32. reflexivity.
Qed.

Lemma same_words_touch_calibration :
  fst (touch_calibration E c') = fst (touch_calibration E c).
Proof.
  unfold touch_calibration, data.touch_calibration_magic.
  rewrite same_words_load_uint32.
  destruct (negb _); cbn [fst].
  - unfold set_touch_calibration.
    cbn [load_blob store_blob store data.touch_calibration
         data.touch_calibration_magic words_at uint32_at with_regfile regfile].
    rewrite Hreg. reflexivity.
  - cbn [load_blob data.touch_calibration words_at]. rewrite Hreg. reflexivity.
Qed.

Lemma same_words_plain :
  config_backlight_timer E c' = config_backlight_timer E c
  /\ serial_format E c' = serial_format E c
  /\ pocsag_last_address E c' = pocsag_last_address E c
  /\ pocsag_ignore_address E c' = pocsag_ignore_address E c
  /\ config_cpld E c' = config_cpld E c.
Proof.
  unfold config_backlight_timer, serial_format, pocsag_last_address,
    pocsag_ignore_address, config_cpld, data.ui_config,
    data.pocsag_last_address, data.pocsag_ignore_address, data.hardware_config.
  rewrite !same_words_load_uint32.
  cbn [load_blob data.serial_format words_at]. rewrite Hreg. auto.
Qed.
End same_words.

(** X22: settings survive a power cycle once persisted: after [persist()]
    and an [init()] that starts from any cache contents, every getter
    (ranged members, flags, backlight timer, touch calibration, serial
    format, POCSAG addresses, CPLD configuration) returns what it returned
    on the cache that was persisted. *)
Theorem X22_settings_survive_persist_init (E : externals) (m : machine)
    (fresh : backup_ram_t) :
  wf_machine m -> wf_ram fresh ->
  let c := cached_backup_ram m in
  let c' :=
    cached_backup_ram
      (cache.init E {| backup_ram := backup_ram (cache.persist m);
                       cached_backup_ram := fresh |}) in
  Forall (fun '(get, _) => fst (get c') = fst (get c)) (ranged_accessors E)
  /\ Forall (fun '(_, get, _) => get c' = get c) (flag_accessors E)
  /\ fst (touch_calibration E c') = fst (touch_calibration E c)
  /\ config_backlight_timer E c' = config_backlight_timer E c
  /\ serial_format E c' = serial_format E c
  /\ pocsag_last_address E c' = pocsag_last_address E c
  /\ pocsag_ignore_address E c' = pocsag_ignore_address E c
  /\ config_cpld E c' = config_cpld E c.
Proof.
  intros Hm Hfresh c c'.
  assert (Hreg : regfile c' = regfile c).
  { subst c c'. rewrite persist_eq by exact Hm. cbn [backup_ram].
    rewrite init_valid; [reflexivity| |apply is_valid_after_persist].
    split; [apply wf_with_check_value, Hm|exact Hfresh]. }
  split; [apply same_words_ranged, Hreg|].
  split; [apply same_words_flags, Hreg|].
  split; [apply same_words_touch_calibration, Hreg|].
  apply same_words_plain, Hreg.
Qed.

Lemma X22_settings_survive_persist_init_witness :
  config_backlight_timer sample_externals
    (cached_backup_ram
       (cache.init sample_externals
          {| backup_ram :=
               backup_ram
                 (cache.persist
                    {| backup_ram := backup_ram cold_machine;
                       cached_backup_ram :=
                         set_config_backlight_timer sample_externals 2
                           sample_cache |});
             cached_backup_ram := blank_cache |}))
  = config_backlight_timer sample_externals
      (set_config_backlight_timer sample_externals 2 sample_cache).
Proof.
  refine (proj1 (proj2 (proj2 (proj2
    (X22_settings_survive_persist_init sample_externals
       {| backup_ram := backup_ram cold_machine;
          cached_backup_ram :=
            set_config_backlight_timer sample_externals 2 sample_cache |}
       blank_cache _ _))))).
  - split; reflexivity.
  - reflexivity.
Defined.

(** X23: each ranged setter stores the saturating clamp min(hi, max(lo, v))
    of its argument into its member, for every argument of the member's
    type, and rejects nothing ([set_modem_repeat] for arguments up to
    2147483647, the largest value of the member's type).
    [set_correction_ppb(500000)] stores 99000, hands 99000 to the clock
    manager, and [correction_ppb()] then returns 99000 and leaves the cache
    as it is. *)
Theorem X23_ranged_setters_clamp (E : externals) :
  wf_externals E = true ->
  setter_clamps (fun v c => fst (set_correction_ppb v c)) data.correction_ppb
    (-99000) 99000 (fun _ => True)
  /\ setter_clamps (set_tone_mix E) (data.tone_mix E) 10 99 (fun _ => True)
  /\ setter_clamps (set_afsk_mark E) (data.afsk_mark_freq E) 1 4000 (fun _ => True)
  /\ setter_clamps (set_afsk_space E) (data.afsk_space_freq E) 1 4000
       (fun _ => True)
  /\ setter_clamps (set_modem_baudrate E) (data.modem_baudrate E) 50 9600
       (fun _ => True)
  /\ setter_clamps (set_modem_repeat E) (data.modem_repeat E) 1 99
       (fun v => 0 <= v <= 2147483647)
  /\ setter_clamps (set_tuned_frequency E) data.tuned_frequency
       (minimum (tuning_range E)) (maximum (tuning_range E)) (fun _ => True)
  /\ setter_clamps (set_clkout_freq E) (clkout_field E) 10 60000 (fun _ => True)
  /\ (forall c : backup_ram_t, wf_ram c ->
        let c1 := fst (set_correction_ppb 500000 c) in
        c1 = store data.correction_ppb 99000 c
        /\ snd (set_correction_ppb 500000 c) = 99000
        /\ load data.correction_ppb c1 = 99000
        /\ correction_ppb c1 = (99000, c1)).
Proof.
  intros HE.
  split; [apply correction_ppb_contracts|].
  split; [apply (tone_mix_contracts E HE)|].
  split; [apply (afsk_mark_freq_contracts E HE)|].
  split; [apply (afsk_space_freq_contracts E HE)|].
  split; [apply (modem_baudrate_contracts E HE)|].
  split; [apply (modem_repeat_contracts E HE)|].
  split; [apply (tuned_frequency_contracts E HE)|].
  split; [apply (clkout_freq_contracts E HE)|].
  intros c Hc c1.
  destruct correction_ppb_contracts as (Hget & _ & Hset & _).
  destruct (Hset c 500000 Hc I) as (Hst & Hld).
  change (Z.min 99000 (Z.max (-99000) 500000)) with 99000 in *.
  split; [exact Hst|]. split; [reflexivity|]. split; [exact Hld|].
  assert (Hwf1 : wf_ram c1) by (subst c1; apply wf_store_int32, Hc).
  destruct (Hget c1 Hwf1) as (_ & Hin).
  subst c1. cbv beta in Hld. rewrite Hin; rewrite Hld; [reflexivity|lia].
Qed.

Lemma X23_ranged_setters_clamp_witness :
  wf_externals sample_externals = true
  /\ wf_ram sample_cache
  /\ correction_ppb (fst (set_correction_ppb 500000 sample_cache))
     = (99000, fst (set_correction_ppb 500000 sample_cache)).
Proof.
  split; [reflexivity|]. split; [exact wf_sample_cache|].
  destruct (X23_ranged_setters_clamp sample_externals eq_refl)
    as (_ & _ & _ & _ & _ & _ & _ & _ & Hppb).
  apply (Hppb sample_cache wf_sample_cache).
Defined.
